(** * trakt-sync: the Simkl -> Trakt synchronisation engine

    A shallow embedding of the three entry points of the repository

      - [ManualSync]          (sync.mjs),
      - [AutomatedTraktSync]  (sync-auto.mjs),
      - [GitHubSync]          (sync-github.js),

    followed by the properties of the schema normaliser, of the
    authenticated request / token refresh protocol, of the whole run and
    of the result logger.

    JSON documents are represented at the shape the program reads them
    with: a property that may be missing is an [option], a JavaScript
    array is a [list], and a value the program stores or copies without
    looking at its shape (the token object, the answer of the history
    endpoint, the log document) is a [json]. *)

From Stdlib Require Import List String ZArith Bool Arith Lia DecimalString.
Import ListNotations.
Local Open Scope string_scope.
Local Set Warnings "-register-all".

(* ================================================================== *)
(** ** JavaScript values                                               *)
(* ================================================================== *)

(** A JSON value.  Numbers are integers: the program only compares them
    with [0] and copies them. *)
Inductive json : Type :=
| JNull
| JBool (b : bool)
| JNum (z : Z)
| JStr (s : string)
| JArr (l : list json)
| JObj (l : list (string * json)).

(** A string-valued property such as [last_watched_at]: [None] when the
    property is missing (or [null]), [Some s] when it holds the string
    [s], the empty string included. *)
Definition jsstring := option string.

(** JavaScript truthiness of such a property: [undefined], [null] and
    the empty string are falsy. *)
Definition truthy (v : jsstring) : bool :=
  match v with
  | Some s => negb (s =? "")
  | None => false
  end.

(** [a || b] *)
Definition js_or (a b : jsstring) : jsstring :=
  if truthy a then a else b.

(** Every object is truthy: [.filter(ep => ep)] over freshly built
    object literals. *)
Definition object_truthy {A : Type} (o : A) : bool := true.

(* ================================================================== *)
(** ** Data model                                                      *)
(* ================================================================== *)

(** [ids: { imdb, tmdb }] *)
Record ids := { imdb : option string; tmdb : option Z }.

(** The nested [movie] / [show] object of a source entry.  The program
    reads [entry.movie.ids] and [entry.show.ids] without a test: an
    entry has this object and its [ids]. *)
Record media := { media_ids : ids }.

Record movie_entry := {
  movie_last_watched_at : jsstring;
  movie_movie : media
}.

Record episode_entry := {
  episode_number : option Z;
  episode_last_watched_at : jsstring
}.

Record season_entry := {
  season_number : option Z;
  season_episodes : option (list episode_entry)
}.

(** An entry of [watched.shows] and of [watched.anime]. *)
Record show_entry := {
  show_last_watched_at : jsstring;
  show_show : media;
  show_seasons : option (list season_entry)
}.

(** The document returned by the Simkl all-items endpoint. *)
Record watched_items := {
  watched_movies : option (list movie_entry);
  watched_shows : option (list show_entry);
  watched_anime : option (list show_entry)
}.

(** The body posted to the Trakt history endpoint. *)
Record trakt_episode := { ep_number : option Z; ep_watched_at : jsstring }.

Record trakt_season := { se_number : option Z; se_episodes : list trakt_episode }.

Record trakt_movie := { mv_watched_at : jsstring; mv_ids : ids }.

Record trakt_show := {
  sh_watched_at : jsstring;
  sh_ids : ids;
  sh_seasons : list trakt_season
}.

Record traktObject := { movies : list trakt_movie; shows : list trakt_show }.

(** [season.episodes.length > 0] *)
Definition has_episodes (season : trakt_season) : bool :=
  (0 <? List.length (se_episodes season))%nat.

(** The object literal pushed for a movie. *)
Definition movie_item (movie : movie_entry) : trakt_movie :=
  {| mv_watched_at := movie_last_watched_at movie;
     mv_ids := {| imdb := imdb (media_ids (movie_movie movie));
                  tmdb := tmdb (media_ids (movie_movie movie)) |} |}.

(** The object literal built for an episode under a parent entry. *)
Definition episode_item (parent : show_entry) (episode : episode_entry) : trakt_episode :=
  {| ep_number := episode_number episode;
     ep_watched_at := js_or (episode_last_watched_at episode) (show_last_watched_at parent) |}.

(** The object literal pushed for a show or anime entry. *)
Definition show_item (entry : show_entry) (seasons : list trakt_season) : trakt_show :=
  {| sh_watched_at := show_last_watched_at entry;
     sh_ids := {| imdb := imdb (media_ids (show_show entry));
                  tmdb := tmdb (media_ids (show_show entry)) |};
     sh_seasons := seasons |}.

Definition push_movies (t : traktObject) (m : trakt_movie) : traktObject :=
  {| movies := movies t ++ [m]; shows := shows t |}.

Definition push_shows (t : traktObject) (s : trakt_show) : traktObject :=
  {| movies := movies t; shows := shows t ++ [s] |}.

(** [xs.forEach(f)] over a mutable accumulator. *)
Definition forEach {A S : Type} (xs : list A) (f : S -> A -> S) (s : S) : S :=
  fold_left f xs s.

(* ================================================================== *)
(** ** Property access and truthiness on JSON values                   *)
(* ================================================================== *)

Fixpoint assoc (k : string) (l : list (string * json)) : option json :=
  match l with
  | [] => None
  | (k', v) :: l' => if k =? k' then Some v else assoc k l'
  end.

(** [v.k] on a value that is neither [null] nor [undefined]: the
    property of an object, [undefined] on anything else (none of the
    names the program reads is a built-in property). *)
Definition prop (k : string) (v : json) : option json :=
  match v with
  | JObj l => assoc k l
  | _ => None
  end.

Definition json_truthy (v : option json) : bool :=
  match v with
  | None => false
  | Some JNull => false
  | Some (JBool b) => b
  | Some (JNum z) => negb (z =? 0)%Z
  | Some (JStr s) => negb (s =? "")
  | Some (JArr _) => true
  | Some (JObj _) => true
  end.

(** [v || 0] *)
Definition or_zero (v : option json) : json :=
  match v with
  | Some j => if json_truthy v then j else JNum 0
  | None => JNum 0
  end.

(** [v?.k]: [undefined] when [v] is [null] or [undefined]. *)
Definition opt_prop (k : string) (v : option json) : option json :=
  match v with
  | None => None
  | Some JNull => None
  | Some j => prop k j
  end.

(* ================================================================== *)
(** ** Requests, responses, errors                                     *)
(* ================================================================== *)

(** The value of a header: a literal, a configuration value, or the
    template [`Bearer ${v}`] kept with the interpolated value. *)
Inductive header_value : Type :=
| Lit (s : string)
| Val (v : option string)
| Bearer (v : option json).

Definition headers := list (string * header_value).

(** [headers.k = v] on an existing object. *)
Fixpoint set_header (k : string) (v : header_value) (h : headers) : headers :=
  match h with
  | [] => [(k, v)]
  | (k', v') :: h' => if k =? k' then (k, v) :: h' else (k', v') :: set_header k v h'
  end.

(** What [JSON.stringify] is applied to. *)
Inductive request_body : Type :=
| HistoryBody (t : traktObject)
| RefreshBody (refresh_token : option json) (client_id client_secret : option string)
              (redirect_uri grant_type : string).

(** The [options] argument of [fetch]; [None] for a property the object
    does not have. *)
Record options := {
  opt_method : option string;
  opt_headers : option headers;
  opt_body : option request_body
}.

Definition no_options : options :=
  {| opt_method := None; opt_headers := None; opt_body := None |}.

Definition or_else {A : Type} (b a : option A) : option A :=
  match b with
  | Some x => Some x
  | None => a
  end.

(** [{ ...a, ...b }]: the properties of [b] win, property by property
    (the spread is shallow). *)
Definition spread (a b : options) : options :=
  {| opt_method := or_else (opt_method b) (opt_method a);
     opt_headers := or_else (opt_headers b) (opt_headers a);
     opt_body := or_else (opt_body b) (opt_body a) |}.

Record request := { req_url : string; req_options : options }.

(** A [Response]; [resp_json] is what [response.json()] resolves to,
    [None] when it rejects. *)
Record response (A : Type) := {
  status : Z;
  statusText : string;
  resp_json : option A
}.
Arguments status {A} _.
Arguments statusText {A} _.
Arguments resp_json {A} _.

(** [response.ok] *)
Definition ok {A : Type} (r : response A) : bool :=
  ((200 <=? status r) && (status r <=? 299))%Z.

Inductive error : Type :=
| HttpError (st : Z) (text : string)      (* `HTTP ${status}: ${statusText}` *)
| RefreshFailed                           (* 'Failed to refresh Trakt token' *)
| ConnectionTestFailed                    (* 'Trakt connection test failed' *)
| ConnectionFailed                        (* 'Trakt connection failed' *)
| SyncFailed (st : Z)                     (* `Sync failed: ${status}` *)
| TypeError (what : string)
| SyntaxError
| NetworkError
| FileError
| BodyError.                              (* the body of a response cannot be read *)

(** The promise returned by [fetch]: rejected, or resolved with a
    response. *)
Inductive fetched (A : Type) : Type :=
| Rejected
| Resolved (r : response A).
Arguments Rejected {A}.
Arguments Resolved {A} r.

(** The lines written to the console, by what they say: lines of the
    three entry points that differ in colour, pictogram or wording only
    share a constructor. *)
Inductive message : Type :=
| NoConfigurationFound
| ConfigurationHint
| ConfigurationLoaded
| StartingManualSync
| StartingAutoSync
| StartingGitHubSync
| FetchingSimkl
| SimklFetched
| TokenMightBeExpired
| RefreshingToken
| TokenRefreshed
| PleaseUpdateSecret
| TestingConnection
| ConnectionSuccessful
| Counts (n_movies n_shows : nat)
| NoNewItems
| SyncingToTrakt
| SyncCompleted (movies_added episodes_added : json)
| SyncFailedStatus (st : Z) (text : string)
| SyncFailedError (e : error)
| TopLevelError (e : error)
| Usage
| UsageAutoSync.

Inductive event : Type :=
| Console (m : message)
| Fetch (r : request).

(* ================================================================== *)
(** ** Credentials, files and the world                                *)
(* ================================================================== *)

(** trakt-sync-config.json *)
Record config := {
  simkl_client_id : option string;
  trakt_client_id : option string;
  trakt_client_secret : option string;
  simkl_access_token : option string;
  trakt_tokens : option json
}.

Definition set_trakt_tokens (c : config) (t : option json) : config :=
  {| simkl_client_id := simkl_client_id c;
     trakt_client_id := trakt_client_id c;
     trakt_client_secret := trakt_client_secret c;
     simkl_access_token := simkl_access_token c;
     trakt_tokens := t |}.

(** A JSON file as [readFile] followed by [JSON.parse] sees it:
    [Missing] when it cannot be read, [Corrupt] when its text is not
    JSON, [Content d] when it parses to [d]. *)
Inductive file (A : Type) : Type :=
| Missing
| Corrupt
| Content (d : A).
Arguments Missing {A}.
Arguments Corrupt {A}.
Arguments Content {A} d.

(** [process.env] of sync-github.js; [TRAKT_TOKENS] as the conditional
    [process.env.TRAKT_TOKENS ? JSON.parse(...) : null] sees it
    ([Missing]: unset or empty). *)
Record environment := {
  SIMKL_CLIENT_ID : option string;
  TRAKT_CLIENT_ID : option string;
  TRAKT_CLIENT_SECRET : option string;
  SIMKL_ACCESS_TOKEN : option string;
  TRAKT_TOKENS : file json
}.

(** Everything a run reads and writes.  The two services answer a
    request knowing what happened before; [read_text] is what reading
    the body of a response of the destination as text gives at that
    point, [None] when the body cannot be read; [trace] is in order of
    occurrence. *)
Record world := {
  this_config : option config;
  config_file : file (option config);
  config_writable : bool;
  log_file : file json;
  log_writable : bool;
  process_env : environment;
  simkl : list event -> request -> fetched watched_items;
  trakt : list event -> request -> fetched json;
  read_text : list event -> response json -> option string;
  clock : list event -> string;
  trace : list event
}.

Definition with_trace (w : world) (t : list event) : world :=
  {| this_config := this_config w; config_file := config_file w;
     config_writable := config_writable w; log_file := log_file w;
     log_writable := log_writable w; process_env := process_env w;
     simkl := simkl w; trakt := trakt w; read_text := read_text w;
     clock := clock w; trace := t |}.

Definition with_config (w : world) (c : option config) : world :=
  {| this_config := c; config_file := config_file w;
     config_writable := config_writable w; log_file := log_file w;
     log_writable := log_writable w; process_env := process_env w;
     simkl := simkl w; trakt := trakt w; read_text := read_text w;
     clock := clock w; trace := trace w |}.

Definition with_config_file (w : world) (f : file (option config)) : world :=
  {| this_config := this_config w; config_file := f;
     config_writable := config_writable w; log_file := log_file w;
     log_writable := log_writable w; process_env := process_env w;
     simkl := simkl w; trakt := trakt w; read_text := read_text w;
     clock := clock w; trace := trace w |}.

Definition with_log_file (w : world) (f : file json) : world :=
  {| this_config := this_config w; config_file := config_file w;
     config_writable := config_writable w; log_file := f;
     log_writable := log_writable w; process_env := process_env w;
     simkl := simkl w; trakt := trakt w; read_text := read_text w;
     clock := clock w; trace := trace w |}.

(* ================================================================== *)
(** ** The monad of asynchronous code                                  *)
(* ================================================================== *)

(** How a piece of code ends: it returns (the promise resolves), it
    throws (the promise rejects), or it ends the process. *)
Inductive completion (A : Type) : Type :=
| Return (a : A)
| Throw (e : error)
| Exit (code : Z).
Arguments Return {A} a.
Arguments Throw {A} e.
Arguments Exit {A} code.

Definition M (A : Type) : Type := world -> completion A * world.

Definition ret {A : Type} (a : A) : M A := fun w => (Return a, w).

Definition bind {A B : Type} (m : M A) (k : A -> M B) : M B :=
  fun w =>
    match m w with
    | (Return a, w') => k a w'
    | (Throw e, w') => (Throw e, w')
    | (Exit c, w') => (Exit c, w')
    end.

Definition throw {A : Type} (e : error) : M A := fun w => (Throw e, w).

(** [process.exit(code)] *)
Definition process_exit {A : Type} (code : Z) : M A := fun w => (Exit code, w).

(** [try { m } catch (error) { h error }] *)
Definition try_catch {A : Type} (m : M A) (h : error -> M A) : M A :=
  fun w =>
    match m w with
    | (Throw e, w') => h e w'
    | r => r
    end.

Declare Scope js_scope.
Delimit Scope js_scope with js.
Notation "x <- m ;; k" := (bind m (fun x => k))
  (at level 61, m at next level, right associativity) : js_scope.
Notation "m ;; k" := (bind m (fun _ => k))
  (at level 61, right associativity) : js_scope.
Local Open Scope js_scope.

Definition console_log (m : message) : M unit :=
  fun w => (Return tt, with_trace w (trace w ++ [Console m])).

(** [this.config], as the receiver of a property access. *)
Definition get_config : M config :=
  fun w =>
    match this_config w with
    | Some c => (Return c, w)
    | None => (Throw (TypeError "this.config"), w)
    end.

(** [this.config.trakt_tokens], as the receiver of a property access. *)
Definition get_trakt_tokens : M json :=
  c <- get_config ;;
  match trakt_tokens c with
  | Some JNull => throw (TypeError "this.config.trakt_tokens")
  | Some t => ret t
  | None => throw (TypeError "this.config.trakt_tokens")
  end.

(** [fetch] towards the source service. *)
Definition fetch_simkl (url : string) (o : options) : M (response watched_items) :=
  fun w =>
    let r := {| req_url := url; req_options := o |} in
    match simkl w (trace w) r with
    | Resolved resp => (Return resp, with_trace w (trace w ++ [Fetch r]))
    | Rejected => (Throw NetworkError, with_trace w (trace w ++ [Fetch r]))
    end.

(** [fetch] towards the destination service. *)
Definition fetch_trakt (url : string) (o : options) : M (response json) :=
  fun w =>
    let r := {| req_url := url; req_options := o |} in
    match trakt w (trace w) r with
    | Resolved resp => (Return resp, with_trace w (trace w ++ [Fetch r]))
    | Rejected => (Throw NetworkError, with_trace w (trace w ++ [Fetch r]))
    end.

(** [response.json()] *)
Definition json_of {A : Type} (r : response A) : M A :=
  match resp_json r with
  | Some d => ret d
  | None => throw SyntaxError
  end.

(** [response.text()] *)
Definition text_of (r : response json) : M string :=
  fun w =>
    match read_text w (trace w) r with
    | Some text => (Return text, w)
    | None => (Throw BodyError, w)
    end.

(** [writeFile(CONFIG_FILE, JSON.stringify(this.config, null, 2))] *)
Definition write_config_file : M unit :=
  fun w =>
    if config_writable w then (Return tt, with_config_file w (Content (this_config w)))
    else (Throw FileError, w).

Definition simkl_all_items : string :=
  "https://api.simkl.com/sync/all-items/?extended=full&episode_watched_at=yes".
Definition trakt_oauth_token : string := "https://api.trakt.tv/oauth/token".
Definition trakt_users_settings : string := "https://api.trakt.tv/users/settings".
Definition trakt_sync_history : string := "https://api.trakt.tv/sync/history".

(** The Simkl request headers, common to the three entry points. *)
Definition simkl_options (c : config) : options :=
  {| opt_method := None;
     opt_headers := Some [("Content-Type", Lit "application/json");
                          ("Authorization", Bearer (option_map JStr (simkl_access_token c)));
                          ("simkl-api-key", Val (simkl_client_id c))];
     opt_body := None |}.

(** The [headers] object of [defaultOptions] in [traktRequest]. *)
Definition default_headers (c : config) (tokens : json) : headers :=
  [("Content-Type", Lit "application/json");
   ("Authorization", Bearer (prop "access_token" tokens));
   ("trakt-api-version", Lit "2");
   ("trakt-api-key", Val (trakt_client_id c))].

Definition with_headers (h : headers) : options :=
  {| opt_method := None; opt_headers := Some h; opt_body := None |}.

(** The options of the token exchange in [refreshTraktToken]. *)
Definition refresh_options (c : config) (tokens : json) : options :=
  {| opt_method := Some "POST";
     opt_headers := Some [("Content-Type", Lit "application/json")];
     opt_body := Some (RefreshBody (prop "refresh_token" tokens)
                                   (trakt_client_id c) (trakt_client_secret c)
                                   "urn:ietf:wg:oauth:2.0:oob" "refresh_token") |}.

(** The options of the history submission. *)
Definition history_options (t : traktObject) : options :=
  {| opt_method := Some "POST"; opt_headers := None; opt_body := Some (HistoryBody t) |}.

(** [logs.slice(-n)] *)
Definition slice_last {A : Type} (n : nat) (l : list A) : list A :=
  skipn (List.length l - n) l.

(** [v.k] where [v] may be [null]. *)
Definition member (k : string) (v : json) : M (option json) :=
  match v with
  | JNull => throw (TypeError k)
  | _ => ret (prop k v)
  end.

(** [readFile(CONFIG_FILE, 'utf8')] followed by [JSON.parse]. *)
Definition read_config_file : M (option config) :=
  fun w =>
    match config_file w with
    | Content c => (Return c, w)
    | Missing => (Throw FileError, w)
    | Corrupt => (Throw SyntaxError, w)
    end.

(** [readFile(logFile, 'utf8')] followed by [JSON.parse]. *)
Definition read_log_file : M json :=
  fun w =>
    match log_file w with
    | Content j => (Return j, w)
    | Missing => (Throw FileError, w)
    | Corrupt => (Throw SyntaxError, w)
    end.

(** [writeFile(logFile, JSON.stringify(logs, null, 2))] *)
Definition write_log_file (logs : json) : M unit :=
  fun w =>
    if log_writable w then (Return tt, with_log_file w (Content logs))
    else (Throw FileError, w).

Definition set_this_config (c : option config) : M unit :=
  fun w => (Return tt, with_config w c).

(** [new Date().toISOString()] *)
Definition now : M string := fun w => (Return (clock w (trace w)), w).

Definition string_of_Z (z : Z) : string := NilZero.string_of_int (Z.to_int z).

(** [error.message]; for the errors the runtime raises, a text that
    stands for the runtime's. *)
Definition message_of (e : error) : string :=
  match e with
  | HttpError st text => "HTTP " ++ string_of_Z st ++ ": " ++ text
  | RefreshFailed => "Failed to refresh Trakt token"
  | ConnectionTestFailed => "Trakt connection test failed"
  | ConnectionFailed => "Trakt connection failed"
  | SyncFailed st => "Sync failed: " ++ string_of_Z st
  | TypeError what => "Cannot read properties of " ++ what
  | SyntaxError => "Unexpected token in JSON"
  | NetworkError => "fetch failed"
  | FileError => "ENOENT"
  | BodyError => "terminated"
  end.

(** [traktObject.movies.length === 0 && traktObject.shows.length === 0] *)
Definition nothing_to_sync (t : traktObject) : bool :=
  (List.length (movies t) =? 0)%nat && (List.length (shows t) =? 0)%nat.

(** The exit code of the process for a completed top-level promise whose
    rejection handler calls [process.exit(1)]. *)
Definition exit_code (r : completion unit) : Z :=
  match r with
  | Return _ => 0
  | Throw _ => 1
  | Exit c => c
  end.

(* ================================================================== *)
(** ** sync.mjs                                                        *)
(* ================================================================== *)

Module ManualSync.

(** sync.mjs 137-146 *)
Definition process_movie (t : traktObject) (movie : movie_entry) : traktObject :=
  if negb (truthy (movie_last_watched_at movie)) then t
  else push_movies t (movie_item movie).

(** sync.mjs 153-156: [season.episodes?.map(...).filter(ep => ep) || []] *)
Definition map_episodes (show : show_entry) (season : season_entry) : list trakt_episode :=
  match season_episodes season with
  | Some eps => filter object_truthy (map (episode_item show) eps)
  | None => []
  end.

(** sync.mjs 151-157 *)
Definition map_seasons (show : show_entry) : list trakt_season :=
  match show_seasons show with
  | Some ss =>
      filter has_episodes
        (map (fun season => {| se_number := season_number season;
                               se_episodes := map_episodes show season |}) ss)
  | None => []
  end.

(** sync.mjs 149-169 *)
Definition process_show (t : traktObject) (show : show_entry) : traktObject :=
  if negb (truthy (show_last_watched_at show)) then t
  else
    let seasons := map_seasons show in
    if (0 <? List.length seasons)%nat then push_shows t (show_item show seasons) else t.

(** sync.mjs 176-179 *)
Definition map_anime_episodes (anime : show_entry) (season : season_entry) : list trakt_episode :=
  match season_episodes season with
  | Some eps => filter object_truthy (map (episode_item anime) eps)
  | None => []
  end.

(** sync.mjs 174-180 *)
Definition map_anime_seasons (anime : show_entry) : list trakt_season :=
  match show_seasons anime with
  | Some ss =>
      filter has_episodes
        (map (fun season => {| se_number := season_number season;
                               se_episodes := map_anime_episodes anime season |}) ss)
  | None => []
  end.

(** sync.mjs 172-192 *)
Definition process_anime (t : traktObject) (anime : show_entry) : traktObject :=
  if negb (truthy (show_last_watched_at anime)) then t
  else
    let seasons := map_anime_seasons anime in
    if (0 <? List.length seasons)%nat then push_shows t (show_item anime seasons) else t.

(** sync.mjs 131-192: [x?.forEach(...)] does nothing on a missing
    collection. *)
Definition normalize (watched : watched_items) : traktObject :=
  let t0 := {| movies := []; shows := [] |} in
  let t1 := match watched_movies watched with
            | Some l => forEach l process_movie t0
            | None => t0
            end in
  let t2 := match watched_shows watched with
            | Some l => forEach l process_show t1
            | None => t1
            end in
  match watched_anime watched with
  | Some l => forEach l process_anime t2
  | None => t2
  end.

(** sync.mjs 24-33 *)
Definition loadConfig : M bool :=
  try_catch
    (c <- read_config_file ;;
     set_this_config c ;;
     ret true)
    (fun _ => console_log NoConfigurationFound ;; ret false).

(** sync.mjs 35-37 *)
Definition saveConfig : M unit := write_config_file.

(** sync.mjs 39-45 *)
Definition fetchJSON (url : string) (o : options) : M watched_items :=
  response <- fetch_simkl url o ;;
  if negb (ok response) then throw (HttpError (status response) (statusText response))
  else json_of response.

(** sync.mjs 47-62 *)
Definition getSimklWatched : M watched_items :=
  console_log FetchingSimkl ;;
  c <- get_config ;;
  data <- fetchJSON simkl_all_items (simkl_options c) ;;
  console_log SimklFetched ;;
  ret data.

(** sync.mjs 85-108 *)
Definition refreshTraktToken : M unit :=
  console_log RefreshingToken ;;
  tokens <- get_trakt_tokens ;;
  c <- get_config ;;
  response <- fetch_trakt trakt_oauth_token (refresh_options c tokens) ;;
  if ok response then
    body <- json_of response ;;
    set_this_config (Some (set_trakt_tokens c (Some body))) ;;
    saveConfig ;;
    console_log TokenRefreshed
  else throw RefreshFailed.

(** sync.mjs 64-83 *)
Definition traktRequest (url : string) (o : options) : M (response json) :=
  tokens <- get_trakt_tokens ;;
  c <- get_config ;;
  let defaultOptions := with_headers (default_headers c tokens) in
  response <- fetch_trakt url (spread defaultOptions o) ;;
  if (status response =? 401)%Z then
    refreshTraktToken ;;
    tokens' <- get_trakt_tokens ;;
    let defaultOptions' :=
      with_headers (set_header "Authorization" (Bearer (prop "access_token" tokens'))
                               (default_headers c tokens)) in
    fetch_trakt url (spread defaultOptions' o)
  else ret response.

(** sync.mjs 110-118 *)
Definition initializeTrakt : M unit :=
  response <- traktRequest trakt_users_settings no_options ;;
  if ok response then console_log ConnectionSuccessful
  else throw ConnectionTestFailed.

(** sync.mjs 194-206: the submission of the payload. *)
Definition submit (payload : traktObject) : M unit :=
  console_log (Counts (List.length (movies payload)) (List.length (shows payload))) ;;
  response <- traktRequest trakt_sync_history (history_options payload) ;;
  if ok response then
    result <- json_of response ;;
    added <- member "added" result ;;
    console_log (SyncCompleted (or_zero (opt_prop "movies" added))
                               (or_zero (opt_prop "episodes" added)))
  else console_log (SyncFailedStatus (status response) (statusText response)).

(** sync.mjs 127-206: the body of the [try] block. *)
Definition sync_body : M unit :=
  watched <- getSimklWatched ;;
  initializeTrakt ;;
  submit (normalize watched).

(** sync.mjs 120-211 *)
Definition sync : M unit :=
  loaded <- loadConfig ;;
  (if negb loaded then process_exit 1 else ret tt) ;;
  console_log StartingManualSync ;;
  try_catch sync_body
    (fun error => console_log (SyncFailedError error) ;; process_exit 1).

(** sync.mjs 215-219 *)
Definition main : M unit :=
  try_catch sync (fun error => console_log (TopLevelError error) ;; process_exit 1).

End ManualSync.

(* ================================================================== *)
(** ** sync-auto.mjs                                                   *)
(* ================================================================== *)

Module AutomatedTraktSync.

(** sync-auto.mjs 141-150 *)
Definition process_movie (t : traktObject) (movie : movie_entry) : traktObject :=
  if negb (truthy (movie_last_watched_at movie)) then t
  else push_movies t (movie_item movie).

(** sync-auto.mjs 159-162 *)
Definition map_episodes (show : show_entry) (season : season_entry) : list trakt_episode :=
  match season_episodes season with
  | Some eps => filter object_truthy (map (episode_item show) eps)
  | None => []
  end.

(** sync-auto.mjs 157-163 *)
Definition map_seasons (show : show_entry) : list trakt_season :=
  match show_seasons show with
  | Some ss =>
      filter has_episodes
        (map (fun season => {| se_number := season_number season;
                               se_episodes := map_episodes show season |}) ss)
  | None => []
  end.

(** sync-auto.mjs 155-175 *)
Definition process_show (t : traktObject) (show : show_entry) : traktObject :=
  if negb (truthy (show_last_watched_at show)) then t
  else
    let seasons := map_seasons show in
    if (0 <? List.length seasons)%nat then push_shows t (show_item show seasons) else t.

(** sync-auto.mjs 184-189: the episodes of a season are collected by a
    [flatMap] over all the seasons of the anime entry; the inner
    [season] shadows the outer one. *)
Definition all_anime_episodes (anime : show_entry) : list trakt_episode :=
  match show_seasons anime with
  | Some ss =>
      flat_map (fun season =>
                  match season_episodes season with
                  | Some eps => map (episode_item anime) eps
                  | None => []
                  end) ss
  | None => []
  end.

(** sync-auto.mjs 182-190 *)
Definition map_anime_seasons (anime : show_entry) : list trakt_season :=
  match show_seasons anime with
  | Some ss =>
      filter has_episodes
        (map (fun season => {| se_number := season_number season;
                               se_episodes := all_anime_episodes anime |}) ss)
  | None => []
  end.

(** sync-auto.mjs 180-202 *)
Definition process_anime (t : traktObject) (anime : show_entry) : traktObject :=
  if negb (truthy (show_last_watched_at anime)) then t
  else
    let seasons := map_anime_seasons anime in
    if (0 <? List.length seasons)%nat then push_shows t (show_item anime seasons) else t.

(** sync-auto.mjs 134-203: [if (watched.x) { watched.x.forEach(...) }];
    an array, even an empty one, is truthy. *)
Definition normalize (watched : watched_items) : traktObject :=
  let t0 := {| movies := []; shows := [] |} in
  let t1 := match watched_movies watched with
            | Some l => forEach l process_movie t0
            | None => t0
            end in
  let t2 := match watched_shows watched with
            | Some l => forEach l process_show t1
            | None => t1
            end in
  match watched_anime watched with
  | Some l => forEach l process_anime t2
  | None => t2
  end.

(** sync-auto.mjs 24-35 *)
Definition loadConfig : M bool :=
  try_catch
    (c <- read_config_file ;;
     set_this_config c ;;
     console_log ConfigurationLoaded ;;
     ret true)
    (fun _ => console_log NoConfigurationFound ;;
              console_log ConfigurationHint ;;
              ret false).

(** sync-auto.mjs 37-39 *)
Definition saveConfig : M unit := write_config_file.

(** sync-auto.mjs 41-47 *)
Definition fetchJSON (url : string) (o : options) : M watched_items :=
  response <- fetch_simkl url o ;;
  if negb (ok response) then throw (HttpError (status response) (statusText response))
  else json_of response.

(** sync-auto.mjs 49-64 *)
Definition getSimklWatched : M watched_items :=
  console_log FetchingSimkl ;;
  c <- get_config ;;
  data <- fetchJSON simkl_all_items (simkl_options c) ;;
  console_log SimklFetched ;;
  ret data.

(** sync-auto.mjs 88-111 *)
Definition refreshTraktToken : M unit :=
  console_log RefreshingToken ;;
  tokens <- get_trakt_tokens ;;
  c <- get_config ;;
  response <- fetch_trakt trakt_oauth_token (refresh_options c tokens) ;;
  if ok response then
    body <- json_of response ;;
    set_this_config (Some (set_trakt_tokens c (Some body))) ;;
    saveConfig ;;
    console_log TokenRefreshed
  else throw RefreshFailed.

(** sync-auto.mjs 66-86 *)
Definition traktRequest (url : string) (o : options) : M (response json) :=
  tokens <- get_trakt_tokens ;;
  c <- get_config ;;
  let defaultOptions := with_headers (default_headers c tokens) in
  response <- fetch_trakt url (spread defaultOptions o) ;;
  if (status response =? 401)%Z then
    console_log TokenMightBeExpired ;;
    refreshTraktToken ;;
    tokens' <- get_trakt_tokens ;;
    let defaultOptions' :=
      with_headers (set_header "Authorization" (Bearer (prop "access_token" tokens'))
                               (default_headers c tokens)) in
    fetch_trakt url (spread defaultOptions' o)
  else ret response.

(** sync-auto.mjs 113-121 *)
Definition initializeTrakt : M unit :=
  console_log TestingConnection ;;
  response <- traktRequest trakt_users_settings no_options ;;
  if ok response then console_log ConnectionSuccessful
  else throw ConnectionTestFailed.

(** sync-auto.mjs 255-277 *)
Definition logSyncResult (logEntry : json) : M unit :=
  try_catch
    (logs <- try_catch read_log_file (fun _ => ret (JArr [])) ;;
     match logs with
     | JArr l =>
         let pushed := (l ++ [logEntry])%list in
         let kept := if (100 <? List.length pushed)%nat then slice_last 100 pushed
                     else pushed in
         write_log_file (JArr kept)
     | _ => throw (TypeError "logs.push")
     end)
    (fun _ => ret tt).

Definition success_entry (timestamp : string) (movies_added episodes_added : json) : json :=
  JObj [("timestamp", JStr timestamp);
        ("movies_added", movies_added);
        ("episodes_added", episodes_added);
        ("status", JStr "success")].

Definition error_entry (timestamp : string) (text : string) : json :=
  JObj [("timestamp", JStr timestamp);
        ("status", JStr "error");
        ("error", JStr text)].

(** sync-auto.mjs 205-241: the submission of the payload.  The text
    read by [response.text()] at line 231 is not used, but reading it
    can fail. *)
Definition submit (payload : traktObject) : M unit :=
  console_log (Counts (List.length (movies payload)) (List.length (shows payload))) ;;
  if nothing_to_sync payload then console_log NoNewItems
  else
    console_log SyncingToTrakt ;;
    response <- traktRequest trakt_sync_history (history_options payload) ;;
    if ok response then
      result <- json_of response ;;
      added <- member "added" result ;;
      console_log (SyncCompleted (or_zero (opt_prop "movies" added))
                                 (or_zero (opt_prop "episodes" added))) ;;
      timestamp <- now ;;
      logSyncResult (success_entry timestamp (or_zero (opt_prop "movies" added))
                                   (or_zero (opt_prop "episodes" added)))
    else
      errorText <- text_of response ;;
      console_log (SyncFailedStatus (status response) (statusText response)) ;;
      timestamp <- now ;;
      logSyncResult (error_entry timestamp
                       (string_of_Z (status response) ++ ": " ++ statusText response)) ;;
      throw (SyncFailed (status response)).

(** sync-auto.mjs 131-241: the body of the [try] block. *)
Definition autoSync_body : M unit :=
  watched <- getSimklWatched ;;
  initializeTrakt ;;
  submit (normalize watched).

(** sync-auto.mjs 123-253 *)
Definition autoSync : M unit :=
  console_log StartingAutoSync ;;
  loaded <- loadConfig ;;
  (if negb loaded then process_exit 1 else ret tt) ;;
  try_catch autoSync_body
    (fun error =>
       console_log (SyncFailedError error) ;;
       timestamp <- now ;;
       logSyncResult (error_entry timestamp (message_of error)) ;;
       process_exit 1).

(** sync-auto.mjs 282-296; [command] is [process.argv[2]]. *)
Definition main (command : option string) : M unit :=
  try_catch
    (match command with
     | Some c =>
         if c =? "auto-sync" then autoSync
         else console_log Usage ;; console_log UsageAutoSync
     | None => console_log Usage ;; console_log UsageAutoSync
     end)
    (fun error => console_log (TopLevelError error) ;; process_exit 1).

End AutomatedTraktSync.

(* ================================================================== *)
(** ** sync-github.js                                                  *)
(* ================================================================== *)

Module GitHubSync.

(** sync-github.js 110-119 *)
Definition process_movie (t : traktObject) (movie : movie_entry) : traktObject :=
  if negb (truthy (movie_last_watched_at movie)) then t
  else push_movies t (movie_item movie).

(** sync-github.js 128-131 *)
Definition map_episodes (show : show_entry) (season : season_entry) : list trakt_episode :=
  match season_episodes season with
  | Some eps => filter object_truthy (map (episode_item show) eps)
  | None => []
  end.

(** sync-github.js 126-132 *)
Definition map_seasons (show : show_entry) : list trakt_season :=
  match show_seasons show with
  | Some ss =>
      filter has_episodes
        (map (fun season => {| se_number := season_number season;
                               se_episodes := map_episodes show season |}) ss)
  | None => []
  end.

(** sync-github.js 124-144 *)
Definition process_show (t : traktObject) (show : show_entry) : traktObject :=
  if negb (truthy (show_last_watched_at show)) then t
  else
    let seasons := map_seasons show in
    if (0 <? List.length seasons)%nat then push_shows t (show_item show seasons) else t.

(** sync-github.js 103-145: this entry point has no anime loop. *)
Definition normalize (watched : watched_items) : traktObject :=
  let t0 := {| movies := []; shows := [] |} in
  let t1 := match watched_movies watched with
            | Some l => forEach l process_movie t0
            | None => t0
            end in
  match watched_shows watched with
  | Some l => forEach l process_show t1
  | None => t1
  end.

(** sync-github.js 9-17 *)
Definition loadConfig : M config :=
  fun w =>
    let env := process_env w in
    let build tokens :=
      {| simkl_client_id := SIMKL_CLIENT_ID env;
         trakt_client_id := TRAKT_CLIENT_ID env;
         trakt_client_secret := TRAKT_CLIENT_SECRET env;
         simkl_access_token := SIMKL_ACCESS_TOKEN env;
         trakt_tokens := Some tokens |} in
    match TRAKT_TOKENS env with
    | Content j => (Return (build j), w)
    | Missing => (Return (build JNull), w)
    | Corrupt => (Throw SyntaxError, w)
    end.

(** sync-github.js 5-7 *)
Definition constructor : M unit :=
  c <- loadConfig ;;
  set_this_config (Some c).

(** sync-github.js 19-25 *)
Definition fetchJSON (url : string) (o : options) : M watched_items :=
  response <- fetch_simkl url o ;;
  if negb (ok response) then throw (HttpError (status response) (statusText response))
  else json_of response.

(** sync-github.js 27-41 *)
Definition getSimklWatched : M watched_items :=
  console_log FetchingSimkl ;;
  c <- get_config ;;
  data <- fetchJSON simkl_all_items (simkl_options c) ;;
  console_log SimklFetched ;;
  ret data.

(** sync-github.js 64-89: the new tokens stay in memory. *)
Definition refreshTraktToken : M unit :=
  console_log RefreshingToken ;;
  tokens <- get_trakt_tokens ;;
  c <- get_config ;;
  response <- fetch_trakt trakt_oauth_token (refresh_options c tokens) ;;
  if ok response then
    body <- json_of response ;;
    set_this_config (Some (set_trakt_tokens c (Some body))) ;;
    console_log TokenRefreshed ;;
    console_log PleaseUpdateSecret
  else throw RefreshFailed.

(** sync-github.js 43-62 *)
Definition traktRequest (url : string) (o : options) : M (response json) :=
  tokens <- get_trakt_tokens ;;
  c <- get_config ;;
  let defaultOptions := with_headers (default_headers c tokens) in
  response <- fetch_trakt url (spread defaultOptions o) ;;
  if (status response =? 401)%Z then
    refreshTraktToken ;;
    tokens' <- get_trakt_tokens ;;
    let defaultOptions' :=
      with_headers (set_header "Authorization" (Bearer (prop "access_token" tokens'))
                               (default_headers c tokens)) in
    fetch_trakt url (spread defaultOptions' o)
  else ret response.

(** sync-github.js 147-164: the submission of the payload. *)
Definition submit (payload : traktObject) : M unit :=
  console_log (Counts (List.length (movies payload)) (List.length (shows payload))) ;;
  if nothing_to_sync payload then console_log NoNewItems
  else
    response <- traktRequest trakt_sync_history (history_options payload) ;;
    if ok response then
      result <- json_of response ;;
      added <- member "added" result ;;
      console_log (SyncCompleted (or_zero (opt_prop "movies" added))
                                 (or_zero (opt_prop "episodes" added)))
    else throw (SyncFailed (status response)).

(** sync-github.js 95-164: the body of the [try] block. *)
Definition sync_body : M unit :=
  watched <- getSimklWatched ;;
  console_log TestingConnection ;;
  testResponse <- traktRequest trakt_users_settings no_options ;;
  (if negb (ok testResponse) then throw ConnectionFailed else ret tt) ;;
  console_log ConnectionSuccessful ;;
  submit (normalize watched).

(** sync-github.js 91-169 *)
Definition sync : M unit :=
  console_log StartingGitHubSync ;;
  try_catch sync_body
    (fun error => console_log (SyncFailedError error) ;; process_exit 1).

(** sync-github.js 173: [new GitHubSync().sync().catch(console.error)] *)
Definition main : M unit :=
  constructor ;;
  try_catch sync (fun error => console_log (TopLevelError error)).

End GitHubSync.

(* ================================================================== *)
(** ** The three entry points, side by side                            *)
(* ================================================================== *)

Inductive variant : Type := Manual | Automated | GitHub.

Definition normalize_of (v : variant) : watched_items -> traktObject :=
  match v with
  | Manual => ManualSync.normalize
  | Automated => AutomatedTraktSync.normalize
  | GitHub => GitHubSync.normalize
  end.

Definition refreshTraktToken_of (v : variant) : M unit :=
  match v with
  | Manual => ManualSync.refreshTraktToken
  | Automated => AutomatedTraktSync.refreshTraktToken
  | GitHub => GitHubSync.refreshTraktToken
  end.

Definition traktRequest_of (v : variant) : string -> options -> M (response json) :=
  match v with
  | Manual => ManualSync.traktRequest
  | Automated => AutomatedTraktSync.traktRequest
  | GitHub => GitHubSync.traktRequest
  end.

Definition submit_of (v : variant) : traktObject -> M unit :=
  match v with
  | Manual => ManualSync.submit
  | Automated => AutomatedTraktSync.submit
  | GitHub => GitHubSync.submit
  end.

(** The whole process, from its start to its end. *)
Definition main_of (v : variant) : M unit :=
  match v with
  | Manual => ManualSync.main
  | Automated => AutomatedTraktSync.main (Some "auto-sync")
  | GitHub => GitHubSync.main
  end.

(* ================================================================== *)
(** ** Vocabulary of the statements                                    *)
(* ================================================================== *)

(** The entries of a collection that may be missing. *)
Definition items {A : Type} (o : option (list A)) : list A :=
  match o with
  | Some l => l
  | None => []
  end.

(** A movie entry is kept when its timestamp is a non-empty string. *)
Definition kept_movie (m : movie_entry) : bool := truthy (movie_last_watched_at m).

(** The timestamp of an emitted episode, in words: the episode's own
    timestamp when it is a non-empty string, else the parent's. *)
Definition own_or_parent (own parent : jsstring) : jsstring :=
  match own with
  | Some t => if t =? "" then parent else Some t
  | None => parent
  end.

(** The rule with [??] in place of [||]: the episode's own timestamp
    whenever it is present. *)
Definition own_if_present (own parent : jsstring) : jsstring :=
  match own with
  | Some t => Some t
  | None => parent
  end.

(** A source season that has at least one episode. *)
Definition season_has_episodes (s : season_entry) : bool :=
  match season_episodes s with
  | Some (_ :: _) => true
  | _ => false
  end.

(** The season emitted for a source season: its own episodes, mapped. *)
Definition season_item (parent : show_entry) (s : season_entry) : trakt_season :=
  {| se_number := season_number s;
     se_episodes := map (episode_item parent) (items (season_episodes s)) |}.

(** The seasons of an entry that survive: those with episodes. *)
Definition folded_seasons (e : show_entry) : list trakt_season :=
  map (season_item e) (filter season_has_episodes (items (show_seasons e))).

(** What a show or anime entry contributes to [shows], in words: nothing
    without a non-empty timestamp, nothing when no season survives, else
    one item with the surviving seasons. *)
Definition fold_entry (e : show_entry) : list trakt_show :=
  if truthy (show_last_watched_at e) then
    match folded_seasons e with
    | [] => []
    | ss => [show_item e ss]
    end
  else [].

(** What sync-auto.mjs makes of an anime entry: every season with the
    episodes of all the seasons. *)
Definition auto_fold_anime (e : show_entry) : list trakt_show :=
  if truthy (show_last_watched_at e) then
    match AutomatedTraktSync.map_anime_seasons e with
    | [] => []
    | ss => [show_item e ss]
    end
  else [].

(** Reading an empty-string timestamp as a missing one. *)
Definition blank (t : jsstring) : jsstring :=
  match t with
  | Some s => if s =? "" then None else Some s
  | None => None
  end.

Definition blank_movie (m : movie_entry) : movie_entry :=
  {| movie_last_watched_at := blank (movie_last_watched_at m);
     movie_movie := movie_movie m |}.

Definition blank_episode (e : episode_entry) : episode_entry :=
  {| episode_number := episode_number e;
     episode_last_watched_at := blank (episode_last_watched_at e) |}.

Definition blank_season (s : season_entry) : season_entry :=
  {| season_number := season_number s;
     season_episodes := option_map (map blank_episode) (season_episodes s) |}.

Definition blank_show (e : show_entry) : show_entry :=
  {| show_last_watched_at := blank (show_last_watched_at e);
     show_show := show_show e;
     show_seasons := option_map (map blank_season) (show_seasons e) |}.

Definition blank_watched (w : watched_items) : watched_items :=
  {| watched_movies := option_map (map blank_movie) (watched_movies w);
     watched_shows := option_map (map blank_show) (watched_shows w);
     watched_anime := option_map (map blank_show) (watched_anime w) |}.

(** The requests of a trace, in order. *)
Fixpoint requests (t : list event) : list request :=
  match t with
  | [] => []
  | Fetch r :: t' => r :: requests t'
  | Console _ :: t' => requests t'
  end.

(** The number of times [refreshTraktToken] was entered: each entry
    writes its first console line. *)
Fixpoint refreshes (t : list event) : nat :=
  match t with
  | [] => 0
  | Console RefreshingToken :: t' => S (refreshes t')
  | _ :: t' => refreshes t'
  end.

(** The requests sent to the history endpoint. *)
Definition history_calls (t : list event) : list request :=
  filter (fun r => req_url r =? trakt_sync_history) (requests t).

(** The console lines of a trace, in order. *)
Fixpoint console (t : list event) : list message :=
  match t with
  | [] => []
  | Console m :: t' => m :: console t'
  | Fetch _ :: t' => console t'
  end.

(** What the anime collection contributes to [shows] at each entry
    point. *)
Definition anime_part (v : variant) (l : list show_entry) : list trakt_show :=
  match v with
  | Manual => flat_map fold_entry l
  | Automated => flat_map auto_fold_anime l
  | GitHub => []
  end.


(** The entries a stored log document stands for: none when the file is
    missing or is not JSON, its elements when it is an array; a document
    of another shape has no entries to append to. *)
Definition log_entries (f : file json) : option (list json) :=
  match f with
  | Missing => Some []
  | Corrupt => Some []
  | Content (JArr l) => Some l
  | Content _ => None
  end.

(** The world with another log file. *)
Definition with_log (w : world) (f : file json) (writable : bool) : world :=
  {| this_config := this_config w; config_file := config_file w;
     config_writable := config_writable w; log_file := f;
     log_writable := writable; process_env := process_env w;
     simkl := simkl w; trakt := trakt w; read_text := read_text w;
     clock := clock w; trace := trace w |}.

(** A computation that neither depends on the log file nor changes
    anything but the log file. *)
Definition log_blind {A : Type} (m : M A) : Prop :=
  forall w f b,
    fst (m (with_log w f b)) = fst (m w) /\
    exists f', snd (m (with_log w f b)) = with_log (snd (m w)) f' b.

(** The request [traktRequest] sends first. *)
Definition first_request (c : config) (tokens : json) (url : string) (o : options) : request :=
  {| req_url := url;
     req_options := spread (with_headers (default_headers c tokens)) o |}.

(** The request [traktRequest] sends again after a refresh: the same
    address and options, the [Authorization] header of the defaults set
    to the new access token. *)
Definition retry_request (c : config) (tokens tokens' : json) (url : string) (o : options)
  : request :=
  {| req_url := url;
     req_options :=
       spread (with_headers (set_header "Authorization"
                                        (Bearer (prop "access_token" tokens'))
                                        (default_headers c tokens))) o |}.

(** The token exchange of [refreshTraktToken]. *)
Definition refresh_request (c : config) (tokens : json) : request :=
  {| req_url := trakt_oauth_token; req_options := refresh_options c tokens |}.

(** The console lines around a refresh, which differ by entry point. *)
Definition before_refresh (v : variant) : list event :=
  match v with
  | Automated => [Console TokenMightBeExpired]
  | _ => []
  end.

Definition after_refresh (v : variant) : list event :=
  match v with
  | GitHub => [Console TokenRefreshed; Console PleaseUpdateSecret]
  | _ => [Console TokenRefreshed]
  end.

(** Which entry points write the credentials back after a refresh. *)
Definition persists (v : variant) : bool :=
  match v with
  | GitHub => false
  | _ => true
  end.


(** A computation that enters [refreshTraktToken] at most [n] times,
    whatever the services answer. *)
Definition refreshes_at_most {A : Type} (n : nat) (m : M A) : Prop :=
  forall w, (refreshes (trace (snd (m w))) <= refreshes (trace w) + n)%nat.

(** The credentials a run starts with are [c]: read from the
    configuration file by sync.mjs and sync-auto.mjs, from the process
    environment by sync-github.js. *)
Definition configured (v : variant) (w : world) (c : config) : Prop :=
  match v with
  | GitHub => GitHubSync.loadConfig w = (Return c, w)
  | _ => config_file w = Content (Some c)
  end.

(** The request [getSimklWatched] sends. *)
Definition simkl_request (c : config) : request :=
  {| req_url := simkl_all_items; req_options := simkl_options c |}.

(** The console lines of the submission that precede the request to the
    history endpoint. *)
Definition before_submit (v : variant) (payload : traktObject) : list event :=
  match v with
  | Automated =>
      [Console (Counts (List.length (movies payload)) (List.length (shows payload)));
       Console SyncingToTrakt]
  | _ => [Console (Counts (List.length (movies payload)) (List.length (shows payload)))]
  end.

(** The request of the submission. *)
Definition history_request (c : config) (tokens : json) (payload : traktObject) : request :=
  first_request c tokens trakt_sync_history (history_options payload).

(** The [catch] clause around the body of a run. *)
Definition handler_of (v : variant) (error : error) : M unit :=
  match v with
  | Automated =>
      console_log (SyncFailedError error) ;;
      timestamp <- now ;;
      AutomatedTraktSync.logSyncResult
        (AutomatedTraktSync.error_entry timestamp (message_of error)) ;;
      process_exit 1
  | _ => console_log (SyncFailedError error) ;; process_exit 1
  end.

(** The trace of a run from its start to the submission, when the
    credentials load, the source answers and the connectivity probe
    succeeds. *)
Definition events_before_submit (v : variant) (c : config) (tokens : json) : list event :=
  match v with
  | Manual =>
      [Console StartingManualSync; Console FetchingSimkl; Fetch (simkl_request c);
       Console SimklFetched;
       Fetch (first_request c tokens trakt_users_settings no_options);
       Console ConnectionSuccessful]
  | Automated =>
      [Console StartingAutoSync; Console ConfigurationLoaded; Console FetchingSimkl;
       Fetch (simkl_request c); Console SimklFetched; Console TestingConnection;
       Fetch (first_request c tokens trakt_users_settings no_options);
       Console ConnectionSuccessful]
  | GitHub =>
      [Console StartingGitHubSync; Console FetchingSimkl; Fetch (simkl_request c);
       Console SimklFetched; Console TestingConnection;
       Fetch (first_request c tokens trakt_users_settings no_options);
       Console ConnectionSuccessful]
  end.

(** The trace of a run from its start to the connectivity probe, when
    the credentials load and the source answers. *)
Definition events_before_probe (v : variant) (c : config) : list event :=
  match v with
  | Manual =>
      [Console StartingManualSync; Console FetchingSimkl; Fetch (simkl_request c);
       Console SimklFetched]
  | Automated =>
      [Console StartingAutoSync; Console ConfigurationLoaded; Console FetchingSimkl;
       Fetch (simkl_request c); Console SimklFetched; Console TestingConnection]
  | GitHub =>
      [Console StartingGitHubSync; Console FetchingSimkl; Fetch (simkl_request c);
       Console SimklFetched; Console TestingConnection]
  end.

(** The error thrown when the answer to the connectivity probe is
    outside 2xx. *)
Definition probe_error (v : variant) : error :=
  match v with
  | GitHub => ConnectionFailed
  | _ => ConnectionTestFailed
  end.

(** The credentials sync-github.js builds from the environment when
    [TRAKT_TOKENS] is not set. *)
Definition config_of_environment (env : environment) (tokens : json) : config :=
  {| simkl_client_id := SIMKL_CLIENT_ID env;
     trakt_client_id := TRAKT_CLIENT_ID env;
     trakt_client_secret := TRAKT_CLIENT_SECRET env;
     simkl_access_token := SIMKL_ACCESS_TOKEN env;
     trakt_tokens := Some tokens |}.

(** [logSyncResult] called once for each entry of a list, in order. *)
Fixpoint record_all (entries : list json) : M unit :=
  match entries with
  | [] => ret tt
  | e :: rest => AutomatedTraktSync.logSyncResult e ;; record_all rest
  end.

(** A computation that ends the process with no other code than 1. *)
Definition exits_with_1 {A : Type} (m : M A) : Prop :=
  forall w code, fst (m w) = Exit code -> code = 1%Z.

(** A computation that lets no exception out. *)
Definition never_throws {A : Type} (m : M A) : Prop :=
  forall w e, fst (m w) <> Throw e.

(** A request that is a token exchange answered outside 2xx. *)
Definition refused_exchange (r : request) (answer : fetched json) : bool :=
  (req_url r =? trakt_oauth_token)%string &&
  match answer with
  | Resolved response => negb (ok response)
  | Rejected => false
  end.

(** The token exchanges answered outside 2xx among [events], which
    follow the events [before], at a destination that answers as
    [answers]. *)
Fixpoint refused_refreshes (answers : list event -> request -> fetched json)
    (before events : list event) : nat :=
  match events with
  | [] => 0
  | e :: rest =>
      (match e with
       | Fetch r => if refused_exchange r (answers before r) then 1 else 0
       | Console _ => 0
       end + refused_refreshes answers (before ++ [e])%list rest)%nat
  end.

(** A computation that does not return normally once a token exchange
    was refused in it; it only adds to the trace and leaves the
    destination as it is. *)
Definition refusal_is_fatal {A : Type} (m : M A) : Prop :=
  forall w, exists added,
    trace (snd (m w)) = (trace w ++ added)%list /\
    trakt (snd (m w)) = trakt w /\
    (forall a, fst (m w) = Return a ->
       refused_refreshes (trakt w) (trace w) added = 0%nat).

(* ================================================================== *)
(** ** Concrete inputs                                                 *)
(* ================================================================== *)

Local Open Scope list_scope.

Definition tt1 : media := {| media_ids := {| imdb := Some "tt1"; tmdb := Some 1%Z |} |}.

(** The movie of the example: watched on 2024-01-01. *)
Definition movie_2024 : movie_entry :=
  {| movie_last_watched_at := Some "2024-01-01T00:00:00Z"; movie_movie := tt1 |}.

(** A movie whose timestamp is the empty string. *)
Definition movie_blank : movie_entry :=
  {| movie_last_watched_at := Some ""; movie_movie := tt1 |}.

Definition only_movies (l : list movie_entry) : watched_items :=
  {| watched_movies := Some l; watched_shows := None; watched_anime := None |}.

Definition only_shows (l : list show_entry) : watched_items :=
  {| watched_movies := None; watched_shows := Some l; watched_anime := None |}.

Definition only_anime (l : list show_entry) : watched_items :=
  {| watched_movies := None; watched_shows := None; watched_anime := Some l |}.

Definition nothing_watched : watched_items :=
  {| watched_movies := None; watched_shows := None; watched_anime := None |}.

Definition episode_1 : episode_entry :=
  {| episode_number := Some 1%Z; episode_last_watched_at := None |}.

Definition episode_2 : episode_entry :=
  {| episode_number := Some 2%Z; episode_last_watched_at := Some "2024-03-03T00:00:00Z" |}.

(** An episode whose timestamp is the empty string. *)
Definition episode_blank : episode_entry :=
  {| episode_number := Some 3%Z; episode_last_watched_at := Some "" |}.

(** One entry, watched on 2024-02-02, with two seasons of one episode
    each. *)
Definition two_seasons : show_entry :=
  {| show_last_watched_at := Some "2024-02-02T00:00:00Z";
     show_show := tt1;
     show_seasons :=
       Some [ {| season_number := Some 1%Z; season_episodes := Some [episode_1] |};
              {| season_number := Some 2%Z; season_episodes := Some [episode_2] |} ] |}.

(** One entry, watched on 2024-02-02, whose only episode has the empty
    string as timestamp. *)
Definition blank_episode_show : show_entry :=
  {| show_last_watched_at := Some "2024-02-02T00:00:00Z";
     show_show := tt1;
     show_seasons :=
       Some [ {| season_number := Some 1%Z; season_episodes := Some [episode_blank] |} ] |}.

(** An entry with a timestamp whose seasons hold no episode. *)
Definition no_episodes_show : show_entry :=
  {| show_last_watched_at := Some "2024-02-02T00:00:00Z";
     show_show := tt1;
     show_seasons :=
       Some [ {| season_number := Some 1%Z; season_episodes := Some [] |};
              {| season_number := Some 2%Z; season_episodes := None |} ] |}.

Definition sample_config : config :=
  {| simkl_client_id := Some "simkl-id";
     trakt_client_id := Some "trakt-id";
     trakt_client_secret := Some "trakt-secret";
     simkl_access_token := Some "simkl-token";
     trakt_tokens := Some (JObj [("access_token", JStr "old-access");
                                 ("refresh_token", JStr "old-refresh")]) |}.

Definition sample_environment : environment :=
  {| SIMKL_CLIENT_ID := Some "simkl-id";
     TRAKT_CLIENT_ID := Some "trakt-id";
     TRAKT_CLIENT_SECRET := Some "trakt-secret";
     SIMKL_ACCESS_TOKEN := Some "simkl-token";
     TRAKT_TOKENS := Content (JObj [("access_token", JStr "old-access");
                                    ("refresh_token", JStr "old-refresh")]) |}.

Definition reply {A : Type} (st : Z) (text : string) (body : option A) : fetched A :=
  Resolved {| status := st; statusText := text; resp_json := body |}.

(** A world built from what the two services answer; the configuration
    is stored and loaded, both files can be written, the log is
    missing. *)
Definition world_of (source : list event -> request -> fetched watched_items)
                    (destination : list event -> request -> fetched json) : world :=
  {| this_config := Some sample_config;
     config_file := Content (Some sample_config);
     config_writable := true;
     log_file := Missing;
     log_writable := true;
     process_env := sample_environment;
     simkl := source;
     trakt := destination;
     read_text := fun _ _ => Some "refused";
     clock := fun _ => "2024-05-05T00:00:00.000Z";
     trace := [] |}.

(** A source with nothing watched and a destination that accepts
    everything. *)
Definition world_nothing_watched : world :=
  world_of (fun _ _ => reply 200 "OK" (Some nothing_watched))
           (fun _ _ => reply 200 "OK" (Some (JObj []))).

(** A destination whose history endpoint answers 500. *)
Definition world_submit_refused : world :=
  world_of (fun _ _ => reply 200 "OK" (Some (only_movies [movie_2024])))
           (fun _ r => if req_url r =? trakt_sync_history
                       then reply 500 "Internal Server Error" None
                       else reply 200 "OK" (Some (JObj []))).

(** A destination that answers 401 to everything but the token
    exchange, which it refuses. *)
Definition world_refresh_refused : world :=
  world_of (fun _ _ => reply 200 "OK" (Some nothing_watched))
           (fun _ r => if req_url r =? trakt_oauth_token
                       then reply 400 "Bad Request" None
                       else reply 401 "Unauthorized" None).

Definition new_tokens : json :=
  JObj [("access_token", JStr "new-access"); ("refresh_token", JStr "new-refresh")].

(** A destination that answers 401 to everything but the token
    exchange, which it grants. *)
Definition world_always_401 : world :=
  world_of (fun _ _ => reply 200 "OK" (Some nothing_watched))
           (fun _ r => if req_url r =? trakt_oauth_token
                       then reply 200 "OK" (Some new_tokens)
                       else reply 401 "Unauthorized" None).

(** A log file that holds a JSON object instead of an array. *)
Definition world_log_object : world :=
  with_log world_nothing_watched (Content (JObj [])) true.

Definition sample_entry : json :=
  AutomatedTraktSync.success_entry "2024-05-05T00:00:00.000Z" (JNum 1) (JNum 0).

(** The same, with a configuration file that cannot be written. *)
Definition world_read_only : world :=
  {| this_config := Some sample_config;
     config_file := Content (Some sample_config);
     config_writable := false;
     log_file := Missing;
     log_writable := true;
     process_env := sample_environment;
     simkl := fun _ _ => reply 200 "OK" (Some nothing_watched);
     trakt := fun _ r => if req_url r =? trakt_oauth_token
                         then reply 200 "OK" (Some new_tokens)
                         else reply 401 "Unauthorized" None;
     read_text := fun _ _ => Some "refused";
     clock := fun _ => "2024-05-05T00:00:00.000Z";
     trace := [] |}.

(** A token endpoint that answers 200 with the body [null]. *)
Definition world_null_tokens : world :=
  world_of (fun _ _ => reply 200 "OK" (Some nothing_watched))
           (fun _ r => if req_url r =? trakt_oauth_token
                       then reply 200 "OK" (Some JNull)
                       else reply 401 "Unauthorized" None).

(** A token endpoint that answers 200 with a body that is not JSON. *)
Definition world_unreadable_tokens : world :=
  world_of (fun _ _ => reply 200 "OK" (Some nothing_watched))
           (fun _ r => if req_url r =? trakt_oauth_token
                       then reply 200 "OK" None
                       else reply 401 "Unauthorized" None).

Definition old_tokens : json :=
  JObj [("access_token", JStr "old-access"); ("refresh_token", JStr "old-refresh")].

(** A destination that answers 403 to everything. *)
Definition world_forbidden : world :=
  world_of (fun _ _ => reply 200 "OK" (Some (only_movies [movie_2024])))
           (fun _ _ => reply 403 "Forbidden" None).

(** A source that answers 500. *)
Definition world_source_down : world :=
  world_of (fun _ _ => reply 500 "Internal Server Error" None)
           (fun _ _ => reply 200 "OK" (Some (JObj []))).

(** Credentials without a token object. *)
Definition config_without_tokens : config :=
  {| simkl_client_id := Some "simkl-id";
     trakt_client_id := Some "trakt-id";
     trakt_client_secret := Some "trakt-secret";
     simkl_access_token := Some "simkl-token";
     trakt_tokens := None |}.

Definition world_without_tokens : world :=
  with_config world_nothing_watched (Some config_without_tokens).

(** No configuration file. *)
Definition world_unconfigured : world :=
  with_config_file (with_config world_nothing_watched None) Missing.

(** An environment in which [TRAKT_TOKENS] is not set. *)
Definition environment_without_tokens : environment :=
  {| SIMKL_CLIENT_ID := Some "simkl-id";
     TRAKT_CLIENT_ID := Some "trakt-id";
     TRAKT_CLIENT_SECRET := Some "trakt-secret";
     SIMKL_ACCESS_TOKEN := Some "simkl-token";
     TRAKT_TOKENS := Missing |}.

Definition world_github_without_tokens : world :=
  {| this_config := None;
     config_file := Missing;
     config_writable := false;
     log_file := Missing;
     log_writable := false;
     process_env := environment_without_tokens;
     simkl := fun _ _ => reply 200 "OK" (Some (only_movies [movie_2024]));
     trakt := fun _ _ => reply 200 "OK" (Some (JObj []));
     read_text := fun _ _ => Some "refused";
     clock := fun _ => "2024-05-05T00:00:00.000Z";
     trace := [] |}.

(** A log of 150 entries. *)
Definition long_log : list json := repeat (JStr "old") 150.

Definition world_long_log : world :=
  with_log world_nothing_watched (Content (JArr long_log)) true.


(** A destination that answers 401 to the probe until a first refresh
    was made and to the submission until a second one was. *)
Definition world_two_refreshes : world :=
  world_of (fun _ _ => reply 200 "OK" (Some (only_movies [movie_2024])))
           (fun t r =>
              if req_url r =? trakt_oauth_token then reply 200 "OK" (Some new_tokens)
              else if req_url r =? trakt_sync_history then
                     if (refreshes t <=? 1)%nat then reply 401 "Unauthorized" None
                     else reply 201 "Created" (Some (JObj []))
              else if (refreshes t =? 0)%nat then reply 401 "Unauthorized" None
                   else reply 200 "OK" (Some (JObj []))).

(** The world of the refused submission, where the body of a response
    of the destination cannot be read. *)
Definition world_body_unreadable : world :=
  {| this_config := this_config world_submit_refused;
     config_file := config_file world_submit_refused;
     config_writable := config_writable world_submit_refused;
     log_file := log_file world_submit_refused;
     log_writable := log_writable world_submit_refused;
     process_env := process_env world_submit_refused;
     simkl := simkl world_submit_refused;
     trakt := trakt world_submit_refused;
     read_text := fun _ _ => None;
     clock := clock world_submit_refused;
     trace := trace world_submit_refused |}.


(* ================================================================== *)
(** ** Lists and loops                                                 *)
(* ================================================================== *)

Lemma filter_object_truthy {A : Type} (l : list A) : filter object_truthy l = l.
Proof.
  induction l as [|x l IH]; simpl; [reflexivity | now rewrite IH].
Qed.

Lemma filter_map_swap {A B : Type} (f : A -> B) (p : B -> bool) (l : list A) :
  filter p (map f l) = map f (filter (fun x => p (f x)) l).
Proof.
  induction l as [|x l IH]; simpl; [reflexivity|].
  destruct (p (f x)); simpl; now rewrite IH.
Qed.

Lemma nonempty_length {A : Type} (l : list A) :
  (0 <? List.length l)%nat = match l with [] => false | _ => true end.
Proof. destruct l; reflexivity. Qed.

Lemma truthy_blank (t : jsstring) : truthy (blank t) = truthy t.
Proof.
  destruct t as [s|]; simpl; [|reflexivity].
  destruct (s =? "") eqn:E; simpl; [reflexivity | now rewrite E].
Qed.

Lemma js_or_own_or_parent (own parent : jsstring) :
  js_or own parent = own_or_parent own parent.
Proof.
  unfold js_or, own_or_parent, truthy.
  destruct own as [s|]; [|reflexivity].
  now destruct (s =? "").
Qed.

(** The movie loop appends, in order, the items of the kept entries. *)
Lemma forEach_process_movie (l : list movie_entry) (t : traktObject) :
  forEach l ManualSync.process_movie t =
  {| movies := movies t ++ map movie_item (filter kept_movie l); shows := shows t |}.
Proof.
  unfold forEach. revert t.
  induction l as [|m l IH]; intros t; simpl.
  - rewrite app_nil_r. now destruct t.
  - rewrite IH. unfold ManualSync.process_movie, kept_movie.
    destruct (truthy (movie_last_watched_at m)); simpl; [|reflexivity].
    now rewrite <- app_assoc.
Qed.

Lemma map_episodes_items (e : show_entry) (s : season_entry) :
  ManualSync.map_episodes e s = map (episode_item e) (items (season_episodes s)).
Proof.
  unfold ManualSync.map_episodes.
  destruct (season_episodes s); simpl; [apply filter_object_truthy | reflexivity].
Qed.

Lemma has_episodes_season_item (e : show_entry) (s : season_entry) :
  has_episodes (season_item e s) = season_has_episodes s.
Proof.
  unfold has_episodes, season_has_episodes, season_item. simpl.
  now destruct (season_episodes s) as [[|ep eps]|].
Qed.

(** The seasons sync.mjs builds for an entry are the mapped seasons that
    have episodes. *)
Lemma map_seasons_folded (e : show_entry) : ManualSync.map_seasons e = folded_seasons e.
Proof.
  unfold ManualSync.map_seasons, folded_seasons.
  destruct (show_seasons e) as [ss|]; simpl; [|reflexivity].
  rewrite (map_ext _ (season_item e)).
  - rewrite filter_map_swap. f_equal.
    apply filter_ext. intros s. apply has_episodes_season_item.
  - intros s. unfold season_item. now rewrite map_episodes_items.
Qed.

Lemma process_show_fold (t : traktObject) (e : show_entry) :
  ManualSync.process_show t e =
  {| movies := movies t; shows := shows t ++ fold_entry e |}.
Proof.
  unfold ManualSync.process_show, fold_entry.
  rewrite map_seasons_folded, nonempty_length.
  destruct (truthy (show_last_watched_at e)); simpl.
  - destruct (folded_seasons e); simpl; [rewrite app_nil_r; now destruct t | reflexivity].
  - rewrite app_nil_r. now destruct t.
Qed.

(** The anime loop of sync.mjs is its show loop. *)
Lemma manual_process_anime_is_process_show :
  ManualSync.process_anime = ManualSync.process_show.
Proof. reflexivity. Qed.

Lemma forEach_process_show (l : list show_entry) (t : traktObject) :
  forEach l ManualSync.process_show t =
  {| movies := movies t; shows := shows t ++ flat_map fold_entry l |}.
Proof.
  unfold forEach. revert t.
  induction l as [|e l IH]; intros t; simpl.
  - rewrite app_nil_r. now destruct t.
  - rewrite IH, process_show_fold. simpl. now rewrite <- app_assoc.
Qed.

Lemma auto_process_anime_fold (t : traktObject) (e : show_entry) :
  AutomatedTraktSync.process_anime t e =
  {| movies := movies t; shows := shows t ++ auto_fold_anime e |}.
Proof.
  unfold AutomatedTraktSync.process_anime, auto_fold_anime.
  rewrite nonempty_length.
  destruct (truthy (show_last_watched_at e)); simpl.
  - destruct (AutomatedTraktSync.map_anime_seasons e); simpl;
      [rewrite app_nil_r; now destruct t | reflexivity].
  - rewrite app_nil_r. now destruct t.
Qed.

Lemma forEach_auto_process_anime (l : list show_entry) (t : traktObject) :
  forEach l AutomatedTraktSync.process_anime t =
  {| movies := movies t; shows := shows t ++ flat_map auto_fold_anime l |}.
Proof.
  unfold forEach. revert t.
  induction l as [|e l IH]; intros t; simpl.
  - rewrite app_nil_r. now destruct t.
  - rewrite IH, auto_process_anime_fold. simpl. now rewrite <- app_assoc.
Qed.

(** The payload of sync.mjs, in closed form. *)
Lemma manual_normalize_closed (w : watched_items) :
  ManualSync.normalize w =
  {| movies := map movie_item (filter kept_movie (items (watched_movies w)));
     shows := flat_map fold_entry (items (watched_shows w)) ++
              flat_map fold_entry (items (watched_anime w)) |}.
Proof.
  unfold ManualSync.normalize.
  rewrite manual_process_anime_is_process_show.
  destruct w as [[ms|] [ss|] [an|]]; simpl;
    rewrite ?forEach_process_show, ?forEach_process_movie; simpl;
    rewrite ?forEach_process_show, ?forEach_process_movie; simpl;
    rewrite ?app_nil_r; reflexivity.
Qed.

(** The payload of sync-auto.mjs, in closed form. *)
Lemma auto_normalize_closed (w : watched_items) :
  AutomatedTraktSync.normalize w =
  {| movies := map movie_item (filter kept_movie (items (watched_movies w)));
     shows := flat_map fold_entry (items (watched_shows w)) ++
              flat_map auto_fold_anime (items (watched_anime w)) |}.
Proof.
  unfold AutomatedTraktSync.normalize.
  change AutomatedTraktSync.process_movie with ManualSync.process_movie.
  change AutomatedTraktSync.process_show with ManualSync.process_show.
  destruct w as [[ms|] [ss|] [an|]]; simpl;
    rewrite ?forEach_auto_process_anime, ?forEach_process_show, ?forEach_process_movie; simpl;
    rewrite ?forEach_process_show, ?forEach_process_movie; simpl;
    rewrite ?forEach_process_movie; simpl;
    rewrite ?app_nil_r; reflexivity.
Qed.

(** The payload of sync-github.js, in closed form: anime is not read. *)
Lemma github_normalize_closed (w : watched_items) :
  GitHubSync.normalize w =
  {| movies := map movie_item (filter kept_movie (items (watched_movies w)));
     shows := flat_map fold_entry (items (watched_shows w)) |}.
Proof.
  unfold GitHubSync.normalize.
  change GitHubSync.process_movie with ManualSync.process_movie.
  change GitHubSync.process_show with ManualSync.process_show.
  destruct w as [[ms|] [ss|] an]; simpl;
    rewrite ?forEach_process_show, ?forEach_process_movie; simpl;
    rewrite ?forEach_process_movie; simpl;
    rewrite ?app_nil_r; reflexivity.
Qed.

(* ================================================================== *)
(** ** The schema normaliser                                           *)
(* ================================================================== *)

Lemma items_option_map {A B : Type} (f : A -> B) (o : option (list A)) :
  items (option_map (map f) o) = map f (items o).
Proof. now destruct o. Qed.

(** The three entry points build the same [movies]. *)
Lemma movies_normalize_of (v : variant) (w : watched_items) :
  movies (normalize_of v w) = map movie_item (filter kept_movie (items (watched_movies w))).
Proof.
  destruct v; simpl;
    [rewrite manual_normalize_closed | rewrite auto_normalize_closed
     | rewrite github_normalize_closed]; reflexivity.
Qed.

Lemma shows_normalize_of (v : variant) (w : watched_items) :
  shows (normalize_of v w) =
  flat_map fold_entry (items (watched_shows w)) ++ anime_part v (items (watched_anime w)).
Proof.
  destruct v; simpl;
    [rewrite manual_normalize_closed | rewrite auto_normalize_closed
     | rewrite github_normalize_closed]; simpl; rewrite ?app_nil_r; reflexivity.
Qed.

Lemma kept_movie_non_empty (m : movie_entry) :
  kept_movie m = true <-> exists s, movie_last_watched_at m = Some s /\ s <> "".
Proof.
  unfold kept_movie, truthy. destruct (movie_last_watched_at m) as [s|].
  - destruct (String.eqb_spec s ""); simpl; split.
    + discriminate.
    + intros (s' & E & N). injection E as <-. contradiction.
    + intros _. now exists s.
    + reflexivity.
  - split; [discriminate | intros (s & E & _); discriminate].
Qed.

(** C8, as worded, fails: a movie whose timestamp is present but empty
    is left out of the payload, at each entry point. *)
Lemma movie_with_empty_timestamp_is_left_out :
  movie_last_watched_at movie_blank <> None /\
  movies (ManualSync.normalize (only_movies [movie_blank])) = [] /\
  movies (AutomatedTraktSync.normalize (only_movies [movie_blank])) = [] /\
  movies (GitHubSync.normalize (only_movies [movie_blank])) = [].
Proof. repeat split; discriminate. Qed.

(** C8, amended: a movie entry is left out when its [last_watched_at] is
    missing or the empty string, and is otherwise emitted exactly as
    [{watched_at: last_watched_at, ids: {imdb, tmdb}}], in source order;
    so every emitted movie comes from an input entry with a non-empty
    timestamp and there are at most as many movies out as in. *)
Theorem movies_are_the_timestamped_entries (v : variant) (w : watched_items) :
  let input := items (watched_movies w) in
  let output := movies (normalize_of v w) in
  output = map movie_item (filter kept_movie input) /\
  (forall m, In m input ->
     movie_last_watched_at m = None \/ movie_last_watched_at m = Some "" ->
     ~ In m (filter kept_movie input)) /\
  (forall m s, In m input -> movie_last_watched_at m = Some s -> s <> "" ->
     In {| mv_watched_at := Some s;
           mv_ids := {| imdb := imdb (media_ids (movie_movie m));
                        tmdb := tmdb (media_ids (movie_movie m)) |} |} output) /\
  (forall o, In o output ->
     exists m s, In m input /\ movie_last_watched_at m = Some s /\ s <> "" /\
       o = {| mv_watched_at := Some s;
              mv_ids := {| imdb := imdb (media_ids (movie_movie m));
                           tmdb := tmdb (media_ids (movie_movie m)) |} |}) /\
  (List.length output <= List.length input)%nat.
Proof.
  cbv zeta. rewrite movies_normalize_of. repeat split.
  - intros m _ H Hin. apply filter_In in Hin as [_ K].
    apply kept_movie_non_empty in K as (s & E & N).
    destruct H as [H|H]; rewrite H in E; [discriminate | injection E as <-; contradiction].
  - intros m s Hin E N. apply in_map_iff. exists m. split.
    + unfold movie_item. now rewrite E.
    + apply filter_In. split; [assumption|]. apply kept_movie_non_empty. now exists s.
  - intros o Ho. apply in_map_iff in Ho as (m & <- & Hm).
    apply filter_In in Hm as [Hin K]. apply kept_movie_non_empty in K as (s & E & N).
    exists m, s. repeat split; try assumption. unfold movie_item. now rewrite E.
  - rewrite length_map. apply filter_length_le.
Qed.

(** The theorem at the example of the specification: one movie watched
    on 2024-01-01 gives one payload movie and no show. *)
Lemma movies_are_the_timestamped_entries_example :
  ManualSync.normalize (only_movies [movie_2024]) =
    {| movies := [ {| mv_watched_at := Some "2024-01-01T00:00:00Z";
                      mv_ids := {| imdb := Some "tt1"; tmdb := Some 1%Z |} |} ];
       shows := [] |} /\
  In {| mv_watched_at := Some "2024-01-01T00:00:00Z";
        mv_ids := {| imdb := Some "tt1"; tmdb := Some 1%Z |} |}
     (movies (normalize_of Manual (only_movies [movie_2024]))).
Proof.
  split; [reflexivity|].
  apply (proj1 (proj2 (proj2 (movies_are_the_timestamped_entries Manual (only_movies [movie_2024]))))
           movie_2024 "2024-01-01T00:00:00Z").
  - simpl. now left.
  - reflexivity.
  - discriminate.
Defined.

(** *** Seasons and episodes *)

Lemma in_fold_entry (e : show_entry) (o : trakt_show) :
  In o (fold_entry e) ->
  truthy (show_last_watched_at e) = true /\ o = show_item e (folded_seasons e).
Proof.
  unfold fold_entry. destruct (truthy (show_last_watched_at e)); [|intros []].
  destruct (folded_seasons e); [intros [] | intros [<- | []]; now split].
Qed.

Lemma in_folded_seasons (e : show_entry) (so : trakt_season) :
  In so (folded_seasons e) <->
  exists s, In s (items (show_seasons e)) /\ season_has_episodes s = true /\ so = season_item e s.
Proof.
  unfold folded_seasons. rewrite in_map_iff. split.
  - intros (s & <- & H). apply filter_In in H as [H1 H2]. now exists s.
  - intros (s & H1 & H2 & ->). exists s. split; [reflexivity|]. now apply filter_In.
Qed.

Lemma fold_entry_of_folded (e : show_entry) (so : trakt_season) :
  truthy (show_last_watched_at e) = true -> In so (folded_seasons e) ->
  fold_entry e = [show_item e (folded_seasons e)].
Proof.
  intros T H. unfold fold_entry. rewrite T. now destruct (folded_seasons e).
Qed.

Lemma in_all_anime_episodes (e : show_entry) (eo : trakt_episode) :
  In eo (AutomatedTraktSync.all_anime_episodes e) <->
  exists s eps ep, In s (items (show_seasons e)) /\ season_episodes s = Some eps /\
                   In ep eps /\ eo = episode_item e ep.
Proof.
  unfold AutomatedTraktSync.all_anime_episodes.
  destruct (show_seasons e) as [ss|]; simpl.
  - rewrite in_flat_map. split.
    + intros (s & Hs & H). destruct (season_episodes s) as [eps|] eqn:E; [|destruct H].
      apply in_map_iff in H as (ep & <- & Hep). now exists s, eps, ep.
    + intros (s & eps & ep & Hs & E & Hep & ->). exists s. split; [assumption|].
      rewrite E. now apply in_map.
  - split; [intros [] | intros (s & _ & _ & [] & _)].
Qed.

Lemma in_auto_anime_seasons (e : show_entry) (so : trakt_season) :
  In so (AutomatedTraktSync.map_anime_seasons e) <->
  exists s, In s (items (show_seasons e)) /\ AutomatedTraktSync.all_anime_episodes e <> [] /\
            so = {| se_number := season_number s;
                    se_episodes := AutomatedTraktSync.all_anime_episodes e |}.
Proof.
  unfold AutomatedTraktSync.map_anime_seasons.
  destruct (show_seasons e) as [ss|] eqn:E; simpl.
  - rewrite filter_In, in_map_iff. unfold has_episodes. split.
    + intros [(s & <- & Hs) H]. simpl in H. exists s. repeat split; [assumption|].
      intros K. rewrite K in H. discriminate.
    + intros (s & Hs & N & ->). split; [now exists s|]. simpl.
      destruct (AutomatedTraktSync.all_anime_episodes e); [contradiction | reflexivity].
  - split; [intros [] | intros (s & [] & _)].
Qed.

Lemma in_auto_fold_anime (e : show_entry) (o : trakt_show) :
  In o (auto_fold_anime e) ->
  truthy (show_last_watched_at e) = true /\
  o = show_item e (AutomatedTraktSync.map_anime_seasons e).
Proof.
  unfold auto_fold_anime. destruct (truthy (show_last_watched_at e)); [|intros []].
  destruct (AutomatedTraktSync.map_anime_seasons e); [intros [] | intros [<- | []]; now split].
Qed.

Lemma in_anime_part (v : variant) (l : list show_entry) (o : trakt_show) :
  In o (anime_part v l) ->
  exists e, In e l /\ truthy (show_last_watched_at e) = true /\
    ((v = Manual /\ o = show_item e (folded_seasons e)) \/
     (v = Automated /\ o = show_item e (AutomatedTraktSync.map_anime_seasons e))).
Proof.
  destruct v; simpl.
  - intros H. apply in_flat_map in H as (e & He & H). apply in_fold_entry in H as [T ->].
    exists e. repeat split; try assumption. left. now split.
  - intros H. apply in_flat_map in H as (e & He & H). apply in_auto_fold_anime in H as [T ->].
    exists e. repeat split; try assumption. right. now split.
  - intros [].
Qed.

(** C5, as worded, fails: an episode whose own timestamp is present but
    empty is emitted with the timestamp of its parent. *)
Lemma episode_with_empty_timestamp_takes_the_parent_timestamp :
  episode_last_watched_at episode_blank = Some "" /\
  shows (ManualSync.normalize (only_shows [blank_episode_show])) =
    [ {| sh_watched_at := Some "2024-02-02T00:00:00Z";
         sh_ids := {| imdb := Some "tt1"; tmdb := Some 1%Z |};
         sh_seasons :=
           [ {| se_number := Some 1%Z;
                se_episodes := [ {| ep_number := Some 3%Z;
                                    ep_watched_at := Some "2024-02-02T00:00:00Z" |} ] |} ] |} ] /\
  ep_watched_at (episode_item blank_episode_show episode_blank) <>
    own_if_present (episode_last_watched_at episode_blank)
                   (show_last_watched_at blank_episode_show).
Proof. repeat split; discriminate. Qed.

(** C5, amended: for every show or anime entry with a non-empty
    [last_watched_at], every season and every episode, the emitted
    episode carries the episode's own [last_watched_at] when that is a
    non-empty string, and the parent entry's otherwise.  First half:
    every episode of the payload is such an episode.  Second half: every
    episode of a kept entry is in the payload, under a season with the
    number of its own season (anime entries aside in sync-github.js,
    which does not read them). *)
Theorem episodes_carry_own_or_parent_timestamp (v : variant) (w : watched_items) :
  (forall o so eo,
     In o (shows (normalize_of v w)) -> In so (sh_seasons o) -> In eo (se_episodes so) ->
     exists entry season eps episode,
       (In entry (items (watched_shows w)) \/ In entry (items (watched_anime w))) /\
       truthy (show_last_watched_at entry) = true /\
       sh_watched_at o = show_last_watched_at entry /\
       In season (items (show_seasons entry)) /\
       season_episodes season = Some eps /\ In episode eps /\
       eo = {| ep_number := episode_number episode;
               ep_watched_at := own_or_parent (episode_last_watched_at episode)
                                              (show_last_watched_at entry) |}) /\
  (forall entry season eps episode,
     In entry (items (watched_shows w)) \/
       (v <> GitHub /\ In entry (items (watched_anime w))) ->
     truthy (show_last_watched_at entry) = true ->
     In season (items (show_seasons entry)) ->
     season_episodes season = Some eps -> In episode eps ->
     exists o so,
       In o (shows (normalize_of v w)) /\
       sh_watched_at o = show_last_watched_at entry /\
       In so (sh_seasons o) /\ se_number so = season_number season /\
       In {| ep_number := episode_number episode;
             ep_watched_at := own_or_parent (episode_last_watched_at episode)
                                            (show_last_watched_at entry) |}
          (se_episodes so)).
Proof.
  rewrite shows_normalize_of. split.
  - intros o so eo Ho Hso Heo. apply in_app_or in Ho as [Ho | Ho].
    + apply in_flat_map in Ho as (e & He & Ho). apply in_fold_entry in Ho as [T ->].
      simpl in Hso. apply in_folded_seasons in Hso as (s & Hs & K & ->).
      unfold season_item in Heo. simpl in Heo.
      unfold season_has_episodes in K.
      destruct (season_episodes s) as [eps|] eqn:E; [|discriminate].
      simpl in Heo. apply in_map_iff in Heo as (ep & <- & Hep).
      exists e, s, eps, ep. repeat split; auto.
      unfold episode_item. now rewrite js_or_own_or_parent.
    + apply in_anime_part in Ho as (e & He & T & [[-> ->] | [-> ->]]).
      * simpl in Hso. apply in_folded_seasons in Hso as (s & Hs & K & ->).
        unfold season_item in Heo. simpl in Heo.
        unfold season_has_episodes in K.
        destruct (season_episodes s) as [eps|] eqn:E; [|discriminate].
        simpl in Heo. apply in_map_iff in Heo as (ep & <- & Hep).
        exists e, s, eps, ep. repeat split; auto.
        unfold episode_item. now rewrite js_or_own_or_parent.
      * simpl in Hso. apply in_auto_anime_seasons in Hso as (s0 & _ & _ & ->).
        simpl in Heo. apply in_all_anime_episodes in Heo as (s & eps & ep & Hs & E & Hep & ->).
        exists e, s, eps, ep. repeat split; auto.
        unfold episode_item. now rewrite js_or_own_or_parent.
  - intros e s eps ep He T Hs E Hep.
    assert (Hitem : In {| ep_number := episode_number ep;
                          ep_watched_at := own_or_parent (episode_last_watched_at ep)
                                                         (show_last_watched_at e) |}
                       (se_episodes (season_item e s))).
    { unfold season_item. simpl. rewrite E. simpl.
      rewrite <- js_or_own_or_parent. now apply (in_map (episode_item e)). }
    assert (Hfolded : In (season_item e s) (folded_seasons e)).
    { apply in_folded_seasons. exists s. repeat split; [assumption|].
      unfold season_has_episodes. rewrite E. destruct eps; [destruct Hep | reflexivity]. }
    assert (Hmanual : In (show_item e (folded_seasons e)) (fold_entry e)).
    { rewrite (fold_entry_of_folded e _ T Hfolded). now left. }
    destruct He as [He | [Hv He]].
    + exists (show_item e (folded_seasons e)), (season_item e s). repeat split; auto.
      apply in_or_app. left. apply in_flat_map. now exists e.
    + destruct v; [| |contradiction].
      * exists (show_item e (folded_seasons e)), (season_item e s). repeat split; auto.
        apply in_or_app. right. simpl. apply in_flat_map. now exists e.
      * assert (Hall : In {| ep_number := episode_number ep;
                             ep_watched_at := own_or_parent (episode_last_watched_at ep)
                                                            (show_last_watched_at e) |}
                          (AutomatedTraktSync.all_anime_episodes e)).
        { apply in_all_anime_episodes. exists s, eps, ep. repeat split; auto.
          unfold episode_item. now rewrite js_or_own_or_parent. }
        assert (Hso : In {| se_number := season_number s;
                            se_episodes := AutomatedTraktSync.all_anime_episodes e |}
                         (AutomatedTraktSync.map_anime_seasons e)).
        { apply in_auto_anime_seasons. exists s. repeat split; [assumption|].
          intros K. rewrite K in Hall. destruct Hall. }
        exists (show_item e (AutomatedTraktSync.map_anime_seasons e)),
               {| se_number := season_number s;
                  se_episodes := AutomatedTraktSync.all_anime_episodes e |}.
        repeat split; auto.
        apply in_or_app. right. simpl. apply in_flat_map. exists e. split; [assumption|].
        unfold auto_fold_anime. rewrite T.
        destruct (AutomatedTraktSync.map_anime_seasons e); [destruct Hso | now left].
Qed.

(** The theorem at the example of the specification: an episode without
    a timestamp of its own, in a show watched on 2024-02-02, is emitted
    with 2024-02-02. *)
Lemma episodes_carry_own_or_parent_timestamp_example :
  exists o so,
    In o (shows (normalize_of Manual (only_shows [two_seasons]))) /\
    sh_watched_at o = Some "2024-02-02T00:00:00Z" /\
    In so (sh_seasons o) /\ se_number so = Some 1%Z /\
    In {| ep_number := Some 1%Z; ep_watched_at := Some "2024-02-02T00:00:00Z" |}
       (se_episodes so).
Proof.
  apply (proj2 (episodes_carry_own_or_parent_timestamp Manual (only_shows [two_seasons]))
           two_seasons
           {| season_number := Some 1%Z; season_episodes := Some [episode_1] |}
           [episode_1] episode_1).
  - left. simpl. now left.
  - reflexivity.
  - simpl. now left.
  - reflexivity.
  - simpl. now left.
Defined.

(** *** Dropped seasons and entries *)

Lemma normalize_of_closed (v : variant) (w : watched_items) :
  normalize_of v w =
  {| movies := map movie_item (filter kept_movie (items (watched_movies w)));
     shows := flat_map fold_entry (items (watched_shows w)) ++
              anime_part v (items (watched_anime w)) |}.
Proof.
  rewrite <- movies_normalize_of with (v := v), <- shows_normalize_of.
  now destruct (normalize_of v w).
Qed.

Lemma fold_entry_nil (e : show_entry) :
  filter season_has_episodes (items (show_seasons e)) = [] -> fold_entry e = [].
Proof.
  intros H. unfold fold_entry, folded_seasons. rewrite H. simpl.
  now destruct (truthy (show_last_watched_at e)).
Qed.

Lemma auto_fold_anime_nil (e : show_entry) :
  filter season_has_episodes (items (show_seasons e)) = [] -> auto_fold_anime e = [].
Proof.
  intros H. unfold auto_fold_anime.
  destruct (truthy (show_last_watched_at e)); [|reflexivity].
  destruct (AutomatedTraktSync.map_anime_seasons e) as [|so ss] eqn:E; [reflexivity|].
  exfalso.
  assert (Hso : In so (AutomatedTraktSync.map_anime_seasons e)) by (rewrite E; now left).
  apply in_auto_anime_seasons in Hso as (_ & _ & N & _).
  destruct (AutomatedTraktSync.all_anime_episodes e) as [|eo l] eqn:A; [now apply N|].
  assert (Heo : In eo (AutomatedTraktSync.all_anime_episodes e)) by (rewrite A; now left).
  apply in_all_anime_episodes in Heo as (s & eps & ep & Hs & Es & Hep & _).
  assert (K : In s (filter season_has_episodes (items (show_seasons e)))).
  { apply filter_In. split; [assumption|]. unfold season_has_episodes. rewrite Es.
    destruct eps; [destruct Hep | reflexivity]. }
  rewrite H in K. destruct K.
Qed.

Lemma anime_part_without (v : variant) (e : show_entry) (l1 l2 : list show_entry) :
  filter season_has_episodes (items (show_seasons e)) = [] ->
  anime_part v (l1 ++ e :: l2) = anime_part v (l1 ++ l2).
Proof.
  intros H. destruct v; simpl; [| |reflexivity]; rewrite !flat_map_app; simpl.
  - now rewrite (fold_entry_nil e H).
  - now rewrite (auto_fold_anime_nil e H).
Qed.

(** C6: the seasons sync.mjs emits for a show or anime entry are its
    seasons that have episodes (the others are dropped); at every entry
    point an emitted show has a season and an emitted season has an
    episode; and an entry none of whose seasons has an episode, whatever
    its timestamp, is absent from the payload: the payload is the one
    computed without the entry.  The normaliser is a total function on
    the snapshot, it has no error and writes nothing. *)
Theorem entries_without_episodes_are_dropped
    (v : variant) (e : show_entry) (ms : option (list movie_entry))
    (l1 l2 : list show_entry) (other : option (list show_entry)) :
  filter season_has_episodes (items (show_seasons e)) = [] ->
  (forall x, ManualSync.map_seasons x =
             map (season_item x) (filter season_has_episodes (items (show_seasons x))) /\
             ManualSync.map_anime_seasons x =
             map (season_item x) (filter season_has_episodes (items (show_seasons x)))) /\
  (forall w o, In o (shows (normalize_of v w)) ->
     sh_seasons o <> [] /\ forall so, In so (sh_seasons o) -> se_episodes so <> []) /\
  normalize_of v {| watched_movies := ms; watched_shows := Some (l1 ++ e :: l2);
                    watched_anime := other |} =
  normalize_of v {| watched_movies := ms; watched_shows := Some (l1 ++ l2);
                    watched_anime := other |} /\
  normalize_of v {| watched_movies := ms; watched_shows := other;
                    watched_anime := Some (l1 ++ e :: l2) |} =
  normalize_of v {| watched_movies := ms; watched_shows := other;
                    watched_anime := Some (l1 ++ l2) |}.
Proof.
  intros H. split; [|split; [|split]].
  - intros x. split; [apply map_seasons_folded|].
    change ManualSync.map_anime_seasons with ManualSync.map_seasons. apply map_seasons_folded.
  - intros w o Ho. rewrite shows_normalize_of in Ho.
    assert (K : (exists x, o = show_item x (folded_seasons x) /\ folded_seasons x <> []) \/
                (exists x, o = show_item x (AutomatedTraktSync.map_anime_seasons x) /\
                           AutomatedTraktSync.map_anime_seasons x <> [])).
    { apply in_app_or in Ho as [Ho | Ho].
      - apply in_flat_map in Ho as (x & _ & Ho). left. exists x.
        unfold fold_entry in Ho. destruct (truthy (show_last_watched_at x)); [|destruct Ho].
        destruct (folded_seasons x); [destruct Ho|]. destruct Ho as [<- | []].
        split; [reflexivity | discriminate].
      - destruct v; simpl in Ho; [| |destruct Ho];
          apply in_flat_map in Ho as (x & _ & Ho); [left | right]; exists x.
        + unfold fold_entry in Ho. destruct (truthy (show_last_watched_at x)); [|destruct Ho].
          destruct (folded_seasons x); [destruct Ho|]. destruct Ho as [<- | []].
          split; [reflexivity | discriminate].
        + unfold auto_fold_anime in Ho.
          destruct (truthy (show_last_watched_at x)); [|destruct Ho].
          destruct (AutomatedTraktSync.map_anime_seasons x); [destruct Ho|].
          destruct Ho as [<- | []]. split; [reflexivity | discriminate]. }
    destruct K as [(x & -> & N) | (x & -> & N)]; simpl; (split; [assumption|]); intros so Hso.
    + apply in_folded_seasons in Hso as (s & _ & K & ->).
      unfold season_has_episodes in K. unfold season_item. simpl.
      destruct (season_episodes s) as [[|ep eps]|]; discriminate.
    + apply in_auto_anime_seasons in Hso as (s & _ & K & ->). exact K.
  - rewrite !normalize_of_closed. simpl. rewrite !flat_map_app. simpl.
    now rewrite (fold_entry_nil e H).
  - rewrite !normalize_of_closed. simpl. now rewrite (anime_part_without v e l1 l2 H).
Qed.

(** The theorem at a show with a timestamp and two seasons without
    episodes, between two other shows. *)
Lemma entries_without_episodes_are_dropped_example :
  normalize_of Manual (only_shows ([two_seasons] ++ no_episodes_show :: [blank_episode_show])) =
  normalize_of Manual (only_shows ([two_seasons] ++ [blank_episode_show])).
Proof.
  apply (entries_without_episodes_are_dropped Manual no_episodes_show None
           [two_seasons] [blank_episode_show] None).
  reflexivity.
Defined.

(** *** Empty-string timestamps *)

Lemma blank_of_truthy (t : jsstring) : truthy t = true -> blank t = t.
Proof.
  destruct t as [s|]; simpl; [|discriminate].
  now destruct (s =? "").
Qed.

Lemma js_or_blank (own parent : jsstring) : js_or (blank own) parent = js_or own parent.
Proof.
  unfold js_or. rewrite truthy_blank.
  destruct (truthy own) eqn:T; [now rewrite blank_of_truthy | reflexivity].
Qed.

Lemma season_item_blank (e e' : show_entry) (s : season_entry) :
  show_last_watched_at e' = show_last_watched_at e ->
  season_item e' (blank_season s) = season_item e s.
Proof.
  intros H. unfold season_item. simpl. f_equal.
  rewrite items_option_map, map_map. apply map_ext. intros ep.
  unfold episode_item. simpl. now rewrite js_or_blank, H.
Qed.

Lemma season_has_episodes_blank (s : season_entry) :
  season_has_episodes (blank_season s) = season_has_episodes s.
Proof.
  unfold season_has_episodes. simpl. now destruct (season_episodes s) as [[|ep eps]|].
Qed.

Lemma folded_seasons_blank (e : show_entry) :
  truthy (show_last_watched_at e) = true ->
  folded_seasons (blank_show e) = folded_seasons e.
Proof.
  intros T. unfold folded_seasons. simpl.
  rewrite items_option_map, filter_map_swap, map_map.
  rewrite (filter_ext _ season_has_episodes) by apply season_has_episodes_blank.
  apply map_ext. intros s. apply season_item_blank. simpl. now apply blank_of_truthy.
Qed.

Lemma show_item_blank (e : show_entry) (ss : list trakt_season) :
  truthy (show_last_watched_at e) = true -> show_item (blank_show e) ss = show_item e ss.
Proof.
  intros T. unfold show_item. simpl. now rewrite blank_of_truthy.
Qed.

Lemma fold_entry_blank (e : show_entry) : fold_entry (blank_show e) = fold_entry e.
Proof.
  unfold fold_entry. simpl. rewrite truthy_blank.
  destruct (truthy (show_last_watched_at e)) eqn:T; [|reflexivity].
  rewrite folded_seasons_blank by assumption.
  destruct (folded_seasons e); [reflexivity|]. now rewrite show_item_blank.
Qed.

Lemma all_anime_episodes_blank (e : show_entry) :
  truthy (show_last_watched_at e) = true ->
  AutomatedTraktSync.all_anime_episodes (blank_show e) =
  AutomatedTraktSync.all_anime_episodes e.
Proof.
  intros T. unfold AutomatedTraktSync.all_anime_episodes. simpl.
  destruct (show_seasons e) as [ss|]; simpl; [|reflexivity].
  induction ss as [|s ss IH]; simpl; [reflexivity|].
  rewrite IH. f_equal.
  destruct (season_episodes s) as [eps|]; simpl; [|reflexivity].
  rewrite map_map. apply map_ext. intros ep.
  unfold episode_item. simpl. now rewrite js_or_blank, blank_of_truthy.
Qed.

Lemma auto_fold_anime_blank (e : show_entry) :
  auto_fold_anime (blank_show e) = auto_fold_anime e.
Proof.
  unfold auto_fold_anime. simpl. rewrite truthy_blank.
  destruct (truthy (show_last_watched_at e)) eqn:T; [|reflexivity].
  assert (E : AutomatedTraktSync.map_anime_seasons (blank_show e) =
              AutomatedTraktSync.map_anime_seasons e).
  { unfold AutomatedTraktSync.map_anime_seasons.
    rewrite all_anime_episodes_blank by assumption. simpl.
    destruct (show_seasons e) as [ss|]; simpl; [|reflexivity].
    now rewrite map_map. }
  rewrite E. destruct (AutomatedTraktSync.map_anime_seasons e); [reflexivity|].
  now rewrite show_item_blank.
Qed.

Lemma flat_map_map {A B C : Type} (f : A -> B) (g : B -> list C) (l : list A) :
  flat_map g (map f l) = flat_map (fun x => g (f x)) l.
Proof.
  induction l as [|x l IH]; simpl; [reflexivity | now rewrite IH].
Qed.

Lemma anime_part_blank (v : variant) (l : list show_entry) :
  anime_part v (map blank_show l) = anime_part v l.
Proof.
  destruct v; simpl; [| |reflexivity]; rewrite flat_map_map; apply flat_map_ext; intros e.
  - apply fold_entry_blank.
  - apply auto_fold_anime_blank.
Qed.

Lemma movies_blank (l : list movie_entry) :
  map movie_item (filter kept_movie (map blank_movie l)) = map movie_item (filter kept_movie l).
Proof.
  induction l as [|m l IH]; simpl; [reflexivity|].
  assert (K : kept_movie (blank_movie m) = kept_movie m) by apply truthy_blank.
  rewrite K. destruct (kept_movie m) eqn:T; simpl; [|exact IH].
  rewrite IH. f_equal. unfold movie_item. simpl. now rewrite blank_of_truthy.
Qed.

(** Every episode of an entry that has a non-empty timestamp is in the
    payload, under an item with the timestamp and the identifiers of
    the entry and a season with the number of its season. *)
Lemma episode_of_kept_entry_is_emitted (v : variant) (w : watched_items)
    (e : show_entry) (s : season_entry) (ep : episode_entry) :
  In e (items (watched_shows w)) \/ (v <> GitHub /\ In e (items (watched_anime w))) ->
  truthy (show_last_watched_at e) = true ->
  In s (items (show_seasons e)) -> In ep (items (season_episodes s)) ->
  exists o so,
    In o (shows (normalize_of v w)) /\
    sh_watched_at o = show_last_watched_at e /\
    sh_ids o = {| imdb := imdb (media_ids (show_show e));
                  tmdb := tmdb (media_ids (show_show e)) |} /\
    In so (sh_seasons o) /\ se_number so = season_number s /\
    In (episode_item e ep) (se_episodes so).
Proof.
  intros He T Hs Hep. rewrite shows_normalize_of.
  assert (Hitem : In (episode_item e ep) (se_episodes (season_item e s))).
  { unfold season_item. simpl. now apply in_map. }
  assert (Hfolded : In (season_item e s) (folded_seasons e)).
  { apply in_folded_seasons. exists s. repeat split; [assumption|].
    unfold season_has_episodes.
    destruct (season_episodes s) as [[|x eps]|]; [destruct Hep | reflexivity | destruct Hep]. }
  assert (Hmanual : In (show_item e (folded_seasons e)) (fold_entry e)).
  { rewrite (fold_entry_of_folded e _ T Hfolded). now left. }
  destruct He as [He | [Hv He]].
  - exists (show_item e (folded_seasons e)), (season_item e s). repeat split; auto.
    apply in_or_app. left. apply in_flat_map. now exists e.
  - destruct v; [| |contradiction].
    + exists (show_item e (folded_seasons e)), (season_item e s). repeat split; auto.
      apply in_or_app. right. simpl. apply in_flat_map. now exists e.
    + assert (Hall : In (episode_item e ep) (AutomatedTraktSync.all_anime_episodes e)).
      { apply in_all_anime_episodes.
        destruct (season_episodes s) as [eps|] eqn:E; [|destruct Hep].
        now exists s, eps, ep. }
      assert (Hso : In {| se_number := season_number s;
                          se_episodes := AutomatedTraktSync.all_anime_episodes e |}
                       (AutomatedTraktSync.map_anime_seasons e)).
      { apply in_auto_anime_seasons. exists s. repeat split; [assumption|].
        intros K. rewrite K in Hall. destruct Hall. }
      exists (show_item e (AutomatedTraktSync.map_anime_seasons e)),
             {| se_number := season_number s;
                se_episodes := AutomatedTraktSync.all_anime_episodes e |}.
      repeat split; auto.
      apply in_or_app. right. simpl. apply in_flat_map. exists e. split; [assumption|].
      unfold auto_fold_anime. rewrite T.
      destruct (AutomatedTraktSync.map_anime_seasons e); [destruct Hso | now left].
Qed.

(** Every item of [shows] carries a non-empty timestamp. *)
Lemma payload_show_timestamp (v : variant) (w : watched_items) (o : trakt_show) :
  In o (shows (normalize_of v w)) -> truthy (sh_watched_at o) = true.
Proof.
  rewrite shows_normalize_of. intros Ho. apply in_app_or in Ho as [Ho | Ho].
  - apply in_flat_map in Ho as (e & _ & Ho). apply in_fold_entry in Ho as [T ->]. exact T.
  - apply in_anime_part in Ho as (e & _ & T & [[_ ->] | [_ ->]]); exact T.
Qed.

(** C10: a [last_watched_at] equal to the empty string is read as a
    missing one.  The payload of a snapshot is the payload of the
    snapshot in which every empty-string timestamp is removed, and the
    payload of the snapshot without the movie, show or anime entries
    whose timestamp is the empty string.  Seen from the payload: no
    movie and no show item carries the empty string, so the item such an
    entry would give is not there, while every movie with a non-empty
    timestamp is; and an episode whose timestamp is the empty string, or
    is missing, is there with the timestamp of its parent entry, in the
    season with the number of its season, under the item of its parent
    (for a show at every entry point, for an anime entry in sync.mjs
    and sync-auto.mjs). *)
Theorem empty_timestamp_is_read_as_missing (v : variant) :
  (forall w, normalize_of v (blank_watched w) = normalize_of v w) /\
  (forall x l1 l2 ss an,
     normalize_of v {| watched_movies :=
                         Some (l1 ++ {| movie_last_watched_at := Some ""; movie_movie := x |} :: l2);
                       watched_shows := ss; watched_anime := an |} =
     normalize_of v {| watched_movies := Some (l1 ++ l2);
                       watched_shows := ss; watched_anime := an |}) /\
  (forall x seasons l1 l2 ms an,
     normalize_of v {| watched_movies := ms;
                       watched_shows :=
                         Some (l1 ++ {| show_last_watched_at := Some ""; show_show := x;
                                        show_seasons := seasons |} :: l2);
                       watched_anime := an |} =
     normalize_of v {| watched_movies := ms; watched_shows := Some (l1 ++ l2);
                       watched_anime := an |}) /\
  (forall x seasons l1 l2 ms ss,
     normalize_of v {| watched_movies := ms; watched_shows := ss;
                       watched_anime :=
                         Some (l1 ++ {| show_last_watched_at := Some ""; show_show := x;
                                        show_seasons := seasons |} :: l2) |} =
     normalize_of v {| watched_movies := ms; watched_shows := ss;
                       watched_anime := Some (l1 ++ l2) |}) /\
  (forall w m, In m (movies (normalize_of v w)) ->
     mv_watched_at m <> Some "" /\ mv_watched_at m <> None) /\
  (forall w o, In o (shows (normalize_of v w)) ->
     sh_watched_at o <> Some "" /\ sh_watched_at o <> None) /\
  (forall w x, In x (items (watched_movies w)) ->
     (movie_last_watched_at x = Some "" -> ~ In (movie_item x) (movies (normalize_of v w))) /\
     (forall t, movie_last_watched_at x = Some t -> t <> "" ->
        In {| mv_watched_at := Some t;
              mv_ids := {| imdb := imdb (media_ids (movie_movie x));
                           tmdb := tmdb (media_ids (movie_movie x)) |} |}
           (movies (normalize_of v w)))) /\
  (forall w entry season n own,
     In entry (items (watched_shows w)) \/
       (v <> GitHub /\ In entry (items (watched_anime w))) ->
     truthy (show_last_watched_at entry) = true ->
     In season (items (show_seasons entry)) ->
     In {| episode_number := n; episode_last_watched_at := own |}
        (items (season_episodes season)) ->
     own = Some "" \/ own = None ->
     exists o so,
       In o (shows (normalize_of v w)) /\
       sh_watched_at o = show_last_watched_at entry /\
       sh_ids o = {| imdb := imdb (media_ids (show_show entry));
                     tmdb := tmdb (media_ids (show_show entry)) |} /\
       In so (sh_seasons o) /\ se_number so = season_number season /\
       In {| ep_number := n; ep_watched_at := show_last_watched_at entry |}
          (se_episodes so)).
Proof.
  split; [|split; [|split; [|split; [|split; [|split; [|split]]]]]].
  - intros w. rewrite !normalize_of_closed. simpl.
    rewrite !items_option_map, movies_blank, anime_part_blank, flat_map_map.
    f_equal. f_equal. apply flat_map_ext. intros e. apply fold_entry_blank.
  - intros. rewrite !normalize_of_closed. simpl. now rewrite !filter_app.
  - intros. rewrite !normalize_of_closed. simpl. now rewrite !flat_map_app.
  - intros. rewrite !normalize_of_closed. simpl.
    destruct v; simpl; [| |reflexivity]; now rewrite !flat_map_app.
  - intros w m Hm. rewrite movies_normalize_of in Hm.
    apply in_map_iff in Hm as (x & <- & Hx). apply filter_In in Hx as [_ K].
    unfold kept_movie in K. unfold movie_item. simpl.
    split; intros E; rewrite E in K; discriminate.
  - intros w o Ho. apply payload_show_timestamp in Ho.
    split; intros E; rewrite E in Ho; discriminate.
  - intros w x Hx. split.
    + intros E Hin. rewrite movies_normalize_of in Hin.
      apply in_map_iff in Hin as (y & Ey & Hy). apply filter_In in Hy as [_ K].
      unfold kept_movie in K.
      assert (F : mv_watched_at (movie_item y) = mv_watched_at (movie_item x))
        by now rewrite Ey.
      unfold movie_item in F. simpl in F. rewrite F, E in K. discriminate.
    + intros t E N. rewrite movies_normalize_of. apply in_map_iff. exists x. split.
      * unfold movie_item. now rewrite E.
      * apply filter_In. split; [assumption|]. apply kept_movie_non_empty. now exists t.
  - intros w entry season n own He T Hs Hep Hown.
    destruct (episode_of_kept_entry_is_emitted v w entry season _ He T Hs Hep)
      as (o & so & H1 & H2 & H3 & H4 & H5 & H6).
    exists o, so. repeat split; try assumption.
    unfold episode_item in H6. simpl in H6.
    destruct Hown as [-> | ->]; exact H6.
Qed.

(** The theorem at a show watched on 2024-02-02 whose only episode has
    the empty string as timestamp: the episode is in the payload with
    2024-02-02. *)
Lemma empty_timestamp_is_read_as_missing_example :
  exists o so,
    In o (shows (normalize_of Manual (only_shows [blank_episode_show]))) /\
    sh_watched_at o = Some "2024-02-02T00:00:00Z" /\
    sh_ids o = {| imdb := Some "tt1"; tmdb := Some 1%Z |} /\
    In so (sh_seasons o) /\ se_number so = Some 1%Z /\
    In {| ep_number := Some 3%Z; ep_watched_at := Some "2024-02-02T00:00:00Z" |}
       (se_episodes so).
Proof.
  apply (proj2 (proj2 (proj2 (proj2 (proj2 (proj2 (proj2
           (empty_timestamp_is_read_as_missing Manual)))))))
           (only_shows [blank_episode_show]) blank_episode_show
           {| season_number := Some 1%Z; season_episodes := Some [episode_blank] |}
           (Some 3%Z) (Some "")).
  - left. simpl. now left.
  - reflexivity.
  - simpl. now left.
  - simpl. now left.
  - now left.
Defined.

(** *** Anime entries *)

(** sync.mjs folds an anime entry as it folds a show entry, into the
    same [shows] collection, after the shows. *)
Lemma manual_anime_folded_like_shows (w : watched_items) (l : list show_entry) :
  ManualSync.process_anime = ManualSync.process_show /\
  ManualSync.normalize (only_anime l) = ManualSync.normalize (only_shows l) /\
  shows (ManualSync.normalize w) =
    flat_map fold_entry (items (watched_shows w)) ++
    flat_map fold_entry (items (watched_anime w)).
Proof.
  split; [reflexivity|]. rewrite !manual_normalize_closed. simpl.
  now rewrite app_nil_r.
Qed.

(** sync-github.js emits nothing for the anime collection. *)
Lemma github_ignores_anime (l : list show_entry) :
  GitHubSync.normalize (only_anime l) = {| movies := []; shows := [] |}.
Proof. reflexivity. Qed.

(** C1 fails in sync-auto.mjs: the same entry, with two seasons of one
    episode each, gives as an anime entry two seasons holding both
    episodes each, and as a show entry two seasons holding their own
    episode. *)
Theorem auto_anime_seasons_hold_all_episodes :
  shows (AutomatedTraktSync.normalize (only_anime [two_seasons])) =
    [ {| sh_watched_at := Some "2024-02-02T00:00:00Z";
         sh_ids := {| imdb := Some "tt1"; tmdb := Some 1%Z |};
         sh_seasons :=
           [ {| se_number := Some 1%Z;
                se_episodes :=
                  [ {| ep_number := Some 1%Z; ep_watched_at := Some "2024-02-02T00:00:00Z" |};
                    {| ep_number := Some 2%Z; ep_watched_at := Some "2024-03-03T00:00:00Z" |} ] |};
             {| se_number := Some 2%Z;
                se_episodes :=
                  [ {| ep_number := Some 1%Z; ep_watched_at := Some "2024-02-02T00:00:00Z" |};
                    {| ep_number := Some 2%Z; ep_watched_at := Some "2024-03-03T00:00:00Z" |} ] |}
           ] |} ] /\
  shows (AutomatedTraktSync.normalize (only_shows [two_seasons])) =
    [ {| sh_watched_at := Some "2024-02-02T00:00:00Z";
         sh_ids := {| imdb := Some "tt1"; tmdb := Some 1%Z |};
         sh_seasons :=
           [ {| se_number := Some 1%Z;
                se_episodes :=
                  [ {| ep_number := Some 1%Z; ep_watched_at := Some "2024-02-02T00:00:00Z" |} ] |};
             {| se_number := Some 2%Z;
                se_episodes :=
                  [ {| ep_number := Some 2%Z; ep_watched_at := Some "2024-03-03T00:00:00Z" |} ] |}
           ] |} ] /\
  AutomatedTraktSync.normalize (only_anime [two_seasons]) <>
  AutomatedTraktSync.normalize (only_shows [two_seasons]).
Proof. repeat split; discriminate. Qed.

(* ================================================================== *)
(** ** The result logger                                               *)
(* ================================================================== *)

Lemma slice_last_short {A : Type} (n : nat) (l : list A) :
  (List.length l <= n)%nat -> slice_last n l = l.
Proof.
  intros H. unfold slice_last. replace (List.length l - n)%nat with 0%nat by lia. reflexivity.
Qed.

Lemma slice_last_length {A : Type} (n : nat) (l : list A) :
  List.length (slice_last n l) = Nat.min n (List.length l).
Proof. unfold slice_last. rewrite length_skipn. lia. Qed.

(** [slice_last n l] is what is left when the oldest entries are
    dropped. *)
Lemma slice_last_suffix {A : Type} (n : nat) (l : list A) :
  firstn (List.length l - n) l ++ slice_last n l = l.
Proof. unfold slice_last. apply firstn_skipn. Qed.

Lemma slice_last_keeps_last {A : Type} (n : nat) (l : list A) (x : A) :
  exists l', slice_last (S n) (l ++ [x]) = l' ++ [x].
Proof.
  unfold slice_last. rewrite length_app. simpl.
  replace (List.length l + 1 - S n)%nat with (List.length l - n)%nat by lia.
  rewrite skipn_app.
  replace (List.length l - n - List.length l)%nat with 0%nat by lia.
  simpl. now exists (skipn (List.length l - n) l).
Qed.

Lemma kept_is_slice_last {A : Type} (l : list A) :
  (if (100 <? List.length l)%nat then slice_last 100 l else l) = slice_last 100 l.
Proof.
  destruct (Nat.ltb_spec 100 (List.length l)); [reflexivity|].
  symmetry. now apply slice_last_short.
Qed.

(** What [logSyncResult] does, by the state of the log file. *)
Lemma logSyncResult_run (entry : json) (w : world) :
  AutomatedTraktSync.logSyncResult entry w =
  (Return tt,
   match log_entries (log_file w) with
   | Some l =>
       if log_writable w then with_log_file w (Content (JArr (slice_last 100 (l ++ [entry]))))
       else w
   | None => w
   end).
Proof.
  unfold AutomatedTraktSync.logSyncResult, try_catch, bind, read_log_file, write_log_file,
    ret, throw, log_entries.
  destruct (log_file w) as [| |[]] eqn:E; simpl; try reflexivity;
    rewrite ?kept_is_slice_last; destruct (log_writable w); reflexivity.
Qed.

(** C9 fails in sync-auto.mjs for a log file that holds a JSON document
    other than an array, here [{}]: the document is not read as empty,
    as a file that is missing or is not JSON is, and nothing can be
    appended to it; [logSyncResult] returns and leaves the file as it
    was, so this record and every later one is lost.  On a file that is
    missing or is not JSON the same call starts a fresh log. *)
Theorem object_log_loses_every_record (entries : list json) :
  log_file world_log_object = Content (JObj []) /\
  log_writable world_log_object = true /\
  AutomatedTraktSync.logSyncResult sample_entry world_log_object =
    (Return tt, world_log_object) /\
  record_all entries world_log_object = (Return tt, world_log_object) /\
  log_file (snd (AutomatedTraktSync.logSyncResult sample_entry
                   (with_log world_log_object Corrupt true))) =
    Content (JArr [sample_entry]) /\
  log_file (snd (AutomatedTraktSync.logSyncResult sample_entry
                   (with_log world_log_object Missing true))) =
    Content (JArr [sample_entry]).
Proof.
  repeat split.
  induction entries as [|e rest IH]; [reflexivity|].
  simpl record_all. unfold bind. rewrite logSyncResult_run. exact IH.
Qed.

(** *** Logging and the outcome of the run *)

Lemma log_blind_ret {A : Type} (a : A) : log_blind (ret a).
Proof. intros w f b. split; [reflexivity | now exists f]. Qed.

Lemma log_blind_throw {A : Type} (e : error) : log_blind (@throw A e).
Proof. intros w f b. split; [reflexivity | now exists f]. Qed.

Lemma log_blind_process_exit {A : Type} (c : Z) : log_blind (@process_exit A c).
Proof. intros w f b. split; [reflexivity | now exists f]. Qed.

Lemma log_blind_console_log (m : message) : log_blind (console_log m).
Proof. intros w f b. split; [reflexivity | now exists f]. Qed.

Lemma log_blind_now : log_blind now.
Proof. intros w f b. split; [reflexivity | now exists f]. Qed.

Lemma log_blind_set_this_config (c : option config) : log_blind (set_this_config c).
Proof. intros w f b. split; [reflexivity | now exists f]. Qed.

Lemma log_blind_get_config : log_blind get_config.
Proof.
  intros w f b. unfold get_config. simpl.
  destruct (this_config w); split; try reflexivity; now exists f.
Qed.

Lemma log_blind_read_config_file : log_blind read_config_file.
Proof.
  intros w f b. unfold read_config_file. simpl.
  destruct (config_file w); split; try reflexivity; now exists f.
Qed.

Lemma log_blind_write_config_file : log_blind write_config_file.
Proof.
  intros w f b. unfold write_config_file. simpl.
  destruct (config_writable w); split; try reflexivity; now exists f.
Qed.

Lemma log_blind_fetch_simkl (url : string) (o : options) : log_blind (fetch_simkl url o).
Proof.
  intros w f b. unfold fetch_simkl. simpl.
  destruct (simkl w (trace w) _); split; try reflexivity; now exists f.
Qed.

Lemma log_blind_fetch_trakt (url : string) (o : options) : log_blind (fetch_trakt url o).
Proof.
  intros w f b. unfold fetch_trakt. simpl.
  destruct (trakt w (trace w) _); split; try reflexivity; now exists f.
Qed.

Lemma log_blind_json_of {A : Type} (r : response A) : log_blind (json_of r).
Proof.
  unfold json_of. destruct (resp_json r); [apply log_blind_ret | apply log_blind_throw].
Qed.

Lemma log_blind_text_of (r : response json) : log_blind (text_of r).
Proof.
  intros w f b. unfold text_of. simpl.
  destruct (read_text w (trace w) r); split; try reflexivity; now exists f.
Qed.

Lemma log_blind_member (k : string) (v : json) : log_blind (member k v).
Proof.
  unfold member. destruct v; first [apply log_blind_ret | apply log_blind_throw].
Qed.

Lemma log_blind_bind {A B : Type} (m : M A) (k : A -> M B) :
  log_blind m -> (forall a, log_blind (k a)) -> log_blind (bind m k).
Proof.
  intros Hm Hk w f b. unfold bind.
  destruct (Hm w f b) as [E1 [f' E2]].
  destruct (m (with_log w f b)) as [r1 w1]. destruct (m w) as [r2 w2].
  simpl in E1, E2. subst r1 w1.
  destruct r2 as [a|e|c]; [apply Hk | |]; split; try reflexivity; now exists f'.
Qed.

Lemma log_blind_try_catch {A : Type} (m : M A) (h : error -> M A) :
  log_blind m -> (forall e, log_blind (h e)) -> log_blind (try_catch m h).
Proof.
  intros Hm Hh w f b. unfold try_catch.
  destruct (Hm w f b) as [E1 [f' E2]].
  destruct (m (with_log w f b)) as [r1 w1]. destruct (m w) as [r2 w2].
  simpl in E1, E2. subst r1 w1.
  destruct r2 as [a|e|c]; [ |apply Hh| ]; split; try reflexivity; now exists f'.
Qed.

Lemma log_blind_logSyncResult (entry : json) : log_blind (AutomatedTraktSync.logSyncResult entry).
Proof.
  intros w f b. rewrite !logSyncResult_run. simpl. split; [reflexivity|].
  destruct (log_entries f), (log_entries (log_file w)), b, (log_writable w);
    eexists; reflexivity.
Qed.

Create HintDb blind.
#[local] Hint Resolve log_blind_ret log_blind_throw log_blind_process_exit
  log_blind_console_log log_blind_now log_blind_set_this_config log_blind_get_config
  log_blind_read_config_file log_blind_write_config_file log_blind_fetch_simkl
  log_blind_fetch_trakt log_blind_json_of log_blind_text_of log_blind_member
  log_blind_logSyncResult : blind.

Ltac blind_step :=
  match goal with
  | |- log_blind (bind _ _) => apply log_blind_bind; [|intros ?]
  | |- log_blind (try_catch _ _) => apply log_blind_try_catch; [|intros ?]
  | |- log_blind (if ?c then _ else _) => destruct c
  | |- log_blind (match ?x with _ => _ end) => destruct x
  | |- log_blind _ => solve [auto with blind]
  end.

Lemma log_blind_get_trakt_tokens : log_blind get_trakt_tokens.
Proof. unfold get_trakt_tokens. repeat blind_step. Qed.

#[local] Hint Resolve log_blind_get_trakt_tokens : blind.

Lemma log_blind_auto_traktRequest (url : string) (o : options) :
  log_blind (AutomatedTraktSync.traktRequest url o).
Proof.
  unfold AutomatedTraktSync.traktRequest, AutomatedTraktSync.refreshTraktToken,
    AutomatedTraktSync.saveConfig.
  repeat blind_step.
Qed.

#[local] Hint Resolve log_blind_auto_traktRequest : blind.

Lemma log_blind_auto_main (command : option string) :
  log_blind (AutomatedTraktSync.main command).
Proof.
  unfold AutomatedTraktSync.main, AutomatedTraktSync.autoSync,
    AutomatedTraktSync.autoSync_body, AutomatedTraktSync.submit,
    AutomatedTraktSync.loadConfig,
    AutomatedTraktSync.getSimklWatched, AutomatedTraktSync.fetchJSON,
    AutomatedTraktSync.initializeTrakt.
  repeat blind_step.
Qed.

(** For every entry and every prior state of the log, [logSyncResult]
    returns normally.  A log that is missing or is not JSON is read as
    empty and a log that is a JSON array as its elements; the entry is
    appended last, the most recent 100 entries are kept and written
    back.  A failure (the file cannot be written, or the stored document
    is JSON but not an array, so that nothing can be appended to it) is
    swallowed and leaves the world as it was.  The console, the
    requests, the credentials and the completion of the run are the same
    whatever the log file holds and whether or not it can be written. *)
Theorem logging_is_best_effort (entry : json) (w : world) :
  AutomatedTraktSync.logSyncResult entry w =
    (Return tt,
     match log_entries (log_file w) with
     | Some l =>
         if log_writable w
         then with_log_file w (Content (JArr (slice_last 100 (l ++ [entry]))))
         else w
     | None => w
     end) /\
  log_entries Missing = Some [] /\
  log_entries Corrupt = Some [] /\
  (forall l, log_entries (Content (JArr l)) = Some l) /\
  (forall l : list json,
     (exists recent, slice_last 100 (l ++ [entry]) = recent ++ [entry]) /\
     List.length (slice_last 100 (l ++ [entry])) = Nat.min 100 (List.length l + 1) /\
     firstn (List.length (l ++ [entry]) - 100) (l ++ [entry]) ++ slice_last 100 (l ++ [entry]) =
       l ++ [entry]) /\
  (forall command f b,
     let with_that_log := AutomatedTraktSync.main command (with_log w f b) in
     let with_this_log := AutomatedTraktSync.main command w in
     fst with_that_log = fst with_this_log /\
     trace (snd with_that_log) = trace (snd with_this_log) /\
     this_config (snd with_that_log) = this_config (snd with_this_log) /\
     config_file (snd with_that_log) = config_file (snd with_this_log)).
Proof.
  split; [apply logSyncResult_run|]. repeat split; try reflexivity.
  - apply slice_last_keeps_last.
  - rewrite slice_last_length, length_app. reflexivity.
  - apply slice_last_suffix.
  - apply log_blind_auto_main.
  - destruct (log_blind_auto_main command w f b) as [_ [f' E]]. now rewrite E.
  - destruct (log_blind_auto_main command w f b) as [_ [f' E]]. now rewrite E.
  - destruct (log_blind_auto_main command w f b) as [_ [f' E]]. now rewrite E.
Qed.

(* ================================================================== *)
(** ** Token refresh and the authenticated request                     *)
(* ================================================================== *)

Lemma requests_app (t1 t2 : list event) : requests (t1 ++ t2) = requests t1 ++ requests t2.
Proof.
  induction t1 as [|[m|r] t1 IH]; simpl; [reflexivity | exact IH | now rewrite IH].
Qed.

Lemma refreshes_app (t1 t2 : list event) : refreshes (t1 ++ t2) = (refreshes t1 + refreshes t2)%nat.
Proof.
  induction t1 as [|[m|r] t1 IH]; simpl; [reflexivity | | exact IH].
  destruct m; simpl; now rewrite ?IH.
Qed.

(** One step of a computation at a time. *)

Lemma bind_return {A B : Type} (m : M A) (k : A -> M B) (w w' : world) (a : A) :
  m w = (Return a, w') -> bind m k w = k a w'.
Proof. intros H. unfold bind. now rewrite H. Qed.

Lemma bind_throw {A B : Type} (m : M A) (k : A -> M B) (w w' : world) (e : error) :
  m w = (Throw e, w') -> bind m k w = (Throw e, w').
Proof. intros H. unfold bind. now rewrite H. Qed.

Lemma get_config_eq (w : world) (c : config) :
  this_config w = Some c -> get_config w = (Return c, w).
Proof. intros H. unfold get_config. now rewrite H. Qed.

Lemma get_trakt_tokens_eq (w : world) (c : config) (tokens : json) :
  this_config w = Some c -> trakt_tokens c = Some tokens -> tokens <> JNull ->
  get_trakt_tokens w = (Return tokens, w).
Proof.
  intros Hc Ht Hn. unfold get_trakt_tokens.
  rewrite (bind_return _ _ _ _ _ (get_config_eq w c Hc)), Ht.
  destruct tokens; try reflexivity. contradiction.
Qed.

Lemma fetch_trakt_eq (w : world) (url : string) (o : options) (r : response json) :
  trakt w (trace w) {| req_url := url; req_options := o |} = Resolved r ->
  fetch_trakt url o w =
  (Return r, with_trace w (trace w ++ [Fetch {| req_url := url; req_options := o |}])).
Proof. intros H. unfold fetch_trakt. cbv zeta. now rewrite H. Qed.

Lemma json_of_eq {A : Type} (r : response A) (d : A) (w : world) :
  resp_json r = Some d -> json_of r w = (Return d, w).
Proof. intros H. unfold json_of. now rewrite H. Qed.

Lemma text_of_eq (r : response json) (text : string) (w : world) :
  read_text w (trace w) r = Some text -> text_of r w = (Return text, w).
Proof. intros H. unfold text_of. now rewrite H. Qed.

Lemma text_of_fails (r : response json) (w : world) :
  read_text w (trace w) r = None -> text_of r w = (Throw BodyError, w).
Proof. intros H. unfold text_of. now rewrite H. Qed.

Lemma console_log_eq (m : message) (w : world) :
  console_log m w = (Return tt, with_trace w (trace w ++ [Console m])).
Proof. reflexivity. Qed.

Lemma set_this_config_eq (c : option config) (w : world) :
  set_this_config c w = (Return tt, with_config w c).
Proof. reflexivity. Qed.

Lemma write_config_file_eq (w : world) :
  config_writable w = true ->
  write_config_file w = (Return tt, with_config_file w (Content (this_config w))).
Proof. intros H. unfold write_config_file. now rewrite H. Qed.

Lemma app_cons_app {A : Type} (l : list A) (x : A) (l' : list A) :
  (l ++ [x]) ++ l' = l ++ x :: l'.
Proof. now rewrite <- app_assoc. Qed.

(** Run the next statement of a sequence whose outcome is known. *)
Ltac step :=
  first
    [ erewrite bind_return by apply console_log_eq
    | erewrite bind_return by apply set_this_config_eq
    | erewrite bind_return by (eapply get_trakt_tokens_eq; simpl; eauto)
    | erewrite bind_return by (eapply get_config_eq; simpl; eauto)
    | erewrite bind_return by (eapply json_of_eq; eauto)
    | erewrite bind_return by (eapply write_config_file_eq; simpl; eauto)
    | erewrite bind_return
        by (eapply fetch_trakt_eq; simpl; rewrite ?app_cons_app; simpl; eauto) ].

Ltac unfold_refresh :=
  simpl refreshTraktToken_of;
  unfold ManualSync.refreshTraktToken, AutomatedTraktSync.refreshTraktToken,
    GitHubSync.refreshTraktToken, ManualSync.saveConfig, AutomatedTraktSync.saveConfig.

Ltac unfold_request :=
  simpl traktRequest_of;
  unfold ManualSync.traktRequest, AutomatedTraktSync.traktRequest, GitHubSync.traktRequest.

Ltac same_world :=
  unfold console_log, fetch_trakt, refresh_request, first_request, retry_request;
  simpl; rewrite <- ?app_assoc; simpl; reflexivity.

Lemma refresh_granted_run (v : variant) (w : world) (c : config) (tokens body : json)
    (r : response json) :
  this_config w = Some c -> trakt_tokens c = Some tokens -> tokens <> JNull ->
  trakt w (trace w ++ [Console RefreshingToken]) (refresh_request c tokens) = Resolved r ->
  ok r = true -> resp_json r = Some body ->
  (persists v = true -> config_writable w = true) ->
  refreshTraktToken_of v w =
  (Return tt,
   with_trace
     (let w' := with_config w (Some (set_trakt_tokens c (Some body))) in
      if persists v then with_config_file w' (Content (this_config w')) else w')
     (trace w ++ [Console RefreshingToken; Fetch (refresh_request c tokens)] ++ after_refresh v)).
Proof.
  intros Hc Ht Hn Hr Hok Hb Hw.
  destruct v; unfold_refresh.
  - do 4 step. rewrite Hok. do 3 step. same_world.
  - do 4 step. rewrite Hok. do 3 step. same_world.
  - do 4 step. rewrite Hok. do 3 step. same_world.
Qed.

Lemma refresh_refused_run (v : variant) (w : world) (c : config) (tokens : json)
    (r : response json) :
  this_config w = Some c -> trakt_tokens c = Some tokens -> tokens <> JNull ->
  trakt w (trace w ++ [Console RefreshingToken]) (refresh_request c tokens) = Resolved r ->
  ok r = false ->
  refreshTraktToken_of v w =
  (Throw RefreshFailed,
   with_trace w (trace w ++ [Console RefreshingToken; Fetch (refresh_request c tokens)])).
Proof.
  intros Hc Ht Hn Hr Hok.
  destruct v; unfold_refresh; do 4 step; rewrite Hok; same_world.
Qed.

Lemma no_refresh_around (v : variant) :
  refreshes (before_refresh v) = 0%nat /\ refreshes (after_refresh v) = 0%nat /\
  requests (before_refresh v) = [] /\ requests (after_refresh v) = [].
Proof. destruct v; repeat split. Qed.

(** A 401 followed by a granted refresh: the request goes out again,
    once, and its outcome is the outcome of the call. *)
Lemma request_retried_run (v : variant) (w : world) (c : config) (tokens body : json)
    (url : string) (o : options) (r1 rr : response json) :
  this_config w = Some c -> trakt_tokens c = Some tokens -> tokens <> JNull ->
  trakt w (trace w) (first_request c tokens url o) = Resolved r1 ->
  status r1 = 401%Z ->
  trakt w (trace w ++ Fetch (first_request c tokens url o) :: before_refresh v ++
                      [Console RefreshingToken])
        (refresh_request c tokens) = Resolved rr ->
  ok rr = true -> resp_json rr = Some body -> body <> JNull ->
  (persists v = true -> config_writable w = true) ->
  traktRequest_of v url o w =
  fetch_trakt url (req_options (retry_request c tokens body url o))
    (with_trace
       (let w' := with_config w (Some (set_trakt_tokens c (Some body))) in
        if persists v then with_config_file w' (Content (this_config w')) else w')
       (trace w ++ Fetch (first_request c tokens url o) :: before_refresh v ++
          [Console RefreshingToken; Fetch (refresh_request c tokens)] ++ after_refresh v)).
Proof.
  intros Hc Ht Hn H1 H401 Hr Hok Hb Hbn Hw.
  destruct v; unfold_request.
  - do 3 step. rewrite H401, Z.eqb_refl.
    erewrite bind_return.
    2:{ apply (refresh_granted_run Manual _ c tokens body rr); simpl; auto.
        rewrite app_cons_app. exact Hr. }
    erewrite bind_return
      by (eapply get_trakt_tokens_eq; [simpl; reflexivity | simpl; reflexivity | assumption]).
    f_equal. same_world.
  - do 3 step. rewrite H401, Z.eqb_refl. step.
    erewrite bind_return.
    2:{ apply (refresh_granted_run Automated _ c tokens body rr); simpl; auto.
        rewrite !app_cons_app. exact Hr. }
    erewrite bind_return
      by (eapply get_trakt_tokens_eq; [simpl; reflexivity | simpl; reflexivity | assumption]).
    f_equal. same_world.
  - do 3 step. rewrite H401, Z.eqb_refl.
    erewrite bind_return.
    2:{ apply (refresh_granted_run GitHub _ c tokens body rr); simpl; auto.
        rewrite app_cons_app. exact Hr. }
    erewrite bind_return
      by (eapply get_trakt_tokens_eq; [simpl; reflexivity | simpl; reflexivity | assumption]).
    f_equal. same_world.
Qed.

(** A 401 followed by a refused refresh: the error of the refresh is the
    outcome of the call and the request does not go out again. *)
Lemma request_not_retried_run (v : variant) (w : world) (c : config) (tokens : json)
    (url : string) (o : options) (r1 rr : response json) :
  this_config w = Some c -> trakt_tokens c = Some tokens -> tokens <> JNull ->
  trakt w (trace w) (first_request c tokens url o) = Resolved r1 ->
  status r1 = 401%Z ->
  trakt w (trace w ++ Fetch (first_request c tokens url o) :: before_refresh v ++
                      [Console RefreshingToken])
        (refresh_request c tokens) = Resolved rr ->
  ok rr = false ->
  traktRequest_of v url o w =
  (Throw RefreshFailed,
   with_trace w (trace w ++ Fetch (first_request c tokens url o) :: before_refresh v ++
                   [Console RefreshingToken; Fetch (refresh_request c tokens)])).
Proof.
  intros Hc Ht Hn H1 H401 Hr Hok.
  destruct v; unfold_request.
  - do 3 step. rewrite H401, Z.eqb_refl.
    erewrite bind_throw.
    2:{ apply (refresh_refused_run Manual _ c tokens rr); simpl; auto.
        rewrite app_cons_app. exact Hr. }
    same_world.
  - do 3 step. rewrite H401, Z.eqb_refl. step.
    erewrite bind_throw.
    2:{ apply (refresh_refused_run Automated _ c tokens rr); simpl; auto.
        rewrite !app_cons_app. exact Hr. }
    same_world.
  - do 3 step. rewrite H401, Z.eqb_refl.
    erewrite bind_throw.
    2:{ apply (refresh_refused_run GitHub _ c tokens rr); simpl; auto.
        rewrite app_cons_app. exact Hr. }
    same_world.
Qed.

(** *** At most one refresh per call *)

Lemma refreshes_at_most_weaken {A : Type} (n n' : nat) (m : M A) :
  (n <= n')%nat -> refreshes_at_most n m -> refreshes_at_most n' m.
Proof. intros Hn H w. specialize (H w). lia. Qed.

Lemma refreshes_at_most_bind {A B : Type} (n k : nat) (m : M A) (f : A -> M B) :
  refreshes_at_most n m -> (forall a, refreshes_at_most k (f a)) ->
  refreshes_at_most (n + k) (bind m f).
Proof.
  intros Hm Hf w. unfold bind. specialize (Hm w).
  destruct (m w) as [[a|e|c] w1]; simpl in *; try lia.
  specialize (Hf a w1). lia.
Qed.

Lemma no_refresh_ret {A : Type} (a : A) : refreshes_at_most 0 (ret a).
Proof. intros w. simpl. lia. Qed.

Lemma no_refresh_throw {A : Type} (e : error) : refreshes_at_most 0 (@throw A e).
Proof. intros w. simpl. lia. Qed.

Lemma no_refresh_get_config : refreshes_at_most 0 get_config.
Proof. intros w. unfold get_config. destruct (this_config w); simpl; lia. Qed.

Lemma no_refresh_get_trakt_tokens : refreshes_at_most 0 get_trakt_tokens.
Proof.
  unfold get_trakt_tokens. apply (refreshes_at_most_bind 0 0); [apply no_refresh_get_config|].
  intros c. destruct (trakt_tokens c) as [[]|];
    first [apply no_refresh_ret | apply no_refresh_throw].
Qed.

Lemma no_refresh_fetch_trakt (url : string) (o : options) :
  refreshes_at_most 0 (fetch_trakt url o).
Proof.
  intros w. unfold fetch_trakt. cbv zeta.
  destruct (trakt w (trace w) _); simpl; rewrite refreshes_app; simpl; lia.
Qed.

Lemma no_refresh_json_of {A : Type} (r : response A) : refreshes_at_most 0 (json_of r).
Proof.
  unfold json_of. destruct (resp_json r); [apply no_refresh_ret | apply no_refresh_throw].
Qed.

Lemma no_refresh_set_this_config (c : option config) :
  refreshes_at_most 0 (set_this_config c).
Proof. intros w. simpl. lia. Qed.

Lemma no_refresh_write_config_file : refreshes_at_most 0 write_config_file.
Proof. intros w. unfold write_config_file. destruct (config_writable w); simpl; lia. Qed.

Lemma no_refresh_console_log (m : message) :
  m <> RefreshingToken -> refreshes_at_most 0 (console_log m).
Proof.
  intros H w. simpl. rewrite refreshes_app. simpl.
  destruct m; simpl; try lia. contradiction.
Qed.

Lemma one_refresh_console_log : refreshes_at_most 1 (console_log RefreshingToken).
Proof. intros w. simpl. rewrite refreshes_app. simpl. lia. Qed.

Create HintDb refreshes.
#[local] Hint Resolve no_refresh_ret no_refresh_throw no_refresh_get_config
  no_refresh_get_trakt_tokens no_refresh_fetch_trakt no_refresh_json_of
  no_refresh_set_this_config no_refresh_write_config_file : refreshes.

Ltac quiet :=
  repeat first
    [ solve [auto with refreshes]
    | apply no_refresh_console_log; discriminate
    | apply (refreshes_at_most_bind 0 0); [|intros ?]
    | match goal with
      | |- refreshes_at_most _ (if ?c then _ else _) => destruct c
      end ].

Lemma one_refresh_per_refreshTraktToken (v : variant) :
  refreshes_at_most 1 (refreshTraktToken_of v).
Proof.
  destruct v; unfold_refresh;
    (apply (refreshes_at_most_bind 1 0); [apply one_refresh_console_log | intros ?]); quiet.
Qed.

(** Whatever the services answer, one call of [traktRequest] enters
    [refreshTraktToken] at most once. *)
Lemma at_most_one_refresh_per_call (v : variant) (url : string) (o : options) :
  refreshes_at_most 1 (traktRequest_of v url o).
Proof.
  destruct v; unfold_request.
  - apply (refreshes_at_most_bind 0 1); [quiet | intros tokens].
    apply (refreshes_at_most_bind 0 1); [quiet | intros c].
    apply (refreshes_at_most_bind 0 1); [quiet | intros r].
    destruct (status r =? 401)%Z;
      [|apply (refreshes_at_most_weaken 0); [lia | quiet]].
    apply (refreshes_at_most_bind 1 0);
      [apply (one_refresh_per_refreshTraktToken Manual) | intros ?; quiet].
  - apply (refreshes_at_most_bind 0 1); [quiet | intros tokens].
    apply (refreshes_at_most_bind 0 1); [quiet | intros c].
    apply (refreshes_at_most_bind 0 1); [quiet | intros r].
    destruct (status r =? 401)%Z;
      [|apply (refreshes_at_most_weaken 0); [lia | quiet]].
    apply (refreshes_at_most_bind 0 1); [quiet | intros ?].
    apply (refreshes_at_most_bind 1 0);
      [apply (one_refresh_per_refreshTraktToken Automated) | intros ?; quiet].
  - apply (refreshes_at_most_bind 0 1); [quiet | intros tokens].
    apply (refreshes_at_most_bind 0 1); [quiet | intros c].
    apply (refreshes_at_most_bind 0 1); [quiet | intros r].
    destruct (status r =? 401)%Z;
      [|apply (refreshes_at_most_weaken 0); [lia | quiet]].
    apply (refreshes_at_most_bind 1 0);
      [apply (one_refresh_per_refreshTraktToken GitHub) | intros ?; quiet].
Qed.

(** C2, as worded, fails: the first response is a 401 and the refresh
    is refused; one refresh was attempted and the request was not
    issued again. *)
Lemma refused_refresh_leaves_the_request_unretried :
  let w := world_refresh_refused in
  let sent := first_request sample_config
                (JObj [("access_token", JStr "old-access"); ("refresh_token", JStr "old-refresh")])
                trakt_users_settings no_options in
  let out := ManualSync.traktRequest trakt_users_settings no_options w in
  trakt w (trace w) sent = reply 401 "Unauthorized" None /\
  fst out = Throw RefreshFailed /\
  refreshes (trace (snd out)) = 1%nat /\
  List.length (filter (fun r => req_url r =? trakt_users_settings)
                      (requests (trace (snd out)))) = 1%nat /\
  List.length (requests (trace (snd out))) = 2%nat.
Proof. repeat split. Qed.

(** C2, amended: for every authenticated request whose first response
    is a 401, exactly one token refresh is attempted.  When that refresh
    succeeds (the token endpoint answers 2xx with a token object and,
    where the credentials are saved, the file can be written), exactly
    one re-issue occurs: the trace grows by the request, the token
    exchange and the same request again, to the same address with the
    same method and body and with the new access token in the default
    headers; the outcome of the call is the outcome of the re-issued
    request, whatever its status: a second 401 is returned to the caller
    and no second refresh is made.  When the token endpoint refuses the
    refresh, the call fails with the token-refresh error and the request
    is not issued again.  In every case a call makes at most one
    refresh. *)
Theorem unauthorized_request_is_refreshed_and_retried_once
    (v : variant) (w : world) (c : config) (tokens : json)
    (url : string) (o : options) (r1 rr : response json) :
  this_config w = Some c -> trakt_tokens c = Some tokens -> tokens <> JNull ->
  trakt w (trace w) (first_request c tokens url o) = Resolved r1 ->
  status r1 = 401%Z ->
  trakt w (trace w ++ Fetch (first_request c tokens url o) :: before_refresh v ++
                      [Console RefreshingToken])
        (refresh_request c tokens) = Resolved rr ->
  let sent := first_request c tokens url o in
  let out := traktRequest_of v url o w in
  (ok rr = true -> forall body, resp_json rr = Some body -> body <> JNull ->
   (persists v = true -> config_writable w = true) ->
   let again := retry_request c tokens body url o in
   let before_retry :=
     trace w ++ Fetch sent :: before_refresh v ++
       [Console RefreshingToken; Fetch (refresh_request c tokens)] ++ after_refresh v in
   trace (snd out) = before_retry ++ [Fetch again] /\
   refreshes (trace (snd out)) = S (refreshes (trace w)) /\
   requests (trace (snd out)) = requests (trace w) ++ [sent; refresh_request c tokens; again] /\
   req_url again = req_url sent /\
   opt_method (req_options again) = opt_method (req_options sent) /\
   opt_body (req_options again) = opt_body (req_options sent) /\
   opt_headers (req_options again) =
     or_else (opt_headers o)
             (Some (set_header "Authorization" (Bearer (prop "access_token" body))
                               (default_headers c tokens))) /\
   fst out = match trakt w before_retry again with
             | Resolved r2 => Return r2
             | Rejected => Throw NetworkError
             end /\
   (forall r2, trakt w before_retry again = Resolved r2 -> status r2 = 401%Z ->
               fst out = Return r2)) /\
  (ok rr = false ->
   fst out = Throw RefreshFailed /\
   refreshes (trace (snd out)) = S (refreshes (trace w)) /\
   requests (trace (snd out)) = requests (trace w) ++ [sent; refresh_request c tokens]) /\
  refreshes_at_most 1 (traktRequest_of v url o).
Proof.
  intros Hc Ht Hn H1 H401 Hr. cbv zeta.
  destruct (no_refresh_around v) as (B1 & B2 & B3 & B4).
  split; [|split; [|apply at_most_one_refresh_per_call]].
  - intros Hok body Hb Hbn Hw.
    rewrite (request_retried_run v w c tokens body url o r1 rr) by assumption.
    assert (T : forall fr,
               trace (snd (fetch_trakt url (req_options (retry_request c tokens body url o))
                 (with_trace
                    (if persists v
                     then with_config_file
                            (with_config w (Some (set_trakt_tokens c (Some body))))
                            (Content (this_config
                                        (with_config w (Some (set_trakt_tokens c (Some body))))))
                     else with_config w (Some (set_trakt_tokens c (Some body)))) fr))) =
               fr ++ [Fetch (retry_request c tokens body url o)]).
    { intros fr. unfold fetch_trakt. cbv zeta.
      destruct (persists v); simpl; destruct (trakt w fr _); reflexivity. }
    assert (F : forall fr,
               fst (fetch_trakt url (req_options (retry_request c tokens body url o))
                 (with_trace
                    (if persists v
                     then with_config_file
                            (with_config w (Some (set_trakt_tokens c (Some body))))
                            (Content (this_config
                                        (with_config w (Some (set_trakt_tokens c (Some body))))))
                     else with_config w (Some (set_trakt_tokens c (Some body)))) fr)) =
               match trakt w fr (retry_request c tokens body url o) with
               | Resolved r2 => Return r2
               | Rejected => Throw NetworkError
               end).
    { intros fr. unfold fetch_trakt. cbv zeta.
      destruct (persists v); simpl; unfold retry_request; simpl;
        destruct (trakt w fr _); reflexivity. }
    rewrite T, F.
    split; [reflexivity|]. split; [|split; [|repeat split]].
    + rewrite !refreshes_app. simpl. rewrite !refreshes_app, B1. simpl. rewrite B2. lia.
    + rewrite !requests_app. simpl. rewrite !requests_app, B3. simpl. rewrite B4.
      now rewrite <- app_assoc.
    + intros r2 H2 _. now rewrite H2.
  - intros Hok.
    rewrite (request_not_retried_run v w c tokens url o r1 rr) by assumption.
    simpl fst. simpl snd. simpl trace. repeat split.
    + rewrite !refreshes_app. simpl. rewrite !refreshes_app, B1. simpl. lia.
    + rewrite !requests_app. simpl. rewrite !requests_app, B3. reflexivity.
Qed.

(** The theorem at a destination that answers 401 to everything and
    grants the refresh: one refresh, three requests, the second 401
    returned. *)
Lemma unauthorized_request_is_refreshed_and_retried_once_example :
  let out := traktRequest_of Manual trakt_users_settings no_options world_always_401 in
  refreshes (trace (snd out)) = 1%nat /\
  List.length (requests (trace (snd out))) = 3%nat /\
  fst out = Return {| status := 401; statusText := "Unauthorized"; resp_json := None |}.
Proof.
  pose proof (proj1 (unauthorized_request_is_refreshed_and_retried_once
                       Manual world_always_401 sample_config
                       (JObj [("access_token", JStr "old-access");
                              ("refresh_token", JStr "old-refresh")])
                       trakt_users_settings no_options
                       {| status := 401; statusText := "Unauthorized"; resp_json := None |}
                       {| status := 200; statusText := "OK"; resp_json := Some new_tokens |}
                       eq_refl eq_refl ltac:(discriminate) eq_refl eq_refl eq_refl)
                eq_refl new_tokens eq_refl ltac:(discriminate) (fun _ => eq_refl)) as H.
  cbv zeta in H. destruct H as (_ & H2 & H3 & _ & _ & _ & _ & H8 & _).
  split; [exact H2 | split; [rewrite H3; reflexivity | exact H8]].
Defined.

(** *** The refresh itself *)

Lemma try_catch_throw {A : Type} (m : M A) (h : error -> M A) (w w' : world) (e : error) :
  m w = (Throw e, w') -> try_catch m h w = h e w'.
Proof. intros H. unfold try_catch. now rewrite H. Qed.

Lemma try_catch_return {A : Type} (m : M A) (h : error -> M A) (w w' : world) (a : A) :
  m w = (Return a, w') -> try_catch m h w = (Return a, w').
Proof. intros H. unfold try_catch. now rewrite H. Qed.

Lemma fetch_simkl_eq (w : world) (url : string) (o : options) (r : response watched_items) :
  simkl w (trace w) {| req_url := url; req_options := o |} = Resolved r ->
  fetch_simkl url o w =
  (Return r, with_trace w (trace w ++ [Fetch {| req_url := url; req_options := o |}])).
Proof. intros H. unfold fetch_simkl. cbv zeta. now rewrite H. Qed.

Lemma read_config_file_eq (w : world) (c : option config) :
  config_file w = Content c -> read_config_file w = (Return c, w).
Proof. intros H. unfold read_config_file. now rewrite H. Qed.

(** The start of a run, up to the [try] block. *)
Lemma manual_loadConfig_eq (w : world) (c : option config) :
  config_file w = Content c -> ManualSync.loadConfig w = (Return true, with_config w c).
Proof.
  intros H. unfold ManualSync.loadConfig.
  erewrite try_catch_return; [reflexivity|].
  erewrite bind_return by (apply read_config_file_eq; eassumption).
  now step.
Qed.

Lemma auto_loadConfig_eq (w : world) (c : option config) :
  config_file w = Content c ->
  AutomatedTraktSync.loadConfig w =
  (Return true, with_trace (with_config w c) (trace w ++ [Console ConfigurationLoaded])).
Proof.
  intros H. unfold AutomatedTraktSync.loadConfig.
  erewrite try_catch_return; [reflexivity|].
  erewrite bind_return by (apply read_config_file_eq; eassumption).
  do 2 step. reflexivity.
Qed.


Lemma getSimklWatched_eq (w : world) (c : config) (s : response watched_items)
    (watched : watched_items) :
  this_config w = Some c ->
  simkl w (trace w ++ [Console FetchingSimkl]) (simkl_request c) = Resolved s ->
  ok s = true -> resp_json s = Some watched ->
  ManualSync.getSimklWatched w =
  (Return watched,
   with_trace w (trace w ++ [Console FetchingSimkl; Fetch (simkl_request c);
                             Console SimklFetched])).
Proof.
  intros Hc Hs Hok Hj. unfold ManualSync.getSimklWatched, ManualSync.fetchJSON.
  do 2 step.
  erewrite bind_return.
  2:{ erewrite bind_return by (apply fetch_simkl_eq; simpl; exact Hs).
      rewrite Hok. simpl negb. cbv iota. apply json_of_eq. exact Hj. }
  step. unfold ret. same_world.
Qed.

(** The three loops over the same source text. *)
Lemma getSimklWatched_same :
  AutomatedTraktSync.getSimklWatched = ManualSync.getSimklWatched /\
  GitHubSync.getSimklWatched = ManualSync.getSimklWatched.
Proof. split; reflexivity. Qed.

(* ================================================================== *)
(** ** The submission and the end of the run                           *)
(* ================================================================== *)




Lemma ok_is_not_401 {A : Type} (r : response A) : ok r = true -> status r <> 401%Z.
Proof.
  unfold ok. intros H. apply andb_prop in H as [_ H]. apply Z.leb_le in H. lia.
Qed.

(** A first response other than 401 is the outcome of the call. *)
Lemma request_answered_run (v : variant) (w : world) (c : config) (tokens : json)
    (url : string) (o : options) (r : response json) :
  this_config w = Some c -> trakt_tokens c = Some tokens -> tokens <> JNull ->
  trakt w (trace w) (first_request c tokens url o) = Resolved r ->
  status r <> 401%Z ->
  traktRequest_of v url o w =
  (Return r, with_trace w (trace w ++ [Fetch (first_request c tokens url o)])).
Proof.
  intros Hc Ht Hn H1 H401. apply Z.eqb_neq in H401.
  destruct v; unfold_request; do 3 step; rewrite H401; reflexivity.
Qed.

Lemma handler_exits (v : variant) (e : error) (w : world) :
  exists w', handler_of v e w = (Exit 1, w') /\
             trace w' = trace w ++ [Console (SyncFailedError e)].
Proof.
  destruct v; simpl handler_of.
  - eexists. split; [step; reflexivity | reflexivity].
  - step. erewrite bind_return by reflexivity.
    erewrite bind_return by apply logSyncResult_run.
    eexists. split; [reflexivity|].
    simpl. destruct (log_entries (log_file w)); [destruct (log_writable w)|]; reflexivity.
  - eexists. split; [step; reflexivity | reflexivity].
Qed.

(** From the start of a run to its submission. *)
Lemma run_reaches_submit (v : variant) (w : world) (c : config) (tokens : json)
    (s : response watched_items) (watched : watched_items) (rp : response json) :
  configured v w c -> trakt_tokens c = Some tokens -> tokens <> JNull ->
  (forall t, simkl w t (simkl_request c) = Resolved s) ->
  ok s = true -> resp_json s = Some watched ->
  (forall t, trakt w t (first_request c tokens trakt_users_settings no_options) = Resolved rp) ->
  ok rp = true ->
  main_of v w =
  try_catch (submit_of v (normalize_of v watched)) (handler_of v)
    (with_trace (with_config w (Some c)) (trace w ++ events_before_submit v c tokens)).
Proof.
  intros Hc Ht Hn Hs Hsok Hsj Hp Hpok.
  pose proof (ok_is_not_401 rp Hpok) as Hp401.
  destruct v; simpl in Hc; simpl main_of; simpl submit_of; simpl normalize_of.
  - set (ws := with_trace (with_config w (Some c)) (trace w ++ events_before_submit Manual c tokens)).
    assert (E : ManualSync.sync w =
                try_catch (ManualSync.submit (ManualSync.normalize watched))
                          (handler_of Manual) ws).
    { unfold ManualSync.sync, ManualSync.sync_body, ManualSync.initializeTrakt.
      erewrite bind_return by (apply manual_loadConfig_eq; exact Hc).
      simpl negb. cbv iota. erewrite bind_return by reflexivity. step.
      unfold try_catch at 1 2.
      erewrite bind_return
        by (eapply (getSimklWatched_eq _ c s watched); simpl; auto).
      erewrite bind_return.
      2:{ erewrite bind_return
            by (apply (request_answered_run Manual _ c tokens _ _ rp); simpl; auto).
          rewrite Hpok. apply console_log_eq. }
      subst ws. simpl. rewrite <- !app_assoc. reflexivity. }
    unfold ManualSync.main. unfold try_catch at 1. rewrite E.
    unfold try_catch.
    destruct (ManualSync.submit (ManualSync.normalize watched) ws) as [[[]|e|code] w'];
      reflexivity.
  - set (ws := with_trace (with_config w (Some c))
                 (trace w ++ events_before_submit Automated c tokens)).
    assert (E : AutomatedTraktSync.autoSync w =
                try_catch (AutomatedTraktSync.submit (AutomatedTraktSync.normalize watched))
                          (handler_of Automated) ws).
    { unfold AutomatedTraktSync.autoSync, AutomatedTraktSync.autoSync_body,
        AutomatedTraktSync.initializeTrakt.
      step.
      erewrite bind_return by (apply auto_loadConfig_eq; exact Hc).
      simpl negb. cbv iota. erewrite bind_return by reflexivity.
      unfold try_catch at 1 2.
      rewrite (proj1 getSimklWatched_same).
      erewrite bind_return
        by (eapply (getSimklWatched_eq _ c s watched); simpl; auto).
      erewrite bind_return.
      2:{ step.
          erewrite bind_return
            by (apply (request_answered_run Automated _ c tokens _ _ rp); simpl; auto).
          rewrite Hpok. apply console_log_eq. }
      subst ws. simpl. rewrite <- !app_assoc. reflexivity. }
    unfold AutomatedTraktSync.main. rewrite String.eqb_refl.
    unfold try_catch at 1. rewrite E.
    unfold try_catch.
    destruct (AutomatedTraktSync.submit (AutomatedTraktSync.normalize watched) ws)
      as [[[]|e|code] w']; try reflexivity.
    destruct (handler_exits Automated e w') as (w'' & H & _).
    now rewrite H.
  - set (ws := with_trace (with_config w (Some c))
                 (trace w ++ events_before_submit GitHub c tokens)).
    assert (E : GitHubSync.sync (with_config w (Some c)) =
                try_catch (GitHubSync.submit (GitHubSync.normalize watched))
                          (handler_of GitHub) ws).
    { unfold GitHubSync.sync, GitHubSync.sync_body.
      step. unfold try_catch at 1 2.
      rewrite (proj2 getSimklWatched_same).
      erewrite bind_return
        by (eapply (getSimklWatched_eq _ c s watched); simpl; auto).
      step.
      erewrite bind_return
        by (apply (request_answered_run GitHub _ c tokens _ _ rp); simpl; auto).
      rewrite Hpok. simpl negb. cbv iota. erewrite bind_return by reflexivity.
      step. subst ws. simpl. rewrite <- !app_assoc. reflexivity. }
    unfold GitHubSync.main, GitHubSync.constructor.
    erewrite bind_return.
    2:{ erewrite bind_return by exact Hc. reflexivity. }
    unfold try_catch at 1. rewrite E.
    unfold try_catch.
    destruct (GitHubSync.submit (GitHubSync.normalize watched) ws) as [[[]|e|code] w'];
      reflexivity.
Qed.

Ltac same_requests :=
  simpl; rewrite ?requests_app; simpl; rewrite <- ?app_assoc; simpl;
  rewrite ?app_nil_r; reflexivity.

(** A submission the history endpoint refuses (with a status other than
    401): sync.mjs prints the failure and returns, sync-auto.mjs and
    sync-github.js throw; what sync-auto.mjs throws depends on whether
    the body of the response can be read. *)
Lemma refused_submission_run (v : variant) (payload : traktObject) (w : world) (c : config)
    (tokens : json) (r : response json) :
  this_config w = Some c -> trakt_tokens c = Some tokens -> tokens <> JNull ->
  nothing_to_sync payload = false ->
  trakt w (trace w ++ before_submit v payload) (history_request c tokens payload) = Resolved r ->
  ok r = false -> status r <> 401%Z ->
  exists e w',
    submit_of v payload w =
      (match v with
       | Manual => Return tt
       | _ => Throw e
       end, w') /\
    requests (trace w') = requests (trace w) ++ [history_request c tokens payload].
Proof.
  intros Hc Ht Hn Hp Hr Hok H401.
  destruct v; simpl submit_of; simpl in Hr;
    unfold ManualSync.submit, AutomatedTraktSync.submit, GitHubSync.submit.
  - step.
    erewrite bind_return.
    2:{ apply (request_answered_run Manual _ c tokens _ _ r); simpl; auto. }
    rewrite Hok. exists RefreshFailed. eexists. split; [apply console_log_eq|].
    same_requests.
  - step. rewrite Hp. step.
    erewrite bind_return.
    2:{ apply (request_answered_run Automated _ c tokens _ _ r); simpl; auto.
        rewrite <- app_assoc. exact Hr. }
    rewrite Hok.
    match goal with
    | |- context [bind (text_of r) ?k ?w1] =>
        destruct (read_text w1 (trace w1) r) as [text|] eqn:T
    end.
    + erewrite bind_return by (apply text_of_eq; exact T).
      step. erewrite bind_return by reflexivity.
      erewrite bind_return by apply logSyncResult_run.
      do 2 eexists. split; [reflexivity|].
      simpl. destruct (log_entries (log_file w)); [destruct (log_writable w)|]; simpl;
        same_requests.
    + erewrite bind_throw by (apply text_of_fails; exact T).
      do 2 eexists. split; [reflexivity|]. same_requests.
  - step. rewrite Hp.
    erewrite bind_return.
    2:{ apply (request_answered_run GitHub _ c tokens _ _ r); simpl; auto. }
    rewrite Hok. do 2 eexists. split; [reflexivity|].
    same_requests.
Qed.

(** The exit code of a run whose submission is refused: 0 for sync.mjs,
    1 for sync-auto.mjs and sync-github.js. *)
Lemma run_with_refused_submission (v : variant) (w : world) (c : config) (tokens : json)
    (s : response watched_items) (watched : watched_items) (rp r : response json) :
  configured v w c -> trakt_tokens c = Some tokens -> tokens <> JNull ->
  (forall t, simkl w t (simkl_request c) = Resolved s) ->
  ok s = true -> resp_json s = Some watched ->
  (forall t, trakt w t (first_request c tokens trakt_users_settings no_options) = Resolved rp) ->
  ok rp = true ->
  nothing_to_sync (normalize_of v watched) = false ->
  (forall t, trakt w t (history_request c tokens (normalize_of v watched)) = Resolved r) ->
  ok r = false -> status r <> 401%Z ->
  exit_code (fst (main_of v w)) = match v with Manual => 0%Z | _ => 1%Z end.
Proof.
  intros Hc Ht Hn Hs Hsok Hsj Hp Hpok Hne Hr Hok H401.
  rewrite (run_reaches_submit v w c tokens s watched rp) by assumption.
  destruct (refused_submission_run v (normalize_of v watched)
              (with_trace (with_config w (Some c)) (trace w ++ events_before_submit v c tokens))
              c tokens r) as (e & w' & E & _); simpl; auto.
  unfold try_catch. rewrite E.
  destruct (handler_exits v e w') as (w'' & H & _).
  destruct v; [reflexivity | |]; now rewrite H.
Qed.



(** C3 fails in sync.mjs: with nothing watched at the source, both
    collections of the payload are empty, and the run still posts that
    payload to the history endpoint and reports a completed sync; on the
    same input sync-auto.mjs and sync-github.js post nothing and report
    that there is nothing to sync. *)
Theorem manual_submits_an_empty_payload :
  let out := ManualSync.main world_nothing_watched in
  ManualSync.normalize nothing_watched = {| movies := []; shows := [] |} /\
  history_calls (trace (snd out)) =
    [ history_request sample_config
        (JObj [("access_token", JStr "old-access"); ("refresh_token", JStr "old-refresh")])
        {| movies := []; shows := [] |} ] /\
  console (trace (snd out)) =
    [StartingManualSync; FetchingSimkl; SimklFetched; ConnectionSuccessful; Counts 0 0;
     SyncCompleted (JNum 0) (JNum 0)] /\
  history_calls (trace (snd (AutomatedTraktSync.main (Some "auto-sync") world_nothing_watched)))
    = [] /\
  console (trace (snd (AutomatedTraktSync.main (Some "auto-sync") world_nothing_watched))) =
    [StartingAutoSync; ConfigurationLoaded; FetchingSimkl; SimklFetched; TestingConnection;
     ConnectionSuccessful; Counts 0 0; NoNewItems] /\
  history_calls (trace (snd (GitHubSync.main world_nothing_watched))) = [] /\
  console (trace (snd (GitHubSync.main world_nothing_watched))) =
    [StartingGitHubSync; FetchingSimkl; SimklFetched; TestingConnection;
     ConnectionSuccessful; Counts 0 0; NoNewItems].
Proof. repeat split. Qed.

(** C4 fails in sync.mjs: the history endpoint answers 500, the run
    prints the failure and ends with exit code 0; on the same input
    sync-auto.mjs and sync-github.js end with exit code 1. *)
Theorem manual_exits_zero_when_the_submission_is_refused :
  let out := ManualSync.main world_submit_refused in
  fst out = Return tt /\
  exit_code (fst out) = 0%Z /\
  console (trace (snd out)) =
    [StartingManualSync; FetchingSimkl; SimklFetched; ConnectionSuccessful; Counts 1 0;
     SyncFailedStatus 500 "Internal Server Error"] /\
  exit_code (fst (AutomatedTraktSync.main (Some "auto-sync") world_submit_refused)) = 1%Z /\
  exit_code (fst (GitHubSync.main world_submit_refused)) = 1%Z.
Proof. repeat split. Qed.

(** *** The other ends of a run *)

(** sync.mjs and sync-auto.mjs without a configuration file that can be
    read and parsed: exit code 1. *)
Lemma missing_configuration_ends_the_run (w : world) :
  config_file w = Missing \/ config_file w = Corrupt ->
  fst (ManualSync.main w) = Exit 1 /\
  fst (AutomatedTraktSync.main (Some "auto-sync") w) = Exit 1.
Proof.
  intros H.
  unfold ManualSync.main, ManualSync.sync, ManualSync.loadConfig,
    AutomatedTraktSync.main, AutomatedTraktSync.autoSync, AutomatedTraktSync.loadConfig,
    try_catch, bind, read_config_file, console_log, process_exit, ret.
  rewrite String.eqb_refl. simpl.
  destruct H as [H | H]; rewrite H; simpl; split; reflexivity.
Qed.

(** A source that answers with a status outside 2xx: exit code 1, at
    every entry point. *)
Lemma source_failure_ends_the_run (v : variant) (w : world) (c : config)
    (s : response watched_items) :
  configured v w c ->
  (forall t, simkl w t (simkl_request c) = Resolved s) -> ok s = false ->
  fst (main_of v w) = Exit 1.
Proof.
  intros Hc Hs Hok.
  assert (G : forall w1, this_config w1 = Some c -> simkl w1 = simkl w ->
              exists w2, ManualSync.getSimklWatched w1 =
                         (Throw (HttpError (status s) (statusText s)), w2)).
  { intros w1 H1 H2. unfold ManualSync.getSimklWatched, ManualSync.fetchJSON.
    do 2 step. eexists. erewrite bind_throw; [reflexivity|].
    erewrite bind_return.
    2:{ apply fetch_simkl_eq. simpl. rewrite H2. apply Hs. }
    rewrite Hok. reflexivity. }
  destruct v; simpl in Hc; simpl main_of.
  - unfold ManualSync.main, ManualSync.sync, ManualSync.sync_body.
    unfold try_catch at 1.
    erewrite bind_return by (apply manual_loadConfig_eq; exact Hc).
    simpl negb. cbv iota. erewrite bind_return by reflexivity. step.
    edestruct G as (w2 & E); [| |erewrite try_catch_throw;
                                    [|erewrite bind_throw; [reflexivity | exact E]]];
      [reflexivity | reflexivity |].
    reflexivity.
  - unfold AutomatedTraktSync.main, AutomatedTraktSync.autoSync,
      AutomatedTraktSync.autoSync_body.
    rewrite String.eqb_refl. unfold try_catch at 1. step.
    erewrite bind_return by (apply auto_loadConfig_eq; exact Hc).
    simpl negb. cbv iota. erewrite bind_return by reflexivity.
    rewrite (proj1 getSimklWatched_same).
    edestruct G as (w2 & E); [| |erewrite try_catch_throw;
                                    [|erewrite bind_throw; [reflexivity | exact E]]];
      [reflexivity | reflexivity |].
    destruct (handler_exits Automated (HttpError (status s) (statusText s)) w2)
      as (w3 & H & _).
    unfold handler_of in H. now rewrite H.
  - unfold GitHubSync.main, GitHubSync.constructor, GitHubSync.sync, GitHubSync.sync_body.
    erewrite bind_return.
    2:{ erewrite bind_return by exact Hc. reflexivity. }
    unfold try_catch at 1. step.
    rewrite (proj2 getSimklWatched_same).
    edestruct G as (w2 & E); [| |erewrite try_catch_throw;
                                    [|erewrite bind_throw; [reflexivity | exact E]]];
      [reflexivity | reflexivity |].
    reflexivity.
Qed.


(* ================================================================== *)
(** ** More on the schema normaliser                                   *)
(* ================================================================== *)

(** The collections are folded entry by entry, in source order: the
    payload of a concatenation is the concatenation of the payloads, so
    nothing is sorted or merged and an entry that comes twice is emitted
    twice; the shows of the snapshot come before its anime entries. *)
Theorem normalize_keeps_order_and_duplicates (v : variant) :
  (forall l1 l2,
     movies (normalize_of v (only_movies (l1 ++ l2))) =
     movies (normalize_of v (only_movies l1)) ++ movies (normalize_of v (only_movies l2))) /\
  (forall l1 l2,
     shows (normalize_of v (only_shows (l1 ++ l2))) =
     shows (normalize_of v (only_shows l1)) ++ shows (normalize_of v (only_shows l2))) /\
  (forall l1 l2,
     shows (normalize_of v (only_anime (l1 ++ l2))) =
     shows (normalize_of v (only_anime l1)) ++ shows (normalize_of v (only_anime l2))) /\
  (forall w,
     normalize_of v w =
     {| movies := movies (normalize_of v (only_movies (items (watched_movies w))));
        shows := shows (normalize_of v (only_shows (items (watched_shows w)))) ++
                 shows (normalize_of v (only_anime (items (watched_anime w)))) |}).
Proof.
  repeat split; intros; rewrite !normalize_of_closed; simpl.
  - now rewrite filter_app, map_app.
  - destruct v; simpl; now rewrite ?app_nil_r, flat_map_app.
  - destruct v; simpl; now rewrite ?flat_map_app.
  - f_equal. destruct v; simpl; now rewrite ?app_nil_r.
Qed.

Lemma truthy_js_or (own parent : jsstring) :
  truthy parent = true -> truthy (js_or own parent) = true.
Proof.
  intros H. unfold js_or. destruct (truthy own) eqn:E; assumption.
Qed.

(** Every [watched_at] of the payload is a non-empty string: that of a
    movie, that of a show and that of every episode. *)
Theorem payload_timestamps_are_non_empty (v : variant) (w : watched_items) :
  (forall m, In m (movies (normalize_of v w)) -> truthy (mv_watched_at m) = true) /\
  (forall o, In o (shows (normalize_of v w)) ->
     truthy (sh_watched_at o) = true /\
     forall so eo, In so (sh_seasons o) -> In eo (se_episodes so) ->
                   truthy (ep_watched_at eo) = true).
Proof.
  rewrite movies_normalize_of, shows_normalize_of. split.
  - intros m Hm. apply in_map_iff in Hm as (x & <- & Hx).
    apply filter_In in Hx as [_ K]. exact K.
  - intros o Ho.
    assert (K : exists e, truthy (show_last_watched_at e) = true /\
                  (o = show_item e (folded_seasons e) \/
                   o = show_item e (AutomatedTraktSync.map_anime_seasons e))).
    { apply in_app_or in Ho as [Ho | Ho].
      - apply in_flat_map in Ho as (e & _ & Ho). apply in_fold_entry in Ho as [T ->].
        exists e. split; [assumption | now left].
      - apply in_anime_part in Ho as (e & _ & T & [[_ ->] | [_ ->]]);
          exists e; (split; [assumption|]); [now left | now right]. }
    destruct K as (e & T & [-> | ->]); simpl; (split; [assumption|]); intros so eo Hso Heo.
    + apply in_folded_seasons in Hso as (s & _ & _ & ->).
      unfold season_item in Heo. simpl in Heo.
      apply in_map_iff in Heo as (ep & <- & _). simpl. now apply truthy_js_or.
    + apply in_auto_anime_seasons in Hso as (s & _ & _ & ->). simpl in Heo.
      apply in_all_anime_episodes in Heo as (s' & eps & ep & _ & _ & _ & ->).
      simpl. now apply truthy_js_or.
Qed.

(** The payload at the example of two movies, the first of them kept. *)
Lemma payload_timestamps_are_non_empty_example :
  truthy (mv_watched_at (movie_item movie_2024)) = true.
Proof.
  apply (proj1 (payload_timestamps_are_non_empty Manual (only_movies [movie_2024; movie_blank]))).
  simpl. now left.
Defined.

Lemma auto_fold_anime_single_season (e : show_entry) :
  (List.length (items (show_seasons e)) <= 1)%nat -> auto_fold_anime e = fold_entry e.
Proof.
  intros H. unfold auto_fold_anime, fold_entry, folded_seasons,
    AutomatedTraktSync.map_anime_seasons, AutomatedTraktSync.all_anime_episodes.
  destruct (truthy (show_last_watched_at e)); [|reflexivity].
  destruct (show_seasons e) as [[|s [|s' ss]]|]; simpl in *; try reflexivity; [|lia].
  unfold has_episodes, season_has_episodes, season_item. simpl.
  destruct (season_episodes s) as [[|ep eps]|] eqn:E; simpl; rewrite ?E; try reflexivity.
  simpl. now rewrite app_nil_r.
Qed.

(** sync.mjs and sync-auto.mjs build the same payload from every
    snapshot whose anime entries have at most one season each: the two
    differ only in how they spread the episodes of an anime entry over
    several seasons. *)
Theorem manual_and_auto_agree_on_single_season_anime (w : watched_items) :
  (forall e, In e (items (watched_anime w)) ->
             (List.length (items (show_seasons e)) <= 1)%nat) ->
  AutomatedTraktSync.normalize w = ManualSync.normalize w.
Proof.
  intros H. rewrite auto_normalize_closed, manual_normalize_closed. f_equal. f_equal.
  induction (items (watched_anime w)) as [|e l IH]; simpl; [reflexivity|].
  rewrite IH by (intros x Hx; apply H; now right).
  rewrite auto_fold_anime_single_season by (apply H; now left). reflexivity.
Qed.

Lemma manual_and_auto_agree_on_single_season_anime_example :
  AutomatedTraktSync.normalize (only_anime [blank_episode_show]) =
  ManualSync.normalize (only_anime [blank_episode_show]).
Proof.
  apply manual_and_auto_agree_on_single_season_anime.
  intros e [<- | []]. simpl. lia.
Defined.

(** The three entry points build the same payload from every snapshot
    without anime entries; sync-github.js builds, from any snapshot, the
    payload the other two build once the anime collection is removed. *)
Theorem entry_points_agree_without_anime (w : watched_items) :
  GitHubSync.normalize w =
    ManualSync.normalize {| watched_movies := watched_movies w;
                            watched_shows := watched_shows w;
                            watched_anime := None |} /\
  GitHubSync.normalize w =
    AutomatedTraktSync.normalize {| watched_movies := watched_movies w;
                                    watched_shows := watched_shows w;
                                    watched_anime := None |} /\
  (items (watched_anime w) = [] ->
   ManualSync.normalize w = GitHubSync.normalize w /\
   AutomatedTraktSync.normalize w = GitHubSync.normalize w).
Proof.
  rewrite github_normalize_closed, !manual_normalize_closed, !auto_normalize_closed. simpl.
  rewrite !app_nil_r. split; [reflexivity | split; [reflexivity|]].
  intros H. rewrite H. simpl. rewrite !app_nil_r. split; reflexivity.
Qed.

Lemma entry_points_agree_without_anime_example :
  ManualSync.normalize (only_shows [two_seasons]) = GitHubSync.normalize (only_shows [two_seasons]).
Proof.
  apply (proj2 (proj2 (entry_points_agree_without_anime (only_shows [two_seasons])))).
  reflexivity.
Defined.

(* ================================================================== *)
(** ** The credentials and their file                                  *)
(* ================================================================== *)



(** *** Refreshes that are granted and still fail *)

(** An error thrown by the refresh goes through [traktRequest]: the
    request is not sent again. *)
Lemma request_refresh_throws_run (v : variant) (w w2 : world) (c : config) (tokens : json)
    (url : string) (o : options) (r1 : response json) (e : error) :
  this_config w = Some c -> trakt_tokens c = Some tokens -> tokens <> JNull ->
  trakt w (trace w) (first_request c tokens url o) = Resolved r1 ->
  status r1 = 401%Z ->
  refreshTraktToken_of v
    (with_trace w (trace w ++ Fetch (first_request c tokens url o) :: before_refresh v)) =
    (Throw e, w2) ->
  traktRequest_of v url o w = (Throw e, w2).
Proof.
  intros Hc Ht Hn H1 H401 Hr.
  destruct v; unfold_request; simpl in Hr; do 3 step; rewrite H401, Z.eqb_refl.
  - erewrite bind_throw; [reflexivity | exact Hr].
  - step. erewrite bind_throw; [reflexivity|].
    simpl. rewrite app_cons_app. exact Hr.
  - erewrite bind_throw; [reflexivity | exact Hr].
Qed.

(** sync.mjs and sync-auto.mjs, when the token endpoint grants the
    refresh and the configuration file cannot be written: the new token
    object is in memory, the file is as it was, the refresh fails with
    the error of the write and the request that met the 401 is not sent
    again. *)
Theorem unwritable_configuration_fails_the_refresh
    (v : variant) (w : world) (c : config) (tokens body : json)
    (url : string) (o : options) (r1 rr : response json) :
  persists v = true -> config_writable w = false ->
  this_config w = Some c -> trakt_tokens c = Some tokens -> tokens <> JNull ->
  trakt w (trace w) (first_request c tokens url o) = Resolved r1 ->
  status r1 = 401%Z ->
  trakt w (trace w ++ Fetch (first_request c tokens url o) :: before_refresh v ++
                      [Console RefreshingToken])
        (refresh_request c tokens) = Resolved rr ->
  ok rr = true -> resp_json rr = Some body ->
  let out := traktRequest_of v url o w in
  fst out = Throw FileError /\
  this_config (snd out) = Some (set_trakt_tokens c (Some body)) /\
  config_file (snd out) = config_file w /\
  requests (trace (snd out)) =
    requests (trace w) ++ [first_request c tokens url o; refresh_request c tokens].
Proof.
  intros Hp Hw Hc Ht Hn H1 H401 Hr Hok Hb. cbv zeta.
  assert (E : exists w2,
             refreshTraktToken_of v
               (with_trace w (trace w ++ Fetch (first_request c tokens url o) ::
                                before_refresh v)) = (Throw FileError, w2) /\
             this_config w2 = Some (set_trakt_tokens c (Some body)) /\
             config_file w2 = config_file w /\
             requests (trace w2) =
               requests (trace w) ++ [first_request c tokens url o; refresh_request c tokens]).
  { destruct v; try discriminate; simpl in Hr; unfold_refresh; do 3 step;
      (erewrite bind_return
         by (apply fetch_trakt_eq; simpl; rewrite <- app_assoc; simpl; exact Hr));
      rewrite Hok; do 2 step;
      (erewrite bind_throw;
         [|unfold write_config_file; simpl; rewrite Hw; reflexivity]);
      eexists; (split; [reflexivity|]); simpl; repeat split;
      rewrite !requests_app; simpl; rewrite ?requests_app; simpl;
      rewrite <- ?app_assoc; reflexivity. }
  destruct E as (w2 & E & K1 & K2 & K3).
  rewrite (request_refresh_throws_run v w w2 c tokens url o r1 FileError) by assumption.
  simpl. repeat split; assumption.
Qed.

Lemma unwritable_configuration_fails_the_refresh_example :
  let out := traktRequest_of Manual trakt_users_settings no_options world_read_only in
  fst out = Throw FileError /\
  this_config (snd out) = Some (set_trakt_tokens sample_config (Some new_tokens)) /\
  config_file (snd out) = Content (Some sample_config).
Proof.
  pose proof (unwritable_configuration_fails_the_refresh
                Manual world_read_only sample_config old_tokens new_tokens
                trakt_users_settings no_options
                {| status := 401; statusText := "Unauthorized"; resp_json := None |}
                {| status := 200; statusText := "OK"; resp_json := Some new_tokens |}
                eq_refl eq_refl eq_refl eq_refl ltac:(discriminate) eq_refl eq_refl eq_refl
                eq_refl eq_refl) as H.
  cbv zeta in H. destruct H as (H1 & H2 & H3 & _).
  split; [exact H1 | split; [exact H2 | exact H3]].
Defined.

Lemma get_trakt_tokens_null (w : world) (c : config) :
  this_config w = Some c -> trakt_tokens c = Some JNull ->
  get_trakt_tokens w = (Throw (TypeError "this.config.trakt_tokens"), w).
Proof.
  intros Hc Ht. unfold get_trakt_tokens.
  rewrite (bind_return _ _ _ _ _ (get_config_eq w c Hc)), Ht. reflexivity.
Qed.

(** A token endpoint that answers 2xx without a token object.  With a
    body that is not JSON the refresh fails, credentials and file
    untouched.  With the body [null] the refresh succeeds: [null]
    becomes the token object, in memory and, where the credentials are
    saved, in the configuration file; reading the access token from it
    then fails.  In both cases the request that met the 401 is not sent
    again. *)
Theorem refresh_without_token_object_is_not_retried
    (v : variant) (w : world) (c : config) (tokens : json)
    (url : string) (o : options) (r1 rr : response json) :
  this_config w = Some c -> trakt_tokens c = Some tokens -> tokens <> JNull ->
  trakt w (trace w) (first_request c tokens url o) = Resolved r1 ->
  status r1 = 401%Z ->
  trakt w (trace w ++ Fetch (first_request c tokens url o) :: before_refresh v ++
                      [Console RefreshingToken])
        (refresh_request c tokens) = Resolved rr ->
  ok rr = true ->
  let out := traktRequest_of v url o w in
  (resp_json rr = None ->
   fst out = Throw SyntaxError /\
   this_config (snd out) = this_config w /\
   config_file (snd out) = config_file w /\
   requests (trace (snd out)) =
     requests (trace w) ++ [first_request c tokens url o; refresh_request c tokens]) /\
  (resp_json rr = Some JNull -> (persists v = true -> config_writable w = true) ->
   fst out = Throw (TypeError "this.config.trakt_tokens") /\
   this_config (snd out) = Some (set_trakt_tokens c (Some JNull)) /\
   (persists v = true ->
    config_file (snd out) = Content (Some (set_trakt_tokens c (Some JNull)))) /\
   requests (trace (snd out)) =
     requests (trace w) ++ [first_request c tokens url o; refresh_request c tokens]).
Proof.
  intros Hc Ht Hn H1 H401 Hr Hok. cbv zeta.
  destruct (no_refresh_around v) as (_ & _ & B3 & B4).
  split.
  - intros Hb.
    assert (E : exists w2,
               refreshTraktToken_of v
                 (with_trace w (trace w ++ Fetch (first_request c tokens url o) ::
                                  before_refresh v)) = (Throw SyntaxError, w2) /\
               this_config w2 = this_config w /\
               config_file w2 = config_file w /\
               requests (trace w2) =
                 requests (trace w) ++
                   [first_request c tokens url o; refresh_request c tokens]).
    { destruct v; simpl in Hr; unfold_refresh; do 3 step;
        (erewrite bind_return
           by (apply fetch_trakt_eq; simpl; rewrite <- app_assoc; simpl; exact Hr));
        rewrite Hok;
        (erewrite bind_throw; [|unfold json_of; rewrite Hb; reflexivity]);
        eexists; (split; [reflexivity|]); simpl; repeat split;
        rewrite !requests_app; simpl; rewrite ?requests_app; simpl;
        rewrite <- ?app_assoc; reflexivity. }
    destruct E as (w2 & E & K1 & K2 & K3).
    rewrite (request_refresh_throws_run v w w2 c tokens url o r1 SyntaxError) by assumption.
    simpl. repeat split; assumption.
  - intros Hb Hw.
    assert (G : refreshTraktToken_of v
                  (with_trace w (trace w ++ Fetch (first_request c tokens url o) ::
                                   before_refresh v)) =
                (Return tt,
                 with_trace
                   (let w' := with_config
                                (with_trace w (trace w ++
                                   Fetch (first_request c tokens url o) :: before_refresh v))
                                (Some (set_trakt_tokens c (Some JNull))) in
                    if persists v then with_config_file w' (Content (this_config w')) else w')
                   ((trace w ++ Fetch (first_request c tokens url o) :: before_refresh v) ++
                      [Console RefreshingToken; Fetch (refresh_request c tokens)] ++
                      after_refresh v))).
    { rewrite (refresh_granted_run v
                 (with_trace w (trace w ++ Fetch (first_request c tokens url o) ::
                                  before_refresh v)) c tokens JNull rr);
        [reflexivity | simpl; auto ..].
      simpl. rewrite <- app_assoc. exact Hr. }
    assert (E : exists w2,
               traktRequest_of v url o w = (Throw (TypeError "this.config.trakt_tokens"), w2) /\
               this_config w2 = Some (set_trakt_tokens c (Some JNull)) /\
               (persists v = true ->
                config_file w2 = Content (Some (set_trakt_tokens c (Some JNull)))) /\
               requests (trace w2) =
                 requests (trace w) ++
                   [first_request c tokens url o; refresh_request c tokens]).
    { destruct v; unfold_request; simpl in G; do 3 step; rewrite H401, Z.eqb_refl;
        [ | step | ];
        (erewrite bind_return; [|first [exact G | simpl; rewrite app_cons_app; exact G]]);
        (erewrite bind_throw;
           [|apply (get_trakt_tokens_null _ (set_trakt_tokens c (Some JNull))); reflexivity]);
        eexists; (split; [reflexivity|]); simpl; repeat split; try discriminate;
        rewrite !requests_app; simpl; rewrite ?requests_app; simpl;
        rewrite <- ?app_assoc; reflexivity. }
    destruct E as (w2 & E & K1 & K2 & K3). rewrite E. simpl. repeat split; assumption.
Qed.

Lemma refresh_without_token_object_is_not_retried_example :
  fst (traktRequest_of Manual trakt_users_settings no_options world_unreadable_tokens) =
    Throw SyntaxError /\
  fst (traktRequest_of Manual trakt_users_settings no_options world_null_tokens) =
    Throw (TypeError "this.config.trakt_tokens").
Proof.
  split.
  - apply (proj1 (refresh_without_token_object_is_not_retried
                    Manual world_unreadable_tokens sample_config old_tokens
                    trakt_users_settings no_options
                    {| status := 401; statusText := "Unauthorized"; resp_json := None |}
                    {| status := 200; statusText := "OK"; resp_json := None |}
                    eq_refl eq_refl ltac:(discriminate) eq_refl eq_refl eq_refl eq_refl)
                 eq_refl).
  - apply (proj2 (refresh_without_token_object_is_not_retried
                    Manual world_null_tokens sample_config old_tokens
                    trakt_users_settings no_options
                    {| status := 401; statusText := "Unauthorized"; resp_json := None |}
                    {| status := 200; statusText := "OK"; resp_json := Some JNull |}
                    eq_refl eq_refl ltac:(discriminate) eq_refl eq_refl eq_refl eq_refl)
                 eq_refl (fun _ => eq_refl)).
Defined.

(* ================================================================== *)
(** ** The source request and the authenticated request, case by case  *)
(* ================================================================== *)

Lemma getSimklWatched_cases (w : world) (c : config) :
  this_config w = Some c ->
  ManualSync.getSimklWatched w =
  let sent := with_trace w (trace w ++ [Console FetchingSimkl; Fetch (simkl_request c)]) in
  match simkl w (trace w ++ [Console FetchingSimkl]) (simkl_request c) with
  | Rejected => (Throw NetworkError, sent)
  | Resolved s =>
      if ok s then
        match resp_json s with
        | Some d =>
            (Return d,
             with_trace w (trace w ++ [Console FetchingSimkl; Fetch (simkl_request c);
                                       Console SimklFetched]))
        | None => (Throw SyntaxError, sent)
        end
      else (Throw (HttpError (status s) (statusText s)), sent)
  end.
Proof.
  intros Hc. cbv zeta.
  destruct (simkl w (trace w ++ [Console FetchingSimkl]) (simkl_request c)) as [|s] eqn:E.
  - unfold ManualSync.getSimklWatched, ManualSync.fetchJSON. do 2 step.
    erewrite bind_throw.
    2:{ erewrite bind_throw; [reflexivity|].
        unfold fetch_simkl. cbv zeta. simpl. unfold simkl_request in E. rewrite E.
        reflexivity. }
    same_world.
  - destruct (ok s) eqn:Hok; [destruct (resp_json s) as [d|] eqn:Hj|].
    + apply (getSimklWatched_eq w c s d); assumption.
    + unfold ManualSync.getSimklWatched, ManualSync.fetchJSON. do 2 step.
      erewrite bind_throw.
      2:{ erewrite bind_return by (apply fetch_simkl_eq; simpl; exact E).
          rewrite Hok. simpl. unfold json_of. rewrite Hj. reflexivity. }
      same_world.
    + unfold ManualSync.getSimklWatched, ManualSync.fetchJSON. do 2 step.
      erewrite bind_throw.
      2:{ erewrite bind_return by (apply fetch_simkl_eq; simpl; exact E).
          rewrite Hok. reflexivity. }
      same_world.
Qed.

(** The fetch of the watched items is all or nothing.  It sends one
    request, to the all-items address with the Simkl token and client
    id, and nothing to the destination; it returns the document of a
    2xx response that is JSON, and throws otherwise: the status and its
    text for a response outside 2xx, the error of the parser for a body
    that is not JSON, the error of the network when there is no
    response.  The credentials and their file are not touched.  The
    three entry points share this code. *)
Theorem source_fetch_is_all_or_nothing (w : world) (c : config) :
  this_config w = Some c ->
  let out := ManualSync.getSimklWatched w in
  requests (trace (snd out)) = requests (trace w) ++ [simkl_request c] /\
  refreshes (trace (snd out)) = refreshes (trace w) /\
  this_config (snd out) = this_config w /\
  config_file (snd out) = config_file w /\
  fst out =
    match simkl w (trace w ++ [Console FetchingSimkl]) (simkl_request c) with
    | Rejected => Throw NetworkError
    | Resolved s =>
        if ok s then
          match resp_json s with
          | Some d => Return d
          | None => Throw SyntaxError
          end
        else Throw (HttpError (status s) (statusText s))
    end /\
  AutomatedTraktSync.getSimklWatched = ManualSync.getSimklWatched /\
  GitHubSync.getSimklWatched = ManualSync.getSimklWatched.
Proof.
  intros Hc. cbv zeta. rewrite (getSimklWatched_cases w c Hc). cbv zeta.
  destruct (simkl w (trace w ++ [Console FetchingSimkl]) (simkl_request c)) as [|s];
    [|destruct (ok s); [destruct (resp_json s)|]]; simpl;
    rewrite !requests_app, !refreshes_app; simpl; repeat split; lia.
Qed.

Lemma source_fetch_is_all_or_nothing_example :
  fst (ManualSync.getSimklWatched world_source_down) =
  Throw (HttpError 500 "Internal Server Error").
Proof.
  apply (source_fetch_is_all_or_nothing world_source_down sample_config eq_refl).
Defined.

(** A first response with a status other than 401 is returned to the
    caller as it is, 403 and 500 included: [traktRequest] throws for no
    status.  One request was sent, no refresh was made and the
    credentials are as they were. *)
Theorem other_statuses_are_returned_to_the_caller
    (v : variant) (w : world) (c : config) (tokens : json)
    (url : string) (o : options) (r : response json) :
  this_config w = Some c -> trakt_tokens c = Some tokens -> tokens <> JNull ->
  trakt w (trace w) (first_request c tokens url o) = Resolved r ->
  status r <> 401%Z ->
  let out := traktRequest_of v url o w in
  fst out = Return r /\
  requests (trace (snd out)) = requests (trace w) ++ [first_request c tokens url o] /\
  refreshes (trace (snd out)) = refreshes (trace w) /\
  this_config (snd out) = this_config w /\
  config_file (snd out) = config_file w.
Proof.
  intros Hc Ht Hn H1 H401. cbv zeta.
  rewrite (request_answered_run v w c tokens url o r) by assumption.
  simpl. rewrite requests_app, refreshes_app. simpl. repeat split. lia.
Qed.

Lemma other_statuses_are_returned_to_the_caller_example :
  fst (traktRequest_of GitHub trakt_sync_history no_options world_forbidden) =
  Return {| status := 403; statusText := "Forbidden"; resp_json := None |}.
Proof.
  apply (other_statuses_are_returned_to_the_caller GitHub world_forbidden sample_config
           old_tokens trakt_sync_history no_options
           {| status := 403; statusText := "Forbidden"; resp_json := None |}
           eq_refl eq_refl ltac:(discriminate) eq_refl ltac:(discriminate)).
Defined.

(** Without credentials in memory, or with credentials whose token
    object is missing or [null], [traktRequest] throws a [TypeError]
    while it builds the headers: nothing is sent and nothing changes. *)
Theorem request_without_tokens_sends_nothing
    (v : variant) (w : world) (url : string) (o : options) :
  this_config w = None \/
  (exists c, this_config w = Some c /\
             (trakt_tokens c = None \/ trakt_tokens c = Some JNull)) ->
  exists what, traktRequest_of v url o w = (Throw (TypeError what), w).
Proof.
  intros H.
  assert (G : exists what, get_trakt_tokens w = (Throw (TypeError what), w)).
  { unfold get_trakt_tokens, bind, get_config.
    destruct H as [H | (c & H & [K | K])]; rewrite H; try rewrite K; eexists; reflexivity. }
  destruct G as (what & G). exists what.
  destruct v; unfold_request; erewrite bind_throw; try reflexivity; exact G.
Qed.

Lemma request_without_tokens_sends_nothing_example :
  exists what,
    traktRequest_of Manual trakt_users_settings no_options world_without_tokens =
    (Throw (TypeError what), world_without_tokens).
Proof.
  apply request_without_tokens_sends_nothing.
  right. exists config_without_tokens. split; [reflexivity | now left].
Defined.

(* ================================================================== *)
(** ** Runs that end before the submission                             *)
(* ================================================================== *)

(** A run whose connectivity probe throws, or is answered outside 2xx,
    ends with exit code 1 after the line that reports the error. *)
Lemma run_with_failed_probe (v : variant) (w w2 : world) (c : config)
    (s : response watched_items) (watched : watched_items)
    (res : completion (response json)) (e : error) :
  configured v w c ->
  (forall t, simkl w t (simkl_request c) = Resolved s) ->
  ok s = true -> resp_json s = Some watched ->
  traktRequest_of v trakt_users_settings no_options
    (with_trace (with_config w (Some c)) (trace w ++ events_before_probe v c)) = (res, w2) ->
  res = Throw e \/ (exists r, res = Return r /\ ok r = false /\ e = probe_error v) ->
  exists w3,
    main_of v w = (Exit 1, w3) /\
    trace w3 = trace w2 ++ [Console (SyncFailedError e)] /\
    this_config w3 = this_config w2 /\ config_file w3 = config_file w2.
Proof.
  intros Hc Hs Hsok Hsj Hp Hres.
  destruct v; simpl in Hc, Hp; simpl main_of.
  - assert (B : ManualSync.sync_body
                  (with_trace (with_config w (Some c))
                     (trace w ++ [Console StartingManualSync])) = (Throw e, w2)).
    { unfold ManualSync.sync_body, ManualSync.initializeTrakt.
      erewrite bind_return
        by (eapply (getSimklWatched_eq _ c s watched); simpl; auto).
      erewrite bind_throw; [reflexivity|].
      destruct Hres as [-> | (r & -> & Hok & ->)].
      - erewrite bind_throw; [reflexivity|].
        simpl. rewrite <- app_assoc. exact Hp.
      - erewrite bind_return by (simpl; rewrite <- app_assoc; exact Hp).
        rewrite Hok. reflexivity. }
    unfold ManualSync.main, ManualSync.sync. unfold try_catch at 1.
    erewrite bind_return by (apply manual_loadConfig_eq; exact Hc).
    simpl negb. cbv iota. erewrite bind_return by reflexivity. step.
    erewrite try_catch_throw by exact B.
    eexists. split; [reflexivity|]. repeat split.
  - assert (B : AutomatedTraktSync.autoSync_body
                  (with_trace (with_config w (Some c))
                     (trace w ++ [Console StartingAutoSync; Console ConfigurationLoaded])) =
                (Throw e, w2)).
    { unfold AutomatedTraktSync.autoSync_body, AutomatedTraktSync.initializeTrakt.
      rewrite (proj1 getSimklWatched_same).
      erewrite bind_return
        by (eapply (getSimklWatched_eq _ c s watched); simpl; auto).
      erewrite bind_throw; [reflexivity|]. step.
      destruct Hres as [-> | (r & -> & Hok & ->)].
      - erewrite bind_throw; [reflexivity|].
        simpl. rewrite <- !app_assoc. exact Hp.
      - erewrite bind_return by (simpl; rewrite <- !app_assoc; exact Hp).
        rewrite Hok. reflexivity. }
    unfold AutomatedTraktSync.main, AutomatedTraktSync.autoSync.
    rewrite String.eqb_refl. unfold try_catch at 1. step.
    erewrite bind_return by (apply auto_loadConfig_eq; exact Hc).
    simpl negb. cbv iota. erewrite bind_return by reflexivity.
    erewrite try_catch_throw.
    2:{ simpl. rewrite <- app_assoc. exact B. }
    destruct (handler_exits Automated e w2) as (w3 & H & T).
    unfold handler_of in H. rewrite H. exists w3. split; [reflexivity|].
    split; [exact T|].
    unfold bind, console_log, now, process_exit in H.
    rewrite logSyncResult_run in H. simpl in H.
    injection H as <-.
    destruct (log_entries (log_file w2)); [destruct (log_writable w2)|]; split; reflexivity.
  - assert (B : GitHubSync.sync_body
                  (with_trace (with_config w (Some c))
                     (trace w ++ [Console StartingGitHubSync])) = (Throw e, w2)).
    { unfold GitHubSync.sync_body.
      rewrite (proj2 getSimklWatched_same).
      erewrite bind_return
        by (eapply (getSimklWatched_eq _ c s watched); simpl; auto).
      step.
      destruct Hres as [-> | (r & -> & Hok & ->)].
      - erewrite bind_throw; [reflexivity|].
        simpl. rewrite <- !app_assoc. exact Hp.
      - erewrite bind_return by (simpl; rewrite <- !app_assoc; exact Hp).
        rewrite Hok. reflexivity. }
    unfold GitHubSync.main, GitHubSync.constructor, GitHubSync.sync.
    erewrite bind_return.
    2:{ erewrite bind_return by exact Hc. reflexivity. }
    unfold try_catch at 1. step.
    erewrite try_catch_throw by exact B.
    eexists. split; [reflexivity|]. repeat split.
Qed.

Lemma status_401_is_not_ok {A : Type} (r : response A) : status r = 401%Z -> ok r = false.
Proof. intros H. unfold ok. rewrite H. reflexivity. Qed.

Lemma before_probe_counts (v : variant) (c : config) :
  requests (events_before_probe v c) = [simkl_request c] /\
  refreshes (events_before_probe v c) = 0%nat.
Proof. destruct v; split; reflexivity. Qed.

(** A destination that answers 401 before and after the refresh: the
    run makes one refresh, sends the probe twice, submits nothing and
    ends with exit code 1; the refreshed token object stays in the
    credentials. *)
Theorem persistent_401_ends_the_run_after_one_refresh
    (v : variant) (w : world) (c : config) (tokens body : json)
    (s : response watched_items) (watched : watched_items) (r1 rr r2 : response json) :
  configured v w c -> trakt_tokens c = Some tokens -> tokens <> JNull ->
  (forall t, simkl w t (simkl_request c) = Resolved s) ->
  ok s = true -> resp_json s = Some watched ->
  (forall t, trakt w t (first_request c tokens trakt_users_settings no_options) = Resolved r1) ->
  status r1 = 401%Z ->
  (forall t, trakt w t (refresh_request c tokens) = Resolved rr) ->
  ok rr = true -> resp_json rr = Some body -> body <> JNull ->
  (persists v = true -> config_writable w = true) ->
  (forall t, trakt w t (retry_request c tokens body trakt_users_settings no_options) =
             Resolved r2) ->
  status r2 = 401%Z ->
  let out := main_of v w in
  fst out = Exit 1 /\
  refreshes (trace (snd out)) = S (refreshes (trace w)) /\
  requests (trace (snd out)) =
    requests (trace w) ++
      [simkl_request c;
       first_request c tokens trakt_users_settings no_options;
       refresh_request c tokens;
       retry_request c tokens body trakt_users_settings no_options] /\
  this_config (snd out) = Some (set_trakt_tokens c (Some body)).
Proof.
  intros Hc Ht Hn Hs Hsok Hsj H1 H401 Hr Hrok Hrj Hbn Hw H2 H2401. cbv zeta.
  set (wp := with_trace (with_config w (Some c)) (trace w ++ events_before_probe v c)).
  assert (P : exists w2,
             traktRequest_of v trakt_users_settings no_options wp = (Return r2, w2) /\
             trace w2 =
               trace wp ++
                 Fetch (first_request c tokens trakt_users_settings no_options) ::
                 before_refresh v ++
                 [Console RefreshingToken; Fetch (refresh_request c tokens)] ++
                 after_refresh v ++
                 [Fetch (retry_request c tokens body trakt_users_settings no_options)] /\
             this_config w2 = Some (set_trakt_tokens c (Some body))).
  { rewrite (request_retried_run v wp c tokens body _ _ r1 rr); subst wp; simpl; auto.
    erewrite fetch_trakt_eq.
    2:{ destruct v; simpl; apply H2. }
    eexists. split; [reflexivity|]. split.
    - destruct v; simpl; rewrite <- ?app_assoc; reflexivity.
    - destruct v; reflexivity. }
  destruct P as (w2 & P & T & K).
  destruct (run_with_failed_probe v w w2 c s watched (Return r2) (probe_error v))
    as (w3 & E & T3 & K3 & _); try assumption.
  { right. exists r2. repeat split. now apply status_401_is_not_ok. }
  rewrite E. simpl. rewrite T3, T, K3, K. subst wp. simpl.
  destruct (before_probe_counts v c) as [Q1 Q2].
  destruct (no_refresh_around v) as (B1 & B2 & B3 & B4).
  repeat split.
  - rewrite !refreshes_app. simpl. rewrite !refreshes_app. simpl.
    rewrite !refreshes_app. simpl. rewrite Q2, B1, B2. lia.
  - rewrite !requests_app. simpl. rewrite !requests_app. simpl.
    rewrite !requests_app. simpl. rewrite Q1, B3, B4. simpl.
    rewrite <- !app_assoc. reflexivity.
Qed.

Lemma persistent_401_ends_the_run_after_one_refresh_example :
  let out := main_of Automated world_always_401 in
  fst out = Exit 1 /\ refreshes (trace (snd out)) = 1%nat.
Proof.
  pose proof (persistent_401_ends_the_run_after_one_refresh
                Automated world_always_401 sample_config old_tokens new_tokens
                {| status := 200; statusText := "OK"; resp_json := Some nothing_watched |}
                nothing_watched
                {| status := 401; statusText := "Unauthorized"; resp_json := None |}
                {| status := 200; statusText := "OK"; resp_json := Some new_tokens |}
                {| status := 401; statusText := "Unauthorized"; resp_json := None |}
                eq_refl eq_refl ltac:(discriminate) (fun _ => eq_refl) eq_refl eq_refl
                (fun _ => eq_refl) eq_refl (fun _ => eq_refl) eq_refl eq_refl
                ltac:(discriminate) (fun _ => eq_refl) (fun _ => eq_refl) eq_refl) as H.
  cbv zeta in H. destruct H as (H1 & H2 & _).
  split; [exact H1 | exact H2].
Defined.

(** A connectivity probe answered outside 2xx with a status other than
    401: no refresh, no submission, exit code 1, at every entry
    point. *)
Theorem failed_probe_ends_the_run
    (v : variant) (w : world) (c : config) (tokens : json)
    (s : response watched_items) (watched : watched_items) (rp : response json) :
  configured v w c -> trakt_tokens c = Some tokens -> tokens <> JNull ->
  (forall t, simkl w t (simkl_request c) = Resolved s) ->
  ok s = true -> resp_json s = Some watched ->
  (forall t, trakt w t (first_request c tokens trakt_users_settings no_options) = Resolved rp) ->
  ok rp = false -> status rp <> 401%Z ->
  let out := main_of v w in
  fst out = Exit 1 /\
  refreshes (trace (snd out)) = refreshes (trace w) /\
  requests (trace (snd out)) =
    requests (trace w) ++
      [simkl_request c; first_request c tokens trakt_users_settings no_options] /\
  In (Console (SyncFailedError (probe_error v))) (trace (snd out)).
Proof.
  intros Hc Ht Hn Hs Hsok Hsj Hp Hpok Hp401. cbv zeta.
  set (wp := with_trace (with_config w (Some c)) (trace w ++ events_before_probe v c)).
  destruct (run_with_failed_probe v w
              (with_trace wp (trace wp ++
                 [Fetch (first_request c tokens trakt_users_settings no_options)]))
              c s watched (Return rp) (probe_error v))
    as (w3 & E & T3 & _); try assumption.
  { apply (request_answered_run v wp c tokens _ _ rp); subst wp; simpl; auto. }
  { right. exists rp. repeat split. assumption. }
  rewrite E. simpl. rewrite T3. subst wp. simpl.
  destruct (before_probe_counts v c) as [Q1 Q2].
  repeat split.
  - rewrite !refreshes_app. simpl. rewrite Q2. lia.
  - rewrite !requests_app. simpl. rewrite Q1. simpl. now rewrite <- !app_assoc.
  - apply in_or_app. right. now left.
Qed.

Lemma failed_probe_ends_the_run_example :
  fst (main_of Manual world_forbidden) = Exit 1.
Proof.
  apply (failed_probe_ends_the_run Manual world_forbidden sample_config old_tokens
           {| status := 200; statusText := "OK";
              resp_json := Some (only_movies [movie_2024]) |}
           (only_movies [movie_2024])
           {| status := 403; statusText := "Forbidden"; resp_json := None |}
           eq_refl eq_refl ltac:(discriminate) (fun _ => eq_refl) eq_refl eq_refl
           (fun _ => eq_refl) eq_refl ltac:(discriminate)).
Defined.

(** sync.mjs and sync-auto.mjs without a configuration file that can be
    read and parsed: the run prints that no configuration was found and
    ends with exit code 1; it sends nothing and writes nothing. *)
Theorem run_without_configuration_does_nothing (w : world) :
  config_file w = Missing \/ config_file w = Corrupt ->
  ManualSync.main w =
    (Exit 1, with_trace w (trace w ++ [Console NoConfigurationFound])) /\
  AutomatedTraktSync.main (Some "auto-sync") w =
    (Exit 1, with_trace w (trace w ++ [Console StartingAutoSync;
                                       Console NoConfigurationFound;
                                       Console ConfigurationHint])).
Proof.
  intros H.
  unfold ManualSync.main, ManualSync.sync, ManualSync.loadConfig,
    AutomatedTraktSync.main, AutomatedTraktSync.autoSync, AutomatedTraktSync.loadConfig,
    try_catch, bind, read_config_file, console_log, process_exit, ret.
  rewrite String.eqb_refl. simpl.
  destruct H as [H | H]; rewrite H; simpl; rewrite <- ?app_assoc; split; reflexivity.
Qed.

Lemma run_without_configuration_does_nothing_example :
  fst (ManualSync.main world_unconfigured) = Exit 1 /\
  requests (trace (snd (ManualSync.main world_unconfigured))) = [].
Proof.
  rewrite (proj1 (run_without_configuration_does_nothing world_unconfigured
                    (or_introl eq_refl))).
  split; reflexivity.
Defined.

(** sync-github.js, when [TRAKT_TOKENS] is not set: the token object of
    the credentials is [null], the run sends its request to the source
    and, whatever the source answers, ends with exit code 1 without a
    request to the destination.  When [TRAKT_TOKENS] is set to a text
    that is not JSON, the constructor throws before anything is printed
    or sent. *)
Theorem github_without_tokens_never_reaches_trakt (w : world) :
  (TRAKT_TOKENS (process_env w) = Missing ->
   fst (GitHubSync.main w) = Exit 1 /\
   requests (trace (snd (GitHubSync.main w))) =
     requests (trace w) ++ [simkl_request (config_of_environment (process_env w) JNull)]) /\
  (TRAKT_TOKENS (process_env w) = Corrupt ->
   GitHubSync.main w = (Throw SyntaxError, w)).
Proof.
  split; intros H.
  - set (c := config_of_environment (process_env w) JNull).
    assert (L : GitHubSync.loadConfig w = (Return c, w)).
    { unfold GitHubSync.loadConfig. cbv zeta. rewrite H. reflexivity. }
    set (w1 := with_trace (with_config w (Some c)) (trace w ++ [Console StartingGitHubSync])).
    assert (B : exists e w2,
               GitHubSync.sync_body w1 = (Throw e, w2) /\
               requests (trace w2) = requests (trace w) ++ [simkl_request c]).
    { unfold GitHubSync.sync_body. rewrite (proj2 getSimklWatched_same).
      pose proof (getSimklWatched_cases w1 c eq_refl) as G. cbv zeta in G.
      destruct (simkl w1 (trace w1 ++ [Console FetchingSimkl]) (simkl_request c)) as [|s];
        [|destruct (ok s); [destruct (resp_json s) as [d|]|]].
      - do 2 eexists. split; [erewrite bind_throw; [reflexivity | exact G]|].
        subst w1. same_requests.
      - do 2 eexists. split.
        + erewrite bind_return by exact G. step.
          erewrite bind_throw; [reflexivity|].
          unfold GitHubSync.traktRequest.
          erewrite bind_throw; [reflexivity|].
          apply (get_trakt_tokens_null _ c); reflexivity.
        + subst w1. same_requests.
      - do 2 eexists. split; [erewrite bind_throw; [reflexivity | exact G]|].
        subst w1. same_requests.
      - do 2 eexists. split; [erewrite bind_throw; [reflexivity | exact G]|].
        subst w1. same_requests. }
    destruct B as (e & w2 & B & R).
    assert (E : GitHubSync.main w =
                (Exit 1, with_trace w2 (trace w2 ++ [Console (SyncFailedError e)]))).
    { unfold GitHubSync.main, GitHubSync.constructor, GitHubSync.sync.
      erewrite bind_return.
      2:{ erewrite bind_return by exact L. reflexivity. }
      unfold try_catch at 1. step.
      erewrite try_catch_throw by exact B.
      unfold bind, console_log, process_exit. reflexivity. }
    rewrite E. simpl. split; [reflexivity|].
    rewrite requests_app, R. simpl. now rewrite app_nil_r.
  - unfold GitHubSync.main, GitHubSync.constructor, bind, GitHubSync.loadConfig.
    cbv zeta. rewrite H. reflexivity.
Qed.

Lemma github_without_tokens_never_reaches_trakt_example :
  fst (GitHubSync.main world_github_without_tokens) = Exit 1.
Proof.
  apply (proj1 (github_without_tokens_never_reaches_trakt world_github_without_tokens)).
  reflexivity.
Defined.

(* ================================================================== *)
(** ** What a run writes to the log                                    *)
(* ================================================================== *)

Lemma slice_last_absorb {A : Type} (n : nat) (a b : list A) :
  slice_last n (slice_last n a ++ b) = slice_last n (a ++ b).
Proof.
  destruct (Nat.le_gt_cases (List.length a) n) as [H | H].
  - now rewrite (slice_last_short n a H).
  - unfold slice_last. rewrite !length_app, length_skipn.
    replace (List.length a - (List.length a - n) + List.length b - n)%nat
      with (List.length b) by lia.
    replace (List.length a + List.length b - n)%nat
      with ((List.length a - n) + List.length b)%nat by lia.
    rewrite !skipn_app. rewrite length_skipn.
    replace (List.length b - (List.length a - (List.length a - n)))%nat
      with (List.length b - n)%nat by lia.
    replace (List.length a - n + List.length b - List.length a)%nat
      with (List.length b - n)%nat by lia.
    f_equal. rewrite skipn_skipn. f_equal. lia.
Qed.

(** Records add up: after any number of calls of [logSyncResult] on a
    log that can be written, the file holds the most recent 100 of the
    old entries followed by the new ones, in the order of the calls,
    never more than 100. *)
Theorem successive_records_keep_the_latest_hundred
    (e : json) (rest l : list json) (w : world) :
  log_entries (log_file w) = Some l -> log_writable w = true ->
  record_all (e :: rest) w =
    (Return tt, with_log_file w (Content (JArr (slice_last 100 (l ++ e :: rest))))) /\
  (List.length (slice_last 100 (l ++ e :: rest)) <= 100)%nat /\
  exists dropped, l ++ e :: rest = dropped ++ slice_last 100 (l ++ e :: rest).
Proof.
  intros Hl Hw. split; [|split].
  - revert e l w Hl Hw. induction rest as [|e' rest IH]; intros e l w Hl Hw.
    + simpl. unfold bind. rewrite logSyncResult_run, Hl, Hw. reflexivity.
    + change (record_all (e :: e' :: rest))
        with (bind (AutomatedTraktSync.logSyncResult e) (fun _ => record_all (e' :: rest))).
      unfold bind at 1. rewrite logSyncResult_run, Hl, Hw.
      rewrite (IH e' (slice_last 100 (l ++ [e]))) by (simpl; auto).
      rewrite slice_last_absorb, <- app_assoc. reflexivity.
  - rewrite slice_last_length. lia.
  - exists (firstn (List.length (l ++ e :: rest) - 100) (l ++ e :: rest)).
    symmetry. apply slice_last_suffix.
Qed.

Lemma successive_records_keep_the_latest_hundred_example :
  log_file (snd (record_all [sample_entry; sample_entry] world_long_log)) =
  Content (JArr (repeat (JStr "old") 98 ++ [sample_entry; sample_entry])).
Proof.
  rewrite (proj1 (successive_records_keep_the_latest_hundred
                    sample_entry [sample_entry] long_log world_long_log eq_refl eq_refl)).
  reflexivity.
Defined.

(** sync-auto.mjs records a refused submission twice when the body of
    the response can be read: once where the response is found to be
    outside 2xx, with the status and its text, and once more in the
    [catch] clause that the error thrown there reaches, with the message
    of that error.  When the body cannot be read, [response.text()]
    rejects before the first record and the [catch] clause alone
    records, with the message of that rejection. *)
Theorem refused_submission_log_entries
    (w : world) (c : config) (tokens : json) (s : response watched_items)
    (watched : watched_items) (rp r : response json) (l : list json)
    (body : option string) :
  configured Automated w c -> trakt_tokens c = Some tokens -> tokens <> JNull ->
  (forall t, simkl w t (simkl_request c) = Resolved s) ->
  ok s = true -> resp_json s = Some watched ->
  (forall t, trakt w t (first_request c tokens trakt_users_settings no_options) = Resolved rp) ->
  ok rp = true ->
  nothing_to_sync (AutomatedTraktSync.normalize watched) = false ->
  (forall t, trakt w t (history_request c tokens (AutomatedTraktSync.normalize watched)) =
             Resolved r) ->
  ok r = false -> status r <> 401%Z ->
  (forall t, read_text w t r = body) ->
  log_entries (log_file w) = Some l -> log_writable w = true ->
  exists t1 t2,
    fst (main_of Automated w) = Exit 1 /\
    log_file (snd (main_of Automated w)) =
    Content (JArr (slice_last 100
      (l ++ match body with
            | Some _ =>
                [AutomatedTraktSync.error_entry t1
                   (string_of_Z (status r) ++ ": " ++ statusText r)%string;
                 AutomatedTraktSync.error_entry t2 (message_of (SyncFailed (status r)))]
            | None => [AutomatedTraktSync.error_entry t2 (message_of BodyError)]
            end))).
Proof.
  intros Hc Ht Hn Hs Hsok Hsj Hp Hpok Hne Hr Hok H401 Hb Hl Hw.
  rewrite (run_reaches_submit Automated w c tokens s watched rp) by assumption.
  simpl submit_of. simpl normalize_of.
  set (ws := with_trace (with_config w (Some c))
               (trace w ++ events_before_submit Automated c tokens)).
  destruct body as [text|].
  - assert (S1 : exists t1 w5,
               AutomatedTraktSync.submit (AutomatedTraktSync.normalize watched) ws =
                 (Throw (SyncFailed (status r)), w5) /\
               log_file w5 =
                 Content (JArr (slice_last 100
                   (l ++ [AutomatedTraktSync.error_entry t1
                            (string_of_Z (status r) ++ ": " ++ statusText r)%string]))) /\
               log_writable w5 = true).
    { unfold AutomatedTraktSync.submit. step. rewrite Hne. step.
      erewrite bind_return.
      2:{ apply (request_answered_run Automated _ c tokens _ _ r); subst ws; simpl; auto. }
      rewrite Hok.
      erewrite bind_return by (apply text_of_eq; apply Hb).
      step. erewrite bind_return by reflexivity.
      erewrite bind_return by apply logSyncResult_run.
      do 2 eexists. split; [reflexivity|].
      subst ws. simpl. rewrite Hl, Hw. simpl. split; [reflexivity | exact Hw]. }
    destruct S1 as (t1 & w5 & S1 & L5 & W5).
    unfold try_catch. rewrite S1. unfold handler_of.
    step. erewrite bind_return by reflexivity.
    erewrite bind_return by apply logSyncResult_run.
    unfold process_exit. simpl. rewrite L5, W5. simpl.
    do 2 eexists. split; [reflexivity|].
    rewrite slice_last_absorb, <- app_assoc. reflexivity.
  - assert (S1 : exists w5,
               AutomatedTraktSync.submit (AutomatedTraktSync.normalize watched) ws =
                 (Throw BodyError, w5) /\
               log_file w5 = log_file w /\ log_writable w5 = true).
    { unfold AutomatedTraktSync.submit. step. rewrite Hne. step.
      erewrite bind_return.
      2:{ apply (request_answered_run Automated _ c tokens _ _ r); subst ws; simpl; auto. }
      rewrite Hok.
      erewrite bind_throw by (apply text_of_fails; apply Hb).
      eexists. split; [reflexivity|]. subst ws. simpl. split; [reflexivity | exact Hw]. }
    destruct S1 as (w5 & S1 & L5 & W5).
    unfold try_catch. rewrite S1. unfold handler_of.
    step. erewrite bind_return by reflexivity.
    erewrite bind_return by apply logSyncResult_run.
    unfold process_exit. simpl. rewrite L5, Hl, W5. simpl.
    exists "". eexists. split; reflexivity.
Qed.

(** The theorem at a history endpoint that answers 500, with a body
    that can be read and with one that cannot. *)
Lemma refused_submission_log_entries_example :
  (exists t1 t2,
     fst (main_of Automated world_submit_refused) = Exit 1 /\
     log_file (snd (main_of Automated world_submit_refused)) =
     Content (JArr (slice_last 100
       ([] ++ [AutomatedTraktSync.error_entry t1 "500: Internal Server Error";
               AutomatedTraktSync.error_entry t2 "Sync failed: 500"])))) /\
  (exists t1 t2 : string,
     fst (main_of Automated world_body_unreadable) = Exit 1 /\
     log_file (snd (main_of Automated world_body_unreadable)) =
     Content (JArr (slice_last 100
       ([] ++ [AutomatedTraktSync.error_entry t2 "terminated"])))).
Proof.
  split.
  - apply (refused_submission_log_entries world_submit_refused sample_config old_tokens
             {| status := 200; statusText := "OK";
                resp_json := Some (only_movies [movie_2024]) |}
             (only_movies [movie_2024])
             {| status := 200; statusText := "OK"; resp_json := Some (JObj []) |}
             {| status := 500; statusText := "Internal Server Error"; resp_json := None |}
             [] (Some "refused")
             eq_refl eq_refl ltac:(discriminate) (fun _ => eq_refl) eq_refl eq_refl
             (fun _ => eq_refl) eq_refl eq_refl (fun _ => eq_refl) eq_refl
             ltac:(discriminate) (fun _ => eq_refl) eq_refl eq_refl).
  - apply (refused_submission_log_entries world_body_unreadable sample_config old_tokens
             {| status := 200; statusText := "OK";
                resp_json := Some (only_movies [movie_2024]) |}
             (only_movies [movie_2024])
             {| status := 200; statusText := "OK"; resp_json := Some (JObj []) |}
             {| status := 500; statusText := "Internal Server Error"; resp_json := None |}
             [] None
             eq_refl eq_refl ltac:(discriminate) (fun _ => eq_refl) eq_refl eq_refl
             (fun _ => eq_refl) eq_refl eq_refl (fun _ => eq_refl) eq_refl
             ltac:(discriminate) (fun _ => eq_refl) eq_refl eq_refl).
Defined.





(* ================================================================== *)
(** ** What no run does                                                *)
(* ================================================================== *)

Lemma exits_with_1_bind {A B : Type} (m : M A) (k : A -> M B) :
  exits_with_1 m -> (forall a, exits_with_1 (k a)) -> exits_with_1 (bind m k).
Proof.
  intros Hm Hk w code. unfold bind. specialize (Hm w).
  destruct (m w) as [[a|e|c] w1]; simpl in *.
  - apply Hk.
  - discriminate.
  - intros H. injection H as <-. now apply Hm.
Qed.

Lemma exits_with_1_try_catch {A : Type} (m : M A) (h : error -> M A) :
  exits_with_1 m -> (forall e, exits_with_1 (h e)) -> exits_with_1 (try_catch m h).
Proof.
  intros Hm Hh w code. unfold try_catch. specialize (Hm w).
  destruct (m w) as [[a|e|c] w1]; simpl in *.
  - discriminate.
  - apply Hh.
  - intros H. injection H as <-. now apply Hm.
Qed.

Lemma exits_with_1_ret {A : Type} (a : A) : exits_with_1 (ret a).
Proof. intros w code H. discriminate. Qed.

Lemma exits_with_1_throw {A : Type} (e : error) : exits_with_1 (@throw A e).
Proof. intros w code H. discriminate. Qed.

Lemma exits_with_1_process_exit {A : Type} : exits_with_1 (@process_exit A 1).
Proof. intros w code H. now injection H as <-. Qed.

Lemma exits_with_1_console_log (m : message) : exits_with_1 (console_log m).
Proof. intros w code H. discriminate. Qed.

Lemma exits_with_1_now : exits_with_1 now.
Proof. intros w code H. discriminate. Qed.

Lemma exits_with_1_set_this_config (c : option config) : exits_with_1 (set_this_config c).
Proof. intros w code H. discriminate. Qed.

Lemma exits_with_1_get_config : exits_with_1 get_config.
Proof. intros w code. unfold get_config. destruct (this_config w); discriminate. Qed.

Lemma exits_with_1_read_config_file : exits_with_1 read_config_file.
Proof. intros w code. unfold read_config_file. destruct (config_file w); discriminate. Qed.

Lemma exits_with_1_write_config_file : exits_with_1 write_config_file.
Proof. intros w code. unfold write_config_file. destruct (config_writable w); discriminate. Qed.

Lemma exits_with_1_fetch_simkl (url : string) (o : options) : exits_with_1 (fetch_simkl url o).
Proof.
  intros w code. unfold fetch_simkl. cbv zeta. destruct (simkl w (trace w) _); discriminate.
Qed.

Lemma exits_with_1_fetch_trakt (url : string) (o : options) : exits_with_1 (fetch_trakt url o).
Proof.
  intros w code. unfold fetch_trakt. cbv zeta. destruct (trakt w (trace w) _); discriminate.
Qed.

Lemma exits_with_1_json_of {A : Type} (r : response A) : exits_with_1 (json_of r).
Proof. intros w code. unfold json_of. destruct (resp_json r); discriminate. Qed.

Lemma exits_with_1_text_of (r : response json) : exits_with_1 (text_of r).
Proof. intros w code. unfold text_of. destruct (read_text w (trace w) r); discriminate. Qed.

Lemma exits_with_1_member (k : string) (v : json) : exits_with_1 (member k v).
Proof. intros w code. unfold member. destruct v; discriminate. Qed.

Lemma exits_with_1_logSyncResult (entry : json) :
  exits_with_1 (AutomatedTraktSync.logSyncResult entry).
Proof. intros w code. rewrite logSyncResult_run. discriminate. Qed.

Lemma exits_with_1_github_loadConfig : exits_with_1 GitHubSync.loadConfig.
Proof.
  intros w code. unfold GitHubSync.loadConfig. cbv zeta.
  destruct (TRAKT_TOKENS (process_env w)); discriminate.
Qed.

Create HintDb exits.
#[local] Hint Resolve exits_with_1_ret exits_with_1_throw exits_with_1_process_exit
  exits_with_1_console_log exits_with_1_now exits_with_1_set_this_config
  exits_with_1_get_config exits_with_1_read_config_file exits_with_1_write_config_file
  exits_with_1_fetch_simkl exits_with_1_fetch_trakt exits_with_1_json_of
  exits_with_1_text_of exits_with_1_member exits_with_1_logSyncResult
  exits_with_1_github_loadConfig : exits.

Ltac exits_step :=
  match goal with
  | |- exits_with_1 (bind _ _) => apply exits_with_1_bind; [|intros ?]
  | |- exits_with_1 (try_catch _ _) => apply exits_with_1_try_catch; [|intros ?]
  | |- exits_with_1 (if ?c then _ else _) => destruct c
  | |- exits_with_1 (match ?x with _ => _ end) => destruct x
  | |- exits_with_1 _ => solve [auto with exits]
  end.

Ltac unfold_run :=
  unfold ManualSync.main, ManualSync.sync, ManualSync.sync_body, ManualSync.submit,
    ManualSync.loadConfig, ManualSync.getSimklWatched, ManualSync.fetchJSON,
    ManualSync.initializeTrakt, ManualSync.traktRequest, ManualSync.refreshTraktToken,
    ManualSync.saveConfig,
    AutomatedTraktSync.main, AutomatedTraktSync.autoSync, AutomatedTraktSync.autoSync_body,
    AutomatedTraktSync.submit, AutomatedTraktSync.loadConfig,
    AutomatedTraktSync.getSimklWatched, AutomatedTraktSync.fetchJSON,
    AutomatedTraktSync.initializeTrakt, AutomatedTraktSync.traktRequest,
    AutomatedTraktSync.refreshTraktToken, AutomatedTraktSync.saveConfig,
    GitHubSync.main, GitHubSync.constructor, GitHubSync.sync, GitHubSync.sync_body,
    GitHubSync.submit, GitHubSync.getSimklWatched, GitHubSync.fetchJSON,
    GitHubSync.traktRequest, GitHubSync.refreshTraktToken, get_trakt_tokens.

Lemma exits_with_1_main (v : variant) : exits_with_1 (main_of v).
Proof. destruct v; simpl main_of; unfold_run; repeat exits_step. Qed.

Lemma exits_with_1_auto_main (command : option string) :
  exits_with_1 (AutomatedTraktSync.main command).
Proof. unfold_run; repeat exits_step. Qed.

Lemma try_catch_never_throws {A : Type} (m : M A) (h : error -> M A) :
  (forall e, never_throws (h e)) -> never_throws (try_catch m h).
Proof.
  intros Hh w e. unfold try_catch.
  destruct (m w) as [[a|e'|c] w1]; simpl; try discriminate. apply Hh.
Qed.

Lemma top_handler_never_throws (e : error) :
  never_throws (bind (console_log (TopLevelError e)) (fun _ => @process_exit unit 1)).
Proof. intros w e'. discriminate. Qed.

(** Whatever the files hold and the services answer, the process ends
    with exit code 0 or 1, under any command line for sync-auto.mjs; and
    sync.mjs and sync-auto.mjs leave no exception unhandled. *)
Theorem exit_code_is_zero_or_one (v : variant) (w : world) (command : option string) :
  (exit_code (fst (main_of v w)) = 0%Z \/ exit_code (fst (main_of v w)) = 1%Z) /\
  (exit_code (fst (AutomatedTraktSync.main command w)) = 0%Z \/
   exit_code (fst (AutomatedTraktSync.main command w)) = 1%Z) /\
  (forall e, fst (ManualSync.main w) <> Throw e) /\
  (forall e, fst (AutomatedTraktSync.main command w) <> Throw e).
Proof.
  repeat split.
  - pose proof (exits_with_1_main v w) as H.
    destruct (fst (main_of v w)) as [[]|e|code]; simpl; auto.
  - pose proof (exits_with_1_auto_main command w) as H.
    destruct (fst (AutomatedTraktSync.main command w)) as [[]|e|code]; simpl; auto.
  - intros e. apply try_catch_never_throws. intros e'. apply top_handler_never_throws.
  - intros e. apply try_catch_never_throws. intros e'. apply top_handler_never_throws.
Qed.

(** *** Refreshes in a whole run *)

Lemma refreshes_at_most_try_catch {A : Type} (n k : nat) (m : M A) (h : error -> M A) :
  refreshes_at_most n m -> (forall e, refreshes_at_most k (h e)) ->
  refreshes_at_most (n + k) (try_catch m h).
Proof.
  intros Hm Hh w. unfold try_catch. specialize (Hm w).
  destruct (m w) as [[a|e|c] w1]; simpl in *; try lia.
  specialize (Hh e w1). lia.
Qed.

Lemma no_refresh_process_exit {A : Type} (c : Z) : refreshes_at_most 0 (@process_exit A c).
Proof. intros w. simpl. lia. Qed.

Lemma no_refresh_now : refreshes_at_most 0 now.
Proof. intros w. simpl. lia. Qed.

Lemma no_refresh_read_config_file : refreshes_at_most 0 read_config_file.
Proof. intros w. unfold read_config_file. destruct (config_file w); simpl; lia. Qed.

Lemma no_refresh_fetch_simkl (url : string) (o : options) :
  refreshes_at_most 0 (fetch_simkl url o).
Proof.
  intros w. unfold fetch_simkl. cbv zeta.
  destruct (simkl w (trace w) _); simpl; rewrite refreshes_app; simpl; lia.
Qed.

Lemma no_refresh_text_of (r : response json) : refreshes_at_most 0 (text_of r).
Proof. intros w. unfold text_of. destruct (read_text w (trace w) r); simpl; lia. Qed.

Lemma no_refresh_member (k : string) (v : json) : refreshes_at_most 0 (member k v).
Proof. intros w. unfold member. destruct v; simpl; lia. Qed.

Lemma no_refresh_logSyncResult (entry : json) :
  refreshes_at_most 0 (AutomatedTraktSync.logSyncResult entry).
Proof.
  intros w. rewrite logSyncResult_run. simpl.
  destruct (log_entries (log_file w)); [destruct (log_writable w)|]; simpl; lia.
Qed.

Lemma no_refresh_github_loadConfig : refreshes_at_most 0 GitHubSync.loadConfig.
Proof.
  intros w. unfold GitHubSync.loadConfig. cbv zeta.
  destruct (TRAKT_TOKENS (process_env w)); simpl; lia.
Qed.

#[local] Hint Resolve no_refresh_process_exit no_refresh_now no_refresh_read_config_file
  no_refresh_fetch_simkl no_refresh_text_of no_refresh_member no_refresh_logSyncResult
  no_refresh_github_loadConfig : refreshes.

(** A part of the program that makes no refresh at all. *)
Ltac silent :=
  repeat first
    [ solve [auto with refreshes]
    | apply no_refresh_console_log; discriminate
    | apply (refreshes_at_most_bind 0 0); [|intros ?]
    | apply (refreshes_at_most_try_catch 0 0); [|intros ?]
    | match goal with
      | |- refreshes_at_most _ (if ?c then _ else _) => destruct c
      | |- refreshes_at_most _ (match ?x with _ => _ end) => destruct x
      end ].

(** A part that makes none, where some are allowed. *)
Ltac silent_in n := apply (refreshes_at_most_weaken 0 n); [lia | silent].

Lemma getSimklWatched_makes_no_refresh : refreshes_at_most 0 ManualSync.getSimklWatched.
Proof. unfold ManualSync.getSimklWatched, ManualSync.fetchJSON. silent. Qed.

Lemma submit_refreshes_at_most_once (v : variant) (payload : traktObject) :
  refreshes_at_most 1 (submit_of v payload).
Proof.
  destruct v; simpl submit_of;
    unfold ManualSync.submit, AutomatedTraktSync.submit, GitHubSync.submit.
  - apply (refreshes_at_most_bind 0 1); [silent | intros ?].
    apply (refreshes_at_most_bind 1 0);
      [apply (at_most_one_refresh_per_call Manual) | intros ?; silent].
  - apply (refreshes_at_most_bind 0 1); [silent | intros ?].
    destruct (nothing_to_sync payload); [silent_in 1%nat|].
    apply (refreshes_at_most_bind 0 1); [silent | intros ?].
    apply (refreshes_at_most_bind 1 0);
      [apply (at_most_one_refresh_per_call Automated) | intros ?; silent].
  - apply (refreshes_at_most_bind 0 1); [silent | intros ?].
    destruct (nothing_to_sync payload); [silent_in 1%nat|].
    apply (refreshes_at_most_bind 1 0);
      [apply (at_most_one_refresh_per_call GitHub) | intros ?; silent].
Qed.

(** Whatever the services answer, a run refreshes the token at most
    twice: at most once for the connectivity probe and at most once for
    the submission; and there are answers for which it does so twice. *)
Theorem a_run_refreshes_at_most_twice (v : variant) (w : world) :
  (refreshes (trace (snd (main_of v w))) <= refreshes (trace w) + 2)%nat /\
  refreshes (trace (snd (main_of v world_two_refreshes))) = 2%nat.
Proof.
  split; [|destruct v; reflexivity].
  revert w. change (refreshes_at_most 2 (main_of v)).
  destruct v; simpl main_of.
  - unfold ManualSync.main, ManualSync.sync, ManualSync.sync_body,
      ManualSync.initializeTrakt, ManualSync.loadConfig.
    apply (refreshes_at_most_try_catch 2 0); [|intros ?; silent].
    apply (refreshes_at_most_bind 0 2); [silent | intros ?].
    apply (refreshes_at_most_bind 0 2); [silent | intros ?].
    apply (refreshes_at_most_bind 0 2); [silent | intros ?].
    apply (refreshes_at_most_try_catch 2 0); [|intros ?; silent].
    apply (refreshes_at_most_bind 0 2);
      [apply getSimklWatched_makes_no_refresh | intros ?].
    apply (refreshes_at_most_bind 1 1); [|intros ?; apply (submit_refreshes_at_most_once Manual)].
    apply (refreshes_at_most_bind 1 0);
      [apply (at_most_one_refresh_per_call Manual) | intros ?; silent].
  - unfold AutomatedTraktSync.main, AutomatedTraktSync.autoSync,
      AutomatedTraktSync.autoSync_body, AutomatedTraktSync.initializeTrakt,
      AutomatedTraktSync.loadConfig.
    rewrite String.eqb_refl.
    apply (refreshes_at_most_try_catch 2 0); [|intros ?; silent].
    apply (refreshes_at_most_bind 0 2); [silent | intros ?].
    apply (refreshes_at_most_bind 0 2); [silent | intros ?].
    apply (refreshes_at_most_bind 0 2); [silent | intros ?].
    apply (refreshes_at_most_try_catch 2 0); [|intros ?; silent].
    rewrite (proj1 getSimklWatched_same).
    apply (refreshes_at_most_bind 0 2);
      [apply getSimklWatched_makes_no_refresh | intros ?].
    apply (refreshes_at_most_bind 1 1);
      [|intros ?; apply (submit_refreshes_at_most_once Automated)].
    apply (refreshes_at_most_bind 0 1); [silent | intros ?].
    apply (refreshes_at_most_bind 1 0);
      [apply (at_most_one_refresh_per_call Automated) | intros ?; silent].
  - unfold GitHubSync.main, GitHubSync.constructor, GitHubSync.sync, GitHubSync.sync_body.
    apply (refreshes_at_most_bind 0 2); [silent | intros ?].
    apply (refreshes_at_most_try_catch 2 0); [|intros ?; silent].
    apply (refreshes_at_most_bind 0 2); [silent | intros ?].
    apply (refreshes_at_most_try_catch 2 0); [|intros ?; silent].
    rewrite (proj2 getSimklWatched_same).
    apply (refreshes_at_most_bind 0 2);
      [apply getSimklWatched_makes_no_refresh | intros ?].
    apply (refreshes_at_most_bind 0 2); [silent | intros ?].
    apply (refreshes_at_most_bind 1 1);
      [apply (at_most_one_refresh_per_call GitHub) | intros ?].
    apply (refreshes_at_most_bind 0 1); [silent | intros ?].
    apply (refreshes_at_most_bind 0 1); [silent | intros ?].
    apply (submit_refreshes_at_most_once GitHub).
Qed.

(** *** Two more ends of a run, at examples *)

Lemma source_failure_ends_the_run_example :
  fst (main_of GitHub world_source_down) = Exit 1.
Proof.
  apply (source_failure_ends_the_run GitHub world_source_down sample_config
           {| status := 500; statusText := "Internal Server Error"; resp_json := None |}
           eq_refl (fun _ => eq_refl) eq_refl).
Defined.


(* ================================================================== *)
(** ** A refused refresh and the run                                   *)
(* ================================================================== *)

Lemma refused_refreshes_app (answers : list event -> request -> fetched json)
    (before e1 e2 : list event) :
  refused_refreshes answers before (e1 ++ e2) =
  (refused_refreshes answers before e1 +
   refused_refreshes answers (before ++ e1) e2)%nat.
Proof.
  revert before. induction e1 as [|e e1 IH]; intros before; simpl.
  - now rewrite app_nil_r.
  - rewrite IH, <- app_assoc. simpl. lia.
Qed.

Lemma fatal_unchanged {A : Type} (m : M A) :
  (forall w, trace (snd (m w)) = trace w /\ trakt (snd (m w)) = trakt w) ->
  refusal_is_fatal m.
Proof.
  intros H w. exists []. destruct (H w) as [H1 H2]. rewrite app_nil_r. now repeat split.
Qed.

Lemma fatal_bind {A B : Type} (m : M A) (k : A -> M B) :
  refusal_is_fatal m -> (forall a, refusal_is_fatal (k a)) -> refusal_is_fatal (bind m k).
Proof.
  intros Hm Hk w. unfold bind. destruct (Hm w) as (a1 & T1 & O1 & R1).
  destruct (m w) as [[a|e|c] w1]; simpl in *.
  - destruct (Hk a w1) as (a2 & T2 & O2 & R2).
    exists (a1 ++ a2). rewrite T2, T1, O2, O1, app_assoc. repeat split.
    intros b Hb. rewrite refused_refreshes_app, (R1 a eq_refl), <- O1, <- T1.
    apply (R2 b Hb).
  - exists a1. repeat split; try assumption; discriminate.
  - exists a1. repeat split; try assumption; discriminate.
Qed.



Lemma fatal_ret {A : Type} (a : A) : refusal_is_fatal (ret a).
Proof. apply fatal_unchanged. now intros w. Qed.

Lemma fatal_throw {A : Type} (e : error) : refusal_is_fatal (@throw A e).
Proof. apply fatal_unchanged. now intros w. Qed.

Lemma fatal_process_exit {A : Type} (c : Z) : refusal_is_fatal (@process_exit A c).
Proof. apply fatal_unchanged. now intros w. Qed.

Lemma fatal_now : refusal_is_fatal now.
Proof. apply fatal_unchanged. now intros w. Qed.

Lemma fatal_set_this_config (c : option config) : refusal_is_fatal (set_this_config c).
Proof. apply fatal_unchanged. now intros w. Qed.

Lemma fatal_get_config : refusal_is_fatal get_config.
Proof.
  apply fatal_unchanged. intros w. unfold get_config. now destruct (this_config w).
Qed.

Lemma fatal_read_config_file : refusal_is_fatal read_config_file.
Proof.
  apply fatal_unchanged. intros w. unfold read_config_file. now destruct (config_file w).
Qed.

Lemma fatal_write_config_file : refusal_is_fatal write_config_file.
Proof.
  apply fatal_unchanged. intros w. unfold write_config_file.
  now destruct (config_writable w).
Qed.

Lemma fatal_json_of {A : Type} (r : response A) : refusal_is_fatal (json_of r).
Proof. unfold json_of. destruct (resp_json r); [apply fatal_ret | apply fatal_throw]. Qed.

Lemma fatal_text_of (r : response json) : refusal_is_fatal (text_of r).
Proof.
  apply fatal_unchanged. intros w. unfold text_of. now destruct (read_text w (trace w) r).
Qed.

Lemma fatal_member (k : string) (v : json) : refusal_is_fatal (member k v).
Proof. unfold member. destruct v; first [apply fatal_ret | apply fatal_throw]. Qed.

Lemma fatal_logSyncResult (entry : json) :
  refusal_is_fatal (AutomatedTraktSync.logSyncResult entry).
Proof.
  apply fatal_unchanged. intros w. rewrite logSyncResult_run. simpl.
  destruct (log_entries (log_file w)); [destruct (log_writable w)|]; now split.
Qed.

Lemma fatal_github_loadConfig : refusal_is_fatal GitHubSync.loadConfig.
Proof.
  apply fatal_unchanged. intros w. unfold GitHubSync.loadConfig. cbv zeta.
  now destruct (TRAKT_TOKENS (process_env w)).
Qed.

Lemma fatal_console_log (m : message) : refusal_is_fatal (console_log m).
Proof. intros w. exists [Console m]. now repeat split. Qed.

(** A request to another address than that of the token exchange. *)
Lemma fatal_fetch_simkl (url : string) (o : options) :
  (url =? trakt_oauth_token)%string = false -> refusal_is_fatal (fetch_simkl url o).
Proof.
  intros H w. exists [Fetch {| req_url := url; req_options := o |}].
  unfold fetch_simkl. cbv zeta.
  destruct (simkl w (trace w) _); simpl; unfold refused_exchange; simpl; rewrite H;
    now repeat split.
Qed.

Lemma fatal_fetch_trakt (url : string) (o : options) :
  (url =? trakt_oauth_token)%string = false -> refusal_is_fatal (fetch_trakt url o).
Proof.
  intros H w. exists [Fetch {| req_url := url; req_options := o |}].
  unfold fetch_trakt. cbv zeta.
  destruct (trakt w (trace w) _); simpl; unfold refused_exchange; simpl; rewrite H;
    now repeat split.
Qed.

(** The token exchange, followed by the test of its answer. *)
Lemma fatal_exchange {B : Type} (o : options) (k : response json -> M B) (e : error) :
  (forall r, refusal_is_fatal (k r)) ->
  refusal_is_fatal
    (bind (fetch_trakt trakt_oauth_token o)
          (fun response => if ok response then k response else throw e)).
Proof.
  intros Hk w. unfold bind, fetch_trakt. cbv zeta.
  set (q := {| req_url := trakt_oauth_token; req_options := o |}).
  destruct (trakt w (trace w) q) as [|r] eqn:E.
  - exists [Fetch q]. repeat split. discriminate.
  - destruct (ok r) eqn:K.
    + destruct (Hk r (with_trace w (trace w ++ [Fetch q]))) as (a2 & T2 & O2 & R2).
      exists ([Fetch q] ++ a2). rewrite T2, O2. simpl trace. simpl trakt.
      rewrite <- app_assoc. repeat split.
      intros b Hb. rewrite refused_refreshes_app. simpl.
      unfold refused_exchange. rewrite E, K. simpl. rewrite ?andb_false_r. simpl.
      apply (R2 b Hb).
    + exists [Fetch q]. repeat split. discriminate.
Qed.

Create HintDb fatal.
#[local] Hint Resolve fatal_ret fatal_throw fatal_process_exit fatal_now
  fatal_set_this_config fatal_get_config fatal_read_config_file fatal_write_config_file
  fatal_json_of fatal_text_of fatal_member fatal_logSyncResult fatal_github_loadConfig
  fatal_console_log : fatal.

Ltac fatal_step :=
  match goal with
  | |- refusal_is_fatal (bind (fetch_trakt trakt_oauth_token _) _) =>
      apply fatal_exchange; intros ?
  | |- refusal_is_fatal (bind _ _) => apply fatal_bind; [|intros ?]
  | |- refusal_is_fatal (fetch_trakt _ _) => apply fatal_fetch_trakt; assumption
  | |- refusal_is_fatal (fetch_simkl _ _) => apply fatal_fetch_simkl; reflexivity
  | |- refusal_is_fatal (if ?c then _ else _) => destruct c
  | |- refusal_is_fatal (match ?x with _ => _ end) => destruct x
  | |- refusal_is_fatal _ => solve [auto with fatal]
  end.

Lemma fatal_get_trakt_tokens : refusal_is_fatal get_trakt_tokens.
Proof. unfold get_trakt_tokens. repeat fatal_step. Qed.

#[local] Hint Resolve fatal_get_trakt_tokens : fatal.



Lemma fatal_getSimklWatched : refusal_is_fatal ManualSync.getSimklWatched.
Proof. unfold ManualSync.getSimklWatched, ManualSync.fetchJSON. repeat fatal_step. Qed.

Lemma fatal_manual_loadConfig : refusal_is_fatal ManualSync.loadConfig.
Proof.
  intros w. unfold ManualSync.loadConfig, try_catch, bind, read_config_file.
  destruct (config_file w); simpl; eexists;
    (split; [first [reflexivity | symmetry; apply app_nil_r] | now split]).
Qed.

Lemma fatal_auto_loadConfig : refusal_is_fatal AutomatedTraktSync.loadConfig.
Proof.
  intros w. unfold AutomatedTraktSync.loadConfig, try_catch, bind, read_config_file.
  destruct (config_file w); simpl; eexists;
    (split; [first [reflexivity | rewrite <- app_assoc; reflexivity] | now split]).
Qed.

#[local] Hint Resolve fatal_getSimklWatched fatal_manual_loadConfig fatal_auto_loadConfig
  : fatal.











